(** * URL shortener backend ([backend/server.js]): a shallow embedding

    The server keeps one table, [urlDatabase], a JavaScript [Map] from short
    identifiers to [UrlEntry] objects, and four request handlers plus an hourly
    clean-up job that read and mutate it.

    Conventions of the embedding:
    - JavaScript numbers are the integers [Z] (timestamps in epoch
      milliseconds, counters, time-to-live) together with [NaN]. The
      conversions between numbers and strings are exact on the integers
      up to [2^53] in magnitude ([JsNumber.safe]); larger magnitudes,
      fractions and the infinities are outside the model.
    - Strings are [string], read as sequences of ASCII characters.
    - The values of a request body are [JsVal]: [undefined] for an absent
      field, [null], booleans, numbers, strings and objects. JSON arrays
      are outside the model.
    - A [Map] is an association list in insertion order; [Map.wf] says that
      its keys are pairwise distinct, which every JavaScript [Map] satisfies.
      The keys of [urlDatabase] are values: the handler files an entry
      under whatever truthy [customSlug] it was sent, so a key can be a
      number or [true] as well as a string, and a number is not the string
      that spells it.
    - [UrlEntry] objects live in an object store ([heap]) and the table binds
      a key to the address of its object, so that an entry mutated through
      one reference is the entry seen through the table, and an overwritten
      binding leaves the old object as it was.
    - [Date.now()] is an argument [now] of each handler: one reading for the
      synchronous part of a handler run.
    - The external collaborators (URL validator, QR encoder) are section
      variables; the random bytes of [crypto.randomBytes] are an argument.
    - An operation that can throw returns a [Completion]; a handler that
      catches answers 500.
    - A handler runs without interruption up to its first [await]. Only
      the shorten handler touches the table after one: it is split at
      [await generateQRCode] into [Server.begin] and [Server.install], and
      its answer is written with a later clock reading. [Server.shorten]
      is a request that nothing else overlaps.
    - The data file [saveData] writes is not part of the state: writing it
      does not touch the table. *)

From Stdlib Require Import ZArith Lia List String Ascii Bool Permutation.
From stdpp Require Import base list.
Import ListNotations.

Local Open Scope string_scope.
Local Open Scope Z_scope.

(** ** JavaScript strings *)

Module JsString.

(** [s.startsWith(pat)] *)
Fixpoint startsWith (s pat : string) {struct pat} : bool :=
  match pat, s with
  | EmptyString, _ => true
  | String _ _, EmptyString => false
  | String p pat', String c s' => Ascii.eqb c p && startsWith s' pat'
  end.

(** [s.includes(pat)]: [pat] occurs in [s] at some position
    (case-sensitive). *)
Fixpoint includes (s pat : string) : bool :=
  startsWith s pat ||
  match s with
  | EmptyString => false
  | String _ s' => includes s' pat
  end.

(** The declarative reading of [includes]. *)
Definition substring_of (pat s : string) : Prop :=
  exists pre post : string, s = pre ++ pat ++ post.

(** JavaScript truthiness of a string: only the empty string is falsy. *)
Definition truthy (s : string) : bool :=
  match s with EmptyString => false | _ => true end.

Definition in_range (lo hi c : ascii) : bool :=
  (N_of_ascii lo <=? N_of_ascii c)%N && (N_of_ascii c <=? N_of_ascii hi)%N.

Fixpoint all_chars (p : ascii -> bool) (s : string) : bool :=
  match s with
  | EmptyString => true
  | String c s' => p c && all_chars p s'
  end.

End JsString.

(** ** JavaScript numbers and [parseInt] *)

Inductive JsNumber : Type :=
| NaN
| Num (z : Z).

Module JsNumber.

(** Truthiness of a number: [0] and [NaN] are falsy. *)
Definition truthy (n : JsNumber) : bool :=
  match n with
  | NaN => false
  | Num z => negb (z =? 0)
  end.

(** [a + b] *)
Definition add (a b : JsNumber) : JsNumber :=
  match a, b with
  | Num x, Num y => Num (x + y)
  | _, _ => NaN
  end.

(** [a > b]: every comparison with [NaN] is false. *)
Definition gt (a b : JsNumber) : bool :=
  match a, b with
  | Num x, Num y => x >? y
  | _, _ => false
  end.

(** Numbers as [Map] keys ([SameValueZero]): [NaN] is the same value as
    [NaN]. *)
Definition eqb (a b : JsNumber) : bool :=
  match a, b with
  | NaN, NaN => true
  | Num x, Num y => x =? y
  | _, _ => false
  end.

(** The integers up to [2^53] in magnitude, each of which is a double. *)
Definition safe (z : Z) : bool := Z.abs z <=? 9007199254740992.

(** The double nearest to an integer: 53 significant bits are kept and a
    tie goes to the even significand. (Past the largest double JavaScript
    has [Infinity], which the model does not have.) *)
Definition to_double (z : Z) : Z :=
  let a := Z.abs z in
  let drop := Z.log2 a - 52 in
  if drop <=? 0 then z
  else
    let unit := 2 ^ drop in
    let q := a / unit in
    let r := a mod unit in
    let q' :=
      if 2 * r <? unit then q
      else if unit <? 2 * r then q + 1
      else if Z.even q then q else q + 1 in
    Z.sgn z * (q' * unit).

(** White space skipped by [parseInt] (the 8-bit part of
    [StrWhiteSpaceChar]): TAB, LF, VT, FF, CR, SP. *)
Definition is_space (c : ascii) : bool :=
  let n := N_of_ascii c in
  ((9 <=? n) && (n <=? 13) || (n =? 32))%N.

Fixpoint trim_start (s : string) : string :=
  match s with
  | String c s' => if is_space c then trim_start s' else s
  | EmptyString => s
  end.

(** Value of a character as a digit, up to base sixteen. *)
Definition digit_value (c : ascii) : option Z :=
  let n := Z.of_N (N_of_ascii c) in
  if (48 <=? n) && (n <=? 57) then Some (n - 48)
  else if (97 <=? n) && (n <=? 102) then Some (n - 87)
  else if (65 <=? n) && (n <=? 70) then Some (n - 55)
  else None.

Definition radix_digit (radix : Z) (c : ascii) : option Z :=
  match digit_value c with
  | Some d => if d <? radix then Some d else None
  | None => None
  end.

(** Reads the longest prefix of [s] made of digits of [radix]; [acc] is
    the value read so far, [seen] whether a digit was read. *)
Fixpoint read_digits (radix : Z) (s : string) (seen : bool) (acc : Z)
  : option Z :=
  match s with
  | String c s' =>
      match radix_digit radix c with
      | Some d => read_digits radix s' true (acc * radix + d)
      | None => if seen then Some acc else None
      end
  | EmptyString => if seen then Some acc else None
  end.

(** [parseInt(s)] with no radix argument: leading white space, an optional
    sign, an optional [0x]/[0X] prefix, then the longest run of digits;
    [NaN] when that run is empty, and else the double nearest to the
    integer read. *)
Definition parseInt_string (s : string) : JsNumber :=
  let s1 := trim_start s in
  let '(sign, s2) :=
    match s1 with
    | String "-" r => (-1, r)
    | String "+" r => (1, r)
    | _ => (1, s1)
    end in
  let '(radix, s3) :=
    match s2 with
    | String "0" (String "x" r) => (16, r)
    | String "0" (String "X" r) => (16, r)
    | _ => (10, s2)
    end in
  match read_digits radix s3 false 0 with
  | Some v => Num (sign * to_double v)
  | None => NaN
  end.

End JsNumber.

(** ** JavaScript [Map]

    A [Map] compares keys by [SameValueZero]. [KeyEq K] is that comparison
    on a type of keys for which it decides equality: strings, and the
    values used as keys of [urlDatabase]. *)

Class KeyEq (K : Type) : Type := {
  same_value : K -> K -> bool;
  same_value_spec : forall a b : K, reflect (a = b) (same_value a b)
}.

#[global] Instance string_KeyEq : KeyEq string :=
  {| same_value := String.eqb; same_value_spec := String.eqb_spec |}.

(** A [Map] with string keys. *)
Definition JsMap (V : Type) : Type := list (string * V).

Module Map.
Section Ops.
Context {K : Type} {same : KeyEq K} {V : Type}.

(** [m.get(k)]; [None] is [undefined]. *)
Fixpoint get (k : K) (m : list (K * V)) : option V :=
  match m with
  | [] => None
  | (k', v) :: m' => if same_value k k' then Some v else get k m'
  end.

(** [m.has(k)] *)
Definition has (k : K) (m : list (K * V)) : bool :=
  match get k m with Some _ => true | None => false end.

(** [m.set(k, v)]: an existing key keeps its position, a new key goes
    last. *)
Fixpoint set (k : K) (v : V) (m : list (K * V)) : list (K * V) :=
  match m with
  | [] => [(k, v)]
  | (k', v') :: m' =>
      if same_value k k' then (k, v) :: m' else (k', v') :: set k v m'
  end.

(** [m.delete(k)] *)
Definition delete (k : K) (m : list (K * V)) : list (K * V) :=
  List.filter (fun kv => negb (same_value k (fst kv))) m.

(** [new Map(entries)]: the entries are set one after the other. *)
Definition of_entries (kvs : list (K * V)) : list (K * V) :=
  fold_left (fun m kv => set (fst kv) (snd kv) m) kvs [].

Definition keys (m : list (K * V)) : list K := List.map fst m.

(** The keys of a [Map] are pairwise distinct. *)
Definition wf (m : list (K * V)) : Prop := List.NoDup (keys m).

(** Two maps with the same bindings, whatever the insertion order. *)
Definition equiv (m1 m2 : list (K * V)) : Prop :=
  forall k, get k m1 = get k m2.
End Ops.
End Map.

(** ** Plain JavaScript objects

    The own enumerable string-keyed properties of an object, in the order
    [Object.entries] and [JSON.stringify] list them: the array-index keys
    first, by ascending numeric value, then the other keys in the order of
    their creation. *)

Definition JsObject (V : Type) : Type := list (string * V).

Module Obj.

Definition is_digit (c : ascii) : bool := JsString.in_range "0" "9" c.

Fixpoint decimal_value (s : string) (acc : N) : N :=
  match s with
  | EmptyString => acc
  | String c s' =>
      decimal_value s' (acc * 10 + (N_of_ascii c - 48))%N
  end.

(** An array index is the canonical decimal numeral of an integer below
    [2^32 - 1]: no sign, no leading zero. *)
Definition array_index (k : string) : option N :=
  match k with
  | EmptyString => None
  | String c rest =>
      if JsString.all_chars is_digit k
         && (negb (Ascii.eqb c "0") || negb (JsString.truthy rest))
         && (Nat.leb (String.length k) 10)
         && (decimal_value k 0 <? 4294967295)%N
      then Some (decimal_value k 0)
      else None
  end.

Section Ops.
Context {V : Type}.

(** [o[k]]; [None] is [undefined]. *)
Definition get (k : string) (o : JsObject V) : option V := Map.get k o.

(** Position of a new property: before the first property that is not
    an array index or whose index is larger. *)
Fixpoint insert_index (i : N) (k : string) (v : V) (o : JsObject V)
  : JsObject V :=
  match o with
  | [] => [(k, v)]
  | (k', v') :: o' =>
      match array_index k' with
      | Some j =>
          if (j <? i)%N then (k', v') :: insert_index i k v o'
          else (k, v) :: o
      | None => (k, v) :: o
      end
  end.

(** [o[k] = v] on an ordinary object ([CreateDataProperty]). *)
Definition set (k : string) (v : V) (o : JsObject V) : JsObject V :=
  if Map.has k o then Map.set k v o
  else match array_index k with
       | Some i => insert_index i k v o
       | None => (o ++ [(k, v)])%list
       end.

(** [Object.fromEntries(entries)] *)
Definition fromEntries (kvs : list (string * V)) : JsObject V :=
  fold_left (fun o kv => set (fst kv) (snd kv) o) kvs [].

(** [Object.entries(o)] *)
Definition entries (o : JsObject V) : list (string * V) := o.
End Ops.
End Obj.

(** ** JavaScript values that cross the HTTP and file boundaries *)

#[local] Set Warnings "-register-all".

Inductive JsVal : Type :=
| JUndefined
| JNull
| JBool (b : bool)
| JNumber (n : JsNumber)
| JString (s : string)
| JObject (props : list (string * JsVal)).

Coercion JString : string >-> JsVal.

(** The outcome of an operation that can throw. *)
Inductive Completion (A : Type) : Type :=
| Normal (a : A)
| Throw.

Arguments Normal {A} a.
Arguments Throw {A}.

Module JsVal.

(** Values as [Map] keys ([SameValueZero]): primitives are compared by
    type and value. JavaScript compares objects by identity; here they
    are compared by content, which is never put to use: no object is
    looked up in [urlDatabase] or becomes one of its keys (an object sent
    as [customSlug] fails the pattern or throws before the table is
    consulted). *)
Fixpoint eqb (a b : JsVal) : bool :=
  match a, b with
  | JUndefined, JUndefined => true
  | JNull, JNull => true
  | JBool x, JBool y => Bool.eqb x y
  | JNumber x, JNumber y => JsNumber.eqb x y
  | JString x, JString y => String.eqb x y
  | JObject p, JObject q =>
      (fix eqb_props (p q : list (string * JsVal)) : bool :=
         match p, q with
         | [], [] => true
         | (k, x) :: p', (k', y) :: q' =>
             String.eqb k k' && eqb x y && eqb_props p' q'
         | _, _ => false
         end) p q
  | _, _ => false
  end.


(** [ToBoolean] *)
Definition truthy (v : JsVal) : bool :=
  match v with
  | JUndefined | JNull => false
  | JBool b => b
  | JNumber n => JsNumber.truthy n
  | JString s => JsString.truthy s
  | JObject _ => true
  end.

(** [a || b] *)
Definition or (a b : JsVal) : JsVal := if truthy a then a else b.

(** The values whose conversion to a string the model follows exactly:
    all but the numbers beyond the safe integers. *)
Definition safe (v : JsVal) : bool :=
  match v with
  | JNumber (Num z) => JsNumber.safe z
  | _ => true
  end.

Definition digit_char (d : N) : ascii := ascii_of_N (48 + d).

(** Decimal numeral of a positive integer, most significant digit first;
    [fuel] bounds the number of digits (the binary size is enough). *)
Fixpoint digits (fuel : nat) (n : N) (acc : string) : string :=
  match fuel with
  | O => acc
  | S fuel' =>
      let acc' := String (digit_char (n mod 10)) acc in
      if (n / 10 =? 0)%N then acc' else digits fuel' (n / 10) acc'
  end.

Definition Number_toString (n : JsNumber) : string :=
  match n with
  | NaN => "NaN"
  | Num 0 => "0"
  | Num (Zpos p) => digits (Pos.size_nat p) (Npos p) ""
  | Num (Zneg p) => String "-" (digits (Pos.size_nat p) (Npos p) "")
  end.

(** [ToString]. An object parsed from JSON is converted by the
    [toString] it inherits, unless it has a property of that name: the
    property's value is not a function, [valueOf] returns the object
    itself, and the conversion throws a [TypeError]. *)
Definition toString (v : JsVal) : Completion string :=
  match v with
  | JUndefined => Normal "undefined"
  | JNull => Normal "null"
  | JBool true => Normal "true"
  | JBool false => Normal "false"
  | JNumber n => Normal (Number_toString n)
  | JString s => Normal s
  | JObject props =>
      if Map.has "toString" props then Throw else Normal "[object Object]"
  end.

(** [parseInt(v)]: the argument is converted to a string first. *)
Definition parseInt (v : JsVal) : Completion JsNumber :=
  match toString v with
  | Normal s => Normal (JsNumber.parseInt_string s)
  | Throw => Throw
  end.

(** Induction on values, with the hypothesis for every property of an
    object. *)
Lemma nested_ind (P : JsVal -> Prop) :
  P JUndefined -> P JNull -> (forall x, P (JBool x)) ->
  (forall x, P (JNumber x)) -> (forall x, P (JString x)) ->
  (forall p, List.Forall (fun kv => P (snd kv)) p -> P (JObject p)) ->
  forall v, P v.
Proof.
  intros Hu Hn Hb Hz Hs Ho. fix ind 1. intros [ | | x | x | x | p];
    [exact Hu|exact Hn|apply Hb|apply Hz|apply Hs|].
  apply Ho. induction p as [|[k x] p IH]; constructor; [apply ind|exact IH].
Qed.

Lemma eqb_spec (a b : JsVal) : reflect (a = b) (eqb a b).
Proof.
  apply iff_reflect. revert b.
  induction a as [ | | x | x | x | p IH] using nested_ind;
    intros b; destruct b as [ | | y | y | y | q]; simpl;
    try (split; [discriminate|discriminate]); try tauto.
  - rewrite Bool.eqb_true_iff. split; congruence.
  - destruct x as [|x], y as [|y]; simpl;
      try (split; [discriminate|discriminate]); [tauto|].
    rewrite Z.eqb_eq. split; congruence.
  - rewrite String.eqb_eq. split; congruence.
  - revert q. induction IH as [|[k x] p Hx _ IHp]; intros [|[k' y] q];
      try (split; [discriminate|discriminate]); [tauto|].
    rewrite !andb_true_iff, String.eqb_eq. cbn [snd] in Hx.
    rewrite <- (Hx y), <- (IHp q). split.
    + intros [= -> -> ->]. auto.
    + intros [[-> ->] [= ->]]. reflexivity.
Qed.

End JsVal.

#[global] Instance JsVal_KeyEq : KeyEq JsVal :=
  {| same_value := JsVal.eqb; same_value_spec := JsVal.eqb_spec |}.

(** ** [class UrlEntry] *)

Record UrlEntry : Type := mkUrlEntry {
  longUrl : string;
  shortId : JsVal;
  createdAt : Z;
  ttl : option JsNumber;          (* [None] is [null] *)
  accessCount : Z;
  lastAccessed : option Z;        (* [None] is [null] *)
  referrers : JsMap Z;
  browserStats : JsMap Z;
  qrCode : option string          (* [None] is [null] *)
}.

(** The object [getStats] returns. *)
Record Stats : Type := mkStats {
  stats_accessCount : Z;
  stats_lastAccessed : option Z;
  stats_createdAt : Z;
  stats_ttl : option JsNumber;
  stats_isExpired : bool;
  stats_referrers : JsObject Z;
  stats_browserStats : JsObject Z;
  stats_qrCode : option string
}.

Module UrlEntry.

(** [a || b] on a header that may be absent: [undefined] and the empty
    string are falsy. *)
Definition or_string (a : option string) (b : string) : string :=
  match a with
  | Some s => if JsString.truthy s then s else b
  | None => b
  end.

(** [a || b] where [a] is a count or [undefined]. *)
Definition or_number (a : option Z) (b : Z) : Z :=
  match a with
  | Some n => if JsNumber.truthy (Num n) then n else b
  | None => b
  end.

(** [constructor(longUrl, shortId, createdAt, ttl = null, customSlug = null)] *)
Definition new (longUrl : string) (shortId : JsVal) (createdAt : Z)
    (ttl : option JsNumber) (customSlug : JsVal) : UrlEntry :=
  {| longUrl := longUrl;
     shortId := JsVal.or customSlug shortId;
     createdAt := createdAt;
     ttl := ttl;
     accessCount := 0;
     lastAccessed := None;
     referrers := [];
     browserStats := [];
     qrCode := None |}.

(** [isExpired()], with [now] the value of [Date.now()]. *)
Definition isExpired (now : Z) (e : UrlEntry) : bool :=
  match ttl e with
  | None => false
  | Some t =>
      if negb (JsNumber.truthy t) then false
      else JsNumber.gt (Num now) (JsNumber.add (Num (createdAt e)) t)
  end.

(** [getBrowserFromUserAgent(userAgent)] *)
Definition getBrowserFromUserAgent (userAgent : string) : string :=
  if JsString.includes userAgent "Firefox" then "Firefox"
  else if JsString.includes userAgent "Chrome" then "Chrome"
  else if JsString.includes userAgent "Safari" then "Safari"
  else if JsString.includes userAgent "Edge" then "Edge"
  else "Other".

(** [updateStats(referrer, userAgent)], with [now] the value of
    [Date.now()]; the mutated object is returned. *)
Definition updateStats (now : Z) (referrer userAgent : string)
    (e : UrlEntry) : UrlEntry :=
  let referrerCount := or_number (Map.get referrer (referrers e)) 0 in
  let browser := getBrowserFromUserAgent userAgent in
  let browserCount := or_number (Map.get browser (browserStats e)) 0 in
  {| longUrl := longUrl e;
     shortId := shortId e;
     createdAt := createdAt e;
     ttl := ttl e;
     accessCount := accessCount e + 1;
     lastAccessed := Some now;
     referrers := Map.set referrer (referrerCount + 1) (referrers e);
     browserStats := Map.set browser (browserCount + 1) (browserStats e);
     qrCode := qrCode e |}.

(** [getStats()] *)
Definition getStats (now : Z) (e : UrlEntry) : Stats :=
  {| stats_accessCount := accessCount e;
     stats_lastAccessed := lastAccessed e;
     stats_createdAt := createdAt e;
     stats_ttl := ttl e;
     stats_isExpired := isExpired now e;
     stats_referrers := Obj.fromEntries (referrers e);
     stats_browserStats := Obj.fromEntries (browserStats e);
     stats_qrCode := qrCode e |}.

Definition json_number (n : option JsNumber) : JsVal :=
  match n with Some x => JNumber x | None => JNull end.

Definition json_time (n : option Z) : JsVal :=
  match n with Some x => JNumber (Num x) | None => JNull end.

Definition json_string (s : option string) : JsVal :=
  match s with Some x => JString x | None => JNull end.

Definition json_counts (m : JsMap Z) : JsVal :=
  JObject (List.map (fun kv => (fst kv, JNumber (Num (snd kv))))
             (Obj.fromEntries m)).

(** [toJSON()]: the own properties of the entry, in the order the
    constructor created them, with the two maps replaced (in place) by
    plain objects. No [customSlug] property is written. *)
Definition toJSON (e : UrlEntry) : JsVal :=
  JObject
    [ ("longUrl", JString (longUrl e));
      ("shortId", shortId e);
      ("createdAt", JNumber (Num (createdAt e)));
      ("ttl", json_number (ttl e));
      ("accessCount", JNumber (Num (accessCount e)));
      ("lastAccessed", json_time (lastAccessed e));
      ("referrers", json_counts (referrers e));
      ("browserStats", json_counts (browserStats e));
      ("qrCode", json_string (qrCode e)) ].

(** Property access [json.k]: [undefined] when there is no such
    property. *)
Definition prop (k : string) (json : JsVal) : JsVal :=
  match json with
  | JObject props =>
      match Obj.get k props with Some v => v | None => JUndefined end
  | _ => JUndefined
  end.

(** Readers of the values the server itself writes. Each returns [None]
    on a value of another kind; the source does not check, and such
    documents are outside the model. *)
Definition as_string (v : JsVal) : option string :=
  match v with JString s => Some s | _ => None end.

Definition as_integer (v : JsVal) : option Z :=
  match v with JNumber (Num z) => Some z | _ => None end.

(** A parameter with default [null], or a nullable field. *)
Definition as_nullable {A} (read : JsVal -> option A) (v : JsVal)
  : option (option A) :=
  match v with
  | JUndefined | JNull => Some None
  | _ => match read v with Some x => Some (Some x) | None => None end
  end.

Definition as_number (v : JsVal) : option JsNumber :=
  match v with JNumber n => Some n | _ => None end.

Fixpoint as_counts (props : list (string * JsVal))
  : option (list (string * Z)) :=
  match props with
  | [] => Some []
  | (k, v) :: rest =>
      match as_integer v, as_counts rest with
      | Some n, Some l => Some ((k, n) :: l)
      | _, _ => None
      end
  end.

(** [new Map(Object.entries(v))] *)
Definition as_map (v : JsVal) : option (JsMap Z) :=
  match v with
  | JObject props =>
      match as_counts (Obj.entries props) with
      | Some kvs => Some (Map.of_entries kvs)
      | None => None
      end
  | _ => None
  end.

(** [static fromJSON(json)] *)
Definition fromJSON (json : JsVal) : option UrlEntry :=
  match as_string (prop "longUrl" json),
        as_integer (prop "createdAt" json),
        as_nullable as_number (prop "ttl" json) with
  | Some j_longUrl, Some j_createdAt, Some j_ttl =>
      let entry :=
        new j_longUrl (prop "shortId" json) j_createdAt j_ttl
          (prop "customSlug" json) in
      match as_integer (prop "accessCount" json),
            as_nullable as_integer (prop "lastAccessed" json),
            as_map (prop "referrers" json),
            as_map (prop "browserStats" json),
            as_nullable as_string (prop "qrCode" json) with
      | Some j_accessCount, Some j_lastAccessed, Some j_referrers,
        Some j_browserStats, Some j_qrCode =>
          Some {| longUrl := longUrl entry;
                  shortId := shortId entry;
                  createdAt := createdAt entry;
                  ttl := ttl entry;
                  accessCount := j_accessCount;
                  lastAccessed := j_lastAccessed;
                  referrers := j_referrers;
                  browserStats := j_browserStats;
                  qrCode := j_qrCode |}
      | _, _, _, _, _ => None
      end
  | _, _, _ => None
  end.

End UrlEntry.

(** ** The server: state, requests, responses *)

(** The table [urlDatabase]: a [Map] whose keys are the values entries
    were filed under, bound to the address of their [UrlEntry]. *)
Definition Table : Type := list (JsVal * nat).

(** The object store and the table. *)
Record State : Type := mkState {
  heap : list UrlEntry;
  urlDatabase : Table
}.

(** [POST /api/shorten]: the body fields and what the handler reads of the
    request to build the short link. An absent [ttl] or [customSlug] is
    [JUndefined]; the handler takes both as they come, of any type. The
    [longUrl] is a string: the validator is a collaborator on strings. *)
Record ShortenRequest : Type := mkShortenRequest {
  body_longUrl : string;
  body_ttl : JsVal;
  body_customSlug : JsVal;
  req_protocol : string;
  req_host : string
}.

(** [GET /:shortId]: the path parameter and the two headers read. *)
Record RedirectRequest : Type := mkRedirectRequest {
  param_shortId : string;
  header_Referrer : option string;
  header_UserAgent : option string
}.

Inductive Body : Type :=
| ErrorBody (error : string)
| EntryBody (shortId : JsVal) (longUrl : string) (stats : Stats)
| HealthBody (status : string) (totalUrls activeUrls expiredUrls : nat).

Inductive Response : Type :=
| Json (status : nat) (body : Body)      (* [res.status(n).json(body)] *)
| Send (status : nat) (text : string)    (* [res.status(n).send(text)] *)
| Redirect (url : string).               (* [res.redirect(url)] *)

(** The four bytes [crypto.randomBytes(4)] returns. *)
Definition RandomBytes : Type := (Byte.byte * Byte.byte * Byte.byte * Byte.byte)%type.

Definition hex_digit (n : N) : ascii :=
  if (n <? 10)%N then ascii_of_N (48 + n) else ascii_of_N (87 + n).

(** Two lowercase hexadecimal digits per byte. *)
Definition hex_byte (b : Byte.byte) : string :=
  let n := Byte.to_N b in
  String (hex_digit (n / 16)) (String (hex_digit (n mod 16)) EmptyString).

(** [generateShortId()], given the random bytes drawn. *)
Definition generateShortId (random : RandomBytes) : string :=
  let '(b0, b1, b2, b3) := random in
  hex_byte b0 ++ hex_byte b1 ++ hex_byte b2 ++ hex_byte b3.

(** The character class [[a-zA-Z0-9-_]]. *)
Definition slug_char (c : ascii) : bool :=
  JsString.in_range "a" "z" c || JsString.in_range "A" "Z" c
  || JsString.in_range "0" "9" c || Ascii.eqb c "-" || Ascii.eqb c "_".

(** The pattern [/^[a-zA-Z0-9-_]+$/]: the whole string is one or more
    characters of the class. *)
Definition slug_pattern (s : string) : bool :=
  JsString.truthy s && JsString.all_chars slug_char s.

(** [isValidCustomSlug(slug)]: [test] converts its argument to a string
    and matches the pattern against it. *)
Definition isValidCustomSlug (slug : JsVal) : Completion bool :=
  match JsVal.toString slug with
  | Normal s => Normal (slug_pattern s)
  | Throw => Throw
  end.

(** The answer of a handler whose [catch] branch runs. *)
Definition internal_error : Body := ErrorBody "Internal server error".

(** What a shorten request holds when it is suspended at
    [await generateQRCode(fullUrl)]: the identifier, the [longUrl], the
    entry just constructed and the short link. *)
Record Pending : Type := mkPending {
  pending_shortId : JsVal;
  pending_longUrl : string;
  pending_urlEntry : UrlEntry;
  pending_fullUrl : string
}.

(** A shorten request up to its first [await]: it has answered, or it is
    suspended with an entry to file. *)
Inductive Started : Type :=
| Answered (r : Response)
| Suspended (p : Pending).

Module Server.
Section Handlers.

(** [validUrl.isWebUri], read as a truth value. *)
Variable isWebUri : string -> bool.
(** [QRCode.toDataURL]; [None] when it throws. *)
Variable toDataURL : string -> option string.

Definition isValidUrl (url : string) : bool := isWebUri url.

(** [generateQRCode(url)]: the data URL, or [null] on failure. *)
Definition generateQRCode (url : string) : option string := toDataURL url.

(** [urlDatabase.get(k)]: the address bound to [k] and the object
    there; [None] is [undefined] (no such key; an address without object
    does not occur in a well-formed state). *)
Definition lookup (k : JsVal) (st : State) : option (nat * UrlEntry) :=
  match Map.get k (urlDatabase st) with
  | Some a =>
      match heap st !! a with
      | Some e => Some (a, e)
      | None => None
      end
  | None => None
  end.

(** [urlDatabase.entries()]: keys with the objects they are bound to,
    in insertion order. *)
Definition entries (st : State) : list (JsVal * UrlEntry) :=
  List.flat_map
    (fun ka => match heap st !! (snd ka) with
               | Some e => [(fst ka, e)]
               | None => []
               end)
    (urlDatabase st).

(** [urlDatabase.values()] *)
Definition values (st : State) : list UrlEntry :=
  List.map snd (entries st).

(** The loop "Check for existing URL": the first entry, in table order,
    with this [longUrl] that is not expired. *)
Definition find_existing (now : Z) (url : string)
    (l : list (JsVal * UrlEntry)) : option (JsVal * UrlEntry) :=
  List.find
    (fun ke => String.eqb (longUrl (snd ke)) url
               && negb (UrlEntry.isExpired now (snd ke)))
    l.

(** The two checks made on a custom slug when the request has a truthy
    one: the error response of the first that fails. The pattern is
    matched against the slug converted to a string, which can throw; the
    table is asked for the slug as it was sent. *)
Definition check_customSlug (customSlug : JsVal) (st : State)
  : Completion (option Response) :=
  if JsVal.truthy customSlug then
    match isValidCustomSlug customSlug with
    | Throw => Throw
    | Normal false =>
        Normal (Some (Json 400 (ErrorBody "Invalid custom slug format")))
    | Normal true =>
        if Map.has customSlug (urlDatabase st) then
          Normal (Some (Json 409 (ErrorBody "Custom slug already in use")))
        else Normal None
    end
  else Normal None.

(** [ttl ? parseInt(ttl) : null] *)
Definition parsed_ttl (req : ShortenRequest) : Completion (option JsNumber) :=
  if JsVal.truthy (body_ttl req) then
    match JsVal.parseInt (body_ttl req) with
    | Normal n => Normal (Some n)
    | Throw => Throw
    end
  else Normal None.

(** From the identifier to the short link (lines 222 to 231): the
    identifier, the constructor call, whose arguments read the clock and
    parse the [ttl], and the short link, in which the identifier is
    converted to a string. None of this reads the table. *)
Definition construct (now : Z) (random : RandomBytes) (req : ShortenRequest)
  : Completion Pending :=
  let customSlug := body_customSlug req in
  let shortId := JsVal.or customSlug (JString (generateShortId random)) in
  match parsed_ttl req with
  | Throw => Throw
  | Normal parsed =>
      let urlEntry :=
        UrlEntry.new (body_longUrl req) shortId now parsed customSlug in
      match JsVal.toString shortId with
      | Throw => Throw
      | Normal text =>
          Normal {| pending_shortId := shortId;
                    pending_longUrl := body_longUrl req;
                    pending_urlEntry := urlEntry;
                    pending_fullUrl :=
                      req_protocol req ++ "://" ++ req_host req ++ "/"
                      ++ text |}
      end
  end.

(** [app.post('/api/shorten', ...)] up to [await generateQRCode(fullUrl)].
    The table is read and not written. *)
Definition begin (now : Z) (random : RandomBytes) (req : ShortenRequest)
    (st : State) : Started :=
  let url := body_longUrl req in
  let customSlug := body_customSlug req in
  if negb (isValidUrl url) then
    Answered (Json 400 (ErrorBody "Invalid URL format"))
  else
    match check_customSlug customSlug st with
    | Throw => Answered (Json 500 internal_error)
    | Normal (Some refusal) => Answered refusal
    | Normal None =>
        match find_existing now url (entries st) with
        | Some (existingShortId, urlEntry) =>
            Answered (Json 200 (EntryBody existingShortId url
                                  (UrlEntry.getStats now urlEntry)))
        | None =>
            match construct now random req with
            | Throw => Answered (Json 500 internal_error)
            | Normal p => Suspended p
            end
        end
    end.

(** The entry as it is filed: [urlEntry.qrCode = await
    generateQRCode(fullUrl)]. *)
Definition created (p : Pending) : UrlEntry :=
  let urlEntry := pending_urlEntry p in
  {| longUrl := longUrl urlEntry;
     shortId := shortId urlEntry;
     createdAt := createdAt urlEntry;
     ttl := ttl urlEntry;
     accessCount := accessCount urlEntry;
     lastAccessed := lastAccessed urlEntry;
     referrers := referrers urlEntry;
     browserStats := browserStats urlEntry;
     qrCode := generateQRCode (pending_fullUrl p) |}.

(** The handler when it resumes: the QR code is assigned and
    [urlDatabase.set(shortId, urlEntry)] files the entry, in the table as
    it is by then. *)
Definition install (p : Pending) (st : State) : State :=
  {| heap := (heap st ++ [created p])%list;
     urlDatabase :=
       Map.set (pending_shortId p) (length (heap st)) (urlDatabase st) |}.

(** The answer, written after [await saveData()]: [getStats()] reads the
    clock again, and reads the entry as it is by then. *)
Definition respond (later : Z) (p : Pending) (urlEntry : UrlEntry)
  : Response :=
  Json 200 (EntryBody (pending_shortId p) (pending_longUrl p)
              (UrlEntry.getStats later urlEntry)).

(** [app.post('/api/shorten', ...)] for a request that nothing overlaps:
    no other handler runs while it is suspended. [now] is the clock during
    the first part, [later] the clock when the answer is written. *)
Definition shorten (now later : Z) (random : RandomBytes)
    (req : ShortenRequest) (st : State) : Response * State :=
  match begin now random req st with
  | Answered r => (r, st)
  | Suspended p => (respond later p (created p), install p st)
  end.

(** The request passes the checks [shorten] makes before it looks for a
    duplicate: the [longUrl] is valid and the custom slug, if there is one,
    is well-formed and not taken. *)
Definition accepted (req : ShortenRequest) (st : State) : Prop :=
  isValidUrl (body_longUrl req) = true
  /\ check_customSlug (body_customSlug req) st = Normal None.

(** [app.get('/:shortId', ...)] *)
Definition redirect (now : Z) (req : RedirectRequest) (st : State)
  : Response * State :=
  match lookup (JString (param_shortId req)) st with
  | None => (Send 404 "URL not found", st)
  | Some (a, urlEntry) =>
      if UrlEntry.isExpired now urlEntry then
        (Send 404 "URL has expired",
         {| heap := heap st;
            urlDatabase :=
             Map.delete (JString (param_shortId req)) (urlDatabase st) |})
      else
        let updated :=
          UrlEntry.updateStats now
            (UrlEntry.or_string (header_Referrer req) "Direct")
            (UrlEntry.or_string (header_UserAgent req) "Unknown")
            urlEntry in
        (Redirect (longUrl updated),
         {| heap := <[a := updated]> (heap st);
            urlDatabase := urlDatabase st |})
  end.

(** [app.get('/api/stats/:shortId', ...)] *)
Definition stats (now : Z) (id : string) (st : State) : Response * State :=
  match lookup (JString id) st with
  | None => (Json 404 (ErrorBody "URL not found"), st)
  | Some (_, urlEntry) =>
      (Json 200 (EntryBody (shortId urlEntry) (longUrl urlEntry)
                   (UrlEntry.getStats now urlEntry)), st)
  end.

(** [app.get('/api/health', ...)] *)
Definition health (now : Z) (st : State) : Response * State :=
  (Json 200
     (HealthBody "healthy"
        (length (urlDatabase st))
        (length (List.filter (fun url => negb (UrlEntry.isExpired now url))
                   (values st)))
        (length (List.filter (fun url => UrlEntry.isExpired now url)
                   (values st)))),
   st).

(** Whether the clean-up keeps a binding: its entry is not expired. *)
Definition keeps (now : Z) (st : State) (ka : JsVal * nat) : bool :=
  match heap st !! (snd ka) with
  | Some e => negb (UrlEntry.isExpired now e)
  | None => true
  end.

(** [cleanupExpiredUrls()]: the loop visits every binding of the table
    and deletes, from the table being iterated, those whose entry is
    expired. The result is [hasChanges] (whether the table is saved)
    and the new state. *)
Definition cleanupExpiredUrls (now : Z) (st : State) : bool * State :=
  let '(hasChanges, db) :=
    fold_left
      (fun acc ke =>
         if UrlEntry.isExpired now (snd ke)
         then (true, Map.delete (fst ke) (snd acc))
         else acc)
      (entries st) (false, urlDatabase st) in
  (hasChanges, {| heap := heap st; urlDatabase := db |}).

End Handlers.
End Server.

(** ** Runs of the server

    What reaches the table, one event at a time: the four routes and the
    firing of the clean-up timer, each with the clock reading of its run.
    [EvShorten] is a shorten request that runs to its end before the next
    event. [EvInstall] is the second part of a shorten request that was
    suspended while other events were handled: it began at [began], passed
    the checks against the table of that time, and now files its entry in
    the table as it has become. *)

Inductive Event : Type :=
| EvShorten (random : RandomBytes) (req : ShortenRequest)
| EvInstall (began : Z) (random : RandomBytes) (req : ShortenRequest)
| EvRedirect (req : RedirectRequest)
| EvStats (id : string)
| EvHealth
| EvCleanup.

Module Run.
Section Run.
Variable isWebUri : string -> bool.
Variable toDataURL : string -> option string.

(** The state after one event. *)
Definition handle (now : Z) (ev : Event) (st : State) : State :=
  match ev with
  | EvShorten random req =>
      match Server.begin isWebUri now random req st with
      | Answered _ => st
      | Suspended p => Server.install toDataURL p st
      end
  | EvInstall began random req =>
      match Server.construct began random req with
      | Normal p => Server.install toDataURL p st
      | Throw => st
      end
  | EvRedirect req => snd (Server.redirect now req st)
  | EvStats id => snd (Server.stats now id st)
  | EvHealth => snd (Server.health now st)
  | EvCleanup => snd (Server.cleanupExpiredUrls now st)
  end.

(** The state after a sequence of events, oldest first. *)
Definition run (trace : list (Z * Event)) (st : State) : State :=
  fold_left (fun s ne => handle (fst ne) (snd ne) s) trace st.

(** Whether the event is a redirect that succeeds on the object at
    address [a]. *)
Definition is_hit (a : nat) (now : Z) (ev : Event) (st : State) : bool :=
  match ev with
  | EvRedirect req =>
      match Server.lookup (JString (param_shortId req)) st with
      | Some (a', e) => Nat.eqb a' a && negb (UrlEntry.isExpired now e)
      | None => false
      end
  | _ => false
  end.

(** Number of successful redirects to the object at [a] along a run. *)
Fixpoint hits (a : nat) (trace : list (Z * Event)) (st : State) : Z :=
  match trace with
  | [] => 0
  | (now, ev) :: rest =>
      (if is_hit a now ev st then 1 else 0) + hits a rest (handle now ev st)
  end.

(** The events of a sequence of redirect requests, each with its time. *)
Definition visits (l : list (Z * RedirectRequest)) : list (Z * Event) :=
  List.map (fun v => (fst v, EvRedirect (snd v))) l.

(** The time of the last request of a sequence, [d] when it is empty. *)
Definition last_time (l : list (Z * RedirectRequest)) (d : option Z)
  : option Z :=
  fold_left (fun _ v => Some (fst v)) l d.

End Run.
End Run.

(** The state of a server started on an empty data file. *)
Definition empty_state : State := {| heap := []; urlDatabase := [] |}.

(** Well-formed states: the table is a [Map], every address it holds is
    allocated, each entry is filed under its own [shortId], and the two
    maps of each entry are [Map]s. *)
Definition addresses_allocated (st : State) : Prop :=
  forall k a, In (k, a) (urlDatabase st) -> (a < length (heap st))%nat.

Definition keys_consistent (st : State) : Prop :=
  forall k a e,
    In (k, a) (urlDatabase st) -> heap st !! a = Some e -> shortId e = k.

Definition entries_wf (st : State) : Prop :=
  forall a e,
    heap st !! a = Some e -> Map.wf (referrers e) /\ Map.wf (browserStats e).

Definition State_wf (st : State) : Prop :=
  Map.wf (urlDatabase st) /\ addresses_allocated st /\ keys_consistent st
  /\ entries_wf st.

(** Whether some binding of [l] files an expired entry under [k]. *)
Definition expired_under (now : Z) (st : State) (l : Table) (k : JsVal)
  : bool :=
  existsb (fun ka => JsVal.eqb (fst ka) k && negb (Server.keeps now st ka)) l.

(** ** Persistence: the data file

    The content of the file is represented by the value [JSON.parse] reads
    from it; [None] is a file that does not exist. *)

Module Storage.








End Storage.

(** ** Further notions: identifiers, object identity, totals *)

(** The characters [toString('hex')] produces. *)
Definition is_lower_hex (c : ascii) : bool :=
  JsString.in_range "0" "9" c || JsString.in_range "a" "f" c.

(** Distinct keys of the table are bound to distinct objects. *)
Definition addresses_distinct (st : State) : Prop :=
  List.NoDup (List.map snd (urlDatabase st)).

(** The sum of the counts held by a map. *)
Definition Map_total (m : JsMap Z) : Z :=
  fold_right (fun kv acc => snd kv + acc) 0 m.

(** The five labels [getBrowserFromUserAgent] can return. *)
Definition browser_labels : list string :=
  ["Firefox"; "Chrome"; "Safari"; "Edge"; "Other"].

(** No two keys hold live entries with the same [longUrl] at time [now]. *)
Definition unique_live (now : Z) (st : State) : Prop :=
  forall k1 a1 e1 k2 a2 e2,
    Server.lookup k1 st = Some (a1, e1) ->
    Server.lookup k2 st = Some (a2, e2) ->
    longUrl e1 = longUrl e2 ->
    UrlEntry.isExpired now e1 = false ->
    UrlEntry.isExpired now e2 = false ->
    k1 = k2.

(** The counters of an entry agree: both maps add up to [accessCount],
    every count is at least one, and the browser labels are among the
    five. *)
Definition counted (e : UrlEntry) : Prop :=
  Map_total (referrers e) = accessCount e
  /\ Map_total (browserStats e) = accessCount e
  /\ (forall k c, In (k, c) (referrers e) -> 1 <= c)
  /\ (forall k c, In (k, c) (browserStats e) -> 1 <= c)
  /\ (forall k c, In (k, c) (browserStats e) -> In k browser_labels).

(** The clock readings of a run never go back, starting from [t]. *)
Fixpoint chronological (t : Z) (trace : list (Z * Event)) : Prop :=
  match trace with
  | [] => True
  | (now, _) :: rest => t <= now /\ chronological now rest
  end.

(** The time of the last event of a run that starts at [t]. *)
Definition end_time (t : Z) (trace : list (Z * Event)) : Z :=
  fold_left (fun _ ne => fst ne) trace t.

(** The event is the second part of a shorten request that other events
    overlapped. *)
Definition overlapped (ev : Event) : bool :=
  match ev with
  | EvInstall _ _ _ => true
  | _ => false
  end.

(** No request of the run overlaps another: every shorten request runs to
    its end before the next event. *)
Definition sequential (trace : list (Z * Event)) : bool :=
  forallb (fun ne => negb (overlapped (snd ne))) trace.

(** The request with its [customSlug] field taken out. *)
Definition without_slug (req : ShortenRequest) : ShortenRequest :=
  {| body_longUrl := body_longUrl req; body_ttl := body_ttl req;
     body_customSlug := JUndefined;
     req_protocol := req_protocol req; req_host := req_host req |}.


(** ** Sample collaborators and states, used to run the handlers *)

Module Demo.

(** A stand-in for the URL validator: accepts the two web schemes. *)
Definition isWebUri (s : string) : bool :=
  JsString.startsWith s "http://" || JsString.startsWith s "https://".

(** A stand-in for the QR encoder. *)
Definition toDataURL (url : string) : option string :=
  Some ("data:image/png;base64," ++ url).

Definition random1 : RandomBytes := (Byte.x3f, Byte.xa9, Byte.x00, Byte.x7c).
Definition random2 : RandomBytes := (Byte.xde, Byte.xad, Byte.xbe, Byte.xef).

Definition request (url : string) (ttl slug : JsVal) : ShortenRequest :=
  {| body_longUrl := url; body_ttl := ttl; body_customSlug := slug;
     req_protocol := "http"; req_host := "localhost:3001" |}.

Definition visit (id : string) (ref ua : option string) : RedirectRequest :=
  {| param_shortId := id; header_Referrer := ref; header_UserAgent := ua |}.

(** An entry created at time 1000 that lives for 500 ms, and one that
    never expires; the first is filed under a custom slug. *)
Definition promo : UrlEntry :=
  {| longUrl := "https://example.com/sale"; shortId := JString "promo";
     createdAt := 1000; ttl := Some (Num 500); accessCount := 3;
     lastAccessed := Some 1200;
     referrers := [("Direct", 2); ("https://news.example/", 1)];
     browserStats := [("Firefox", 1); ("Other", 2)];
     qrCode := Some "data:image/png;base64,AAAA" |}.

Definition docs : UrlEntry :=
  {| longUrl := "https://example.com/docs"; shortId := JString "3fa9007c";
     createdAt := 1100; ttl := None; accessCount := 0;
     lastAccessed := None; referrers := []; browserStats := [];
     qrCode := None |}.

(** An entry whose second referrer is an array-index key. *)
Definition numbered : UrlEntry :=
  {| longUrl := "https://example.com/faq"; shortId := JString "faq";
     createdAt := 1000; ttl := None; accessCount := 3;
     lastAccessed := Some 1200;
     referrers := [("Direct", 2); ("7", 1)];
     browserStats := [("Other", 3)];
     qrCode := None |}.

Definition state : State :=
  {| heap := [promo; docs];
     urlDatabase := [(JString "promo", 0%nat); (JString "3fa9007c", 1%nat)] |}.

Definition sale_again : ShortenRequest :=
  request "https://example.com/sale" JUndefined JUndefined.

Definition sale_as_deal : ShortenRequest :=
  request "https://example.com/sale" JUndefined (JString "deal").


Definition blog_ttl (ttl : JsVal) : ShortenRequest :=
  request "https://example.com/blog" ttl JUndefined.

Definition get_promo : RedirectRequest := visit "promo" None None.

End Demo.

(** ** What a saved table looks like when it is read again *)






Definition is_string (v : JsVal) : bool :=
  match v with JString _ => true | _ => false end.



(** ** More sample requests and runs *)

Module Scenario.

(** A table whose only entry is filed under the string "123", and a
    request for another URL whose [customSlug] is the number 123. *)
Definition page : UrlEntry :=
  {| longUrl := "https://example.com/page"; shortId := JString "123";
     createdAt := 1000; ttl := None; accessCount := 0;
     lastAccessed := None; referrers := []; browserStats := [];
     qrCode := None |}.

Definition text_123 : State :=
  {| heap := [page]; urlDatabase := [(JString "123", 0%nat)] |}.

Definition as_number_123 : ShortenRequest :=
  Demo.request "https://example.com/new" JUndefined (JNumber (Num 123)).

(** A request for a new URL whose generated identifier, "3fa9007c", is
    already a key of the sample table. *)
Definition colliding : ShortenRequest := Demo.blog_ttl JUndefined.


(** A URL is shortened, then visited twice. *)
Definition two_visits : list (Z * Event) :=
  [ (1000, EvShorten Demo.random2 (Demo.blog_ttl JUndefined));
    (1100, EvRedirect (Demo.visit "deadbeef" None (Some "Mozilla/5.0 Firefox/121.0")));
    (1200, EvRedirect (Demo.visit "deadbeef" (Some "https://news.example/") None)) ].

(** Two requests for the same URL overlap: the second passed its checks
    while the first was suspended, and files its entry after it. *)
Definition overlapping : list (Z * Event) :=
  [ (1000, EvShorten Demo.random1 (Demo.blog_ttl JUndefined));
    (1002, EvInstall 1001 Demo.random2 (Demo.blog_ttl JUndefined)) ].

(** A URL is shortened for 100 ms, and shortened again long after. *)
Definition shortened_again : list (Z * Event) :=
  [ (1000, EvShorten Demo.random1 (Demo.blog_ttl (JNumber (Num 100))));
    (2000, EvShorten Demo.random2 (Demo.blog_ttl JUndefined)) ].

End Scenario.

(** * Properties *)

(** ** The definitions on concrete inputs *)

Example parseInt_1000 :
  JsVal.parseInt (JNumber (Num 1000)) = Normal (Num 1000).
Proof. reflexivity. Qed.

Example parseInt_neg :
  JsVal.parseInt (JString "  -42px") = Normal (Num (-42)).
Proof. reflexivity. Qed.

Example parseInt_hex : JsVal.parseInt (JString "0x1F") = Normal (Num 31).
Proof. reflexivity. Qed.

Example parseInt_word : JsVal.parseInt (JString "soon") = Normal NaN.
Proof. reflexivity. Qed.

Example parseInt_true : JsVal.parseInt (JBool true) = Normal NaN.
Proof. reflexivity. Qed.

Example parseInt_object :
  JsVal.parseInt (JObject [("ms", JNumber (Num 5))]) = Normal NaN.
Proof. reflexivity. Qed.

Example parseInt_throws :
  JsVal.parseInt (JObject [("toString", JNumber (Num 1))]) = Throw.
Proof. reflexivity. Qed.

Example parseInt_rounds :
  JsVal.parseInt (JString "9007199254740993") = Normal (Num 9007199254740992)
  /\ JsVal.parseInt (JString "9007199254740995") = Normal (Num 9007199254740996)
  /\ JsVal.parseInt (JString "-9007199254740992")
     = Normal (Num (-9007199254740992)).
Proof. repeat split. Qed.

Example array_index_7 : Obj.array_index "7" = Some 7%N.
Proof. reflexivity. Qed.

Example array_index_07 : Obj.array_index "07" = None.
Proof. reflexivity. Qed.

Example array_index_max : Obj.array_index "4294967295" = None.
Proof. reflexivity. Qed.

Example fromEntries_order :
  Obj.fromEntries [("Direct", 2); ("10", 1); ("7", 5); ("Direct", 3)]
  = [("7", 5); ("10", 1); ("Direct", 3)].
Proof. reflexivity. Qed.

Example toString_timestamp :
  JsVal.toString (JNumber (Num 1730600000000)) = Normal "1730600000000".
Proof. reflexivity. Qed.

Example generateShortId_ex :
  generateShortId (Byte.xde, Byte.xad, Byte.x00, Byte.x0f) = "dead000f".
Proof. reflexivity. Qed.

Example isValidCustomSlug_ok : isValidCustomSlug "my-Promo_24" = Normal true.
Proof. reflexivity. Qed.

Example isValidCustomSlug_space : isValidCustomSlug "my promo" = Normal false.
Proof. reflexivity. Qed.

Example isValidCustomSlug_empty : isValidCustomSlug "" = Normal false.
Proof. reflexivity. Qed.

(** The pattern is matched against the text of the slug, whatever its
    type. *)
Example isValidCustomSlug_values :
  isValidCustomSlug (JNumber (Num 123)) = Normal true
  /\ isValidCustomSlug (JNumber (Num (-5))) = Normal true
  /\ isValidCustomSlug (JBool true) = Normal true
  /\ isValidCustomSlug (JObject []) = Normal false
  /\ isValidCustomSlug (JObject [("toString", JNull)]) = Throw.
Proof. repeat split. Qed.

(** A number is not the string that spells it. *)
Example number_key_is_not_string_key :
  Map.has (JNumber (Num 123)) [(JString "123", 0%nat)] = false
  /\ Map.has (JString "123") [(JString "123", 0%nat)] = true
  /\ Map.set (JNumber (Num 123)) 1%nat [(JString "123", 0%nat)]
     = [(JString "123", 0%nat); (JNumber (Num 123), 1%nat)].
Proof. repeat split. Qed.

(** ** Strings *)

Lemma startsWith_spec (s pat : string) :
  JsString.startsWith s pat = true <-> exists post, s = pat ++ post.
Proof.
  revert s. induction pat as [|p pat IH]; intros s; simpl.
  - split; [intros _; now exists s | reflexivity].
  - destruct s as [|c s]; simpl.
    + split; [discriminate | intros [post H]; discriminate].
    + rewrite andb_true_iff, Ascii.eqb_eq, IH. split.
      * intros [-> [post ->]]. now exists post.
      * intros [post H]. injection H as -> ->. split; [reflexivity|now exists post].
Qed.

Lemma includes_spec (s pat : string) :
  JsString.includes s pat = true <-> JsString.substring_of pat s.
Proof.
  unfold JsString.substring_of.
  induction s as [|c s IH].
  - simpl. rewrite orb_false_r, startsWith_spec. split.
    + intros [post H]. now exists EmptyString, post.
    + intros [[|c pre] [post H]]; [now exists post | discriminate].
  - cbn [JsString.includes]. rewrite orb_true_iff, startsWith_spec, IH. split.
    + intros [[post H] | [pre [post H]]].
      * now exists EmptyString, post.
      * exists (String c pre), post. simpl. now rewrite H.
    + intros [[|c' pre] [post H]].
      * left. now exists post.
      * right. simpl in H. injection H as -> ->. now exists pre, post.
Qed.

Lemma includes_false (s pat : string) :
  JsString.includes s pat = false <-> ~ JsString.substring_of pat s.
Proof.
  rewrite <- includes_spec. destruct (JsString.includes s pat); split; congruence.
Qed.

(** ** Maps *)

Section MapFacts.
Context {K : Type} {same : KeyEq K} {V : Type}.
Implicit Types (m : list (K * V)) (k : K) (v : V).

Lemma same_value_refl k : same_value k k = true.
Proof. now destruct (same_value_spec k k). Qed.

Lemma Map_get_In m k v : Map.get k m = Some v -> In (k, v) m.
Proof.
  induction m as [|[k' v'] m IH]; simpl; [discriminate|].
  destruct (same_value_spec k k') as [->|Hne].
  - intros [= ->]. now left.
  - intros H. right. now apply IH.
Qed.

Lemma Map_get_None m k : Map.get k m = None <-> ~ In k (Map.keys m).
Proof.
  induction m as [|[k' v'] m IH]; simpl; [tauto|].
  destruct (same_value_spec k k') as [->|Hne].
  - split; [discriminate | intros H; exfalso; apply H; now left].
  - rewrite IH. split; [intros H [E|I]; [congruence|tauto] | tauto].
Qed.

Lemma Map_In_get m k v : Map.wf m -> In (k, v) m -> Map.get k m = Some v.
Proof.
  unfold Map.wf. induction m as [|[k' v'] m IH]; simpl; [tauto|].
  intros Hnd [E|I].
  - injection E as -> ->. now rewrite same_value_refl.
  - inversion Hnd as [|? ? Hnot Hnd']; subst.
    destruct (same_value_spec k k') as [->|Hne].
    + exfalso. apply Hnot. change (In k' (List.map fst m)).
      apply in_map_iff. now exists (k', v).
    + now apply IH.
Qed.

Lemma Map_has_true m k : Map.has k m = true <-> In k (Map.keys m).
Proof.
  unfold Map.has. destruct (Map.get k m) as [v|] eqn:E.
  - split; [intros _|reflexivity].
    apply Map_get_In in E. apply in_map_iff. now exists (k, v).
  - split; [discriminate|]. intros I. now apply Map_get_None in E.
Qed.

Lemma Map_has_false m k : Map.has k m = false <-> ~ In k (Map.keys m).
Proof.
  rewrite <- Map_has_true. destruct (Map.has k m); split; congruence.
Qed.

Lemma Map_get_set_eq m k v : Map.get k (Map.set k v m) = Some v.
Proof.
  induction m as [|[k' v'] m IH]; simpl.
  - now rewrite same_value_refl.
  - destruct (same_value_spec k k') as [->|Hne]; simpl.
    + now rewrite same_value_refl.
    + destruct (same_value_spec k k'); [congruence|exact IH].
Qed.

Lemma Map_get_set_ne m k k' v :
  k' <> k -> Map.get k' (Map.set k v m) = Map.get k' m.
Proof.
  intros Hne. induction m as [|[k0 v0] m IH]; simpl.
  - destruct (same_value_spec k' k); [congruence|reflexivity].
  - destruct (same_value_spec k k0) as [->|Hne0]; simpl.
    + destruct (same_value_spec k' k0); [congruence|reflexivity].
    + destruct (same_value_spec k' k0); [reflexivity|exact IH].
Qed.

Lemma Map_keys_set m k v :
  Map.keys (Map.set k v m)
  = if Map.has k m then Map.keys m else (Map.keys m ++ [k])%list.
Proof.
  unfold Map.has. induction m as [|[k' v'] m IH]; simpl; [reflexivity|].
  destruct (same_value_spec k k') as [->|Hne]; simpl; [reflexivity|].
  unfold Map.keys in *. rewrite IH. now destruct (Map.get k m).
Qed.

Lemma Map_wf_set m k v : Map.wf m -> Map.wf (Map.set k v m).
Proof.
  unfold Map.wf. intros Hnd. rewrite Map_keys_set.
  destruct (Map.has k m) eqn:E; [exact Hnd|].
  apply Map_has_false in E.
  apply List.NoDup_app; [exact Hnd | repeat constructor; simpl; tauto |].
  intros x Hx [<-|[]]. contradiction.
Qed.

Lemma Map_get_delete_eq m k : Map.get k (Map.delete k m) = None.
Proof.
  apply Map_get_None. unfold Map.keys, Map.delete. intros I.
  apply in_map_iff in I as [[k' v'] [E I]]. simpl in E. subst k'.
  apply filter_In in I as [_ I]. simpl in I.
  now rewrite same_value_refl in I.
Qed.

Lemma Map_get_delete_ne m k k' :
  k' <> k -> Map.get k' (Map.delete k m) = Map.get k' m.
Proof.
  intros Hne. unfold Map.delete.
  induction m as [|[k0 v0] m IH]; simpl; [reflexivity|].
  destruct (same_value_spec k k0) as [->|Hne0]; simpl.
  - destruct (same_value_spec k' k0); [congruence|exact IH].
  - now rewrite IH.
Qed.

Lemma Map_wf_delete m k : Map.wf m -> Map.wf (Map.delete k m).
Proof.
  unfold Map.wf, Map.keys, Map.delete.
  induction m as [|[k0 v0] m IH]; simpl; [trivial|].
  intros Hnd. inversion Hnd as [|? ? Hnot Hnd']; subst.
  destruct (same_value k k0); simpl; [now apply IH|].
  constructor; [|now apply IH].
  intros I. apply Hnot. apply in_map_iff in I as [x [E I]].
  apply filter_In in I as [I _]. apply in_map_iff. now exists x.
Qed.

Lemma Map_In_delete m k k' v :
  In (k', v) (Map.delete k m) <-> In (k', v) m /\ k' <> k.
Proof.
  unfold Map.delete. rewrite filter_In. simpl.
  destruct (same_value_spec k k') as [->|Hne]; simpl; split;
    intros [H1 H2]; try split; auto; congruence.
Qed.

End MapFacts.

Lemma JsVal_eqb_refl (k : JsVal) : JsVal.eqb k k = true.
Proof. now destruct (JsVal.eqb_spec k k). Qed.

Lemma JsVal_eqb_eq (a b : JsVal) : JsVal.eqb a b = true <-> a = b.
Proof. destruct (JsVal.eqb_spec a b); split; congruence. Qed.

(** ** Entries *)

Lemma isExpired_no_ttl now e : ttl e = None -> UrlEntry.isExpired now e = false.
Proof. unfold UrlEntry.isExpired. now intros ->. Qed.

Lemma isExpired_NaN now e : ttl e = Some NaN -> UrlEntry.isExpired now e = false.
Proof. unfold UrlEntry.isExpired. now intros ->. Qed.

Lemma isExpired_zero now e :
  ttl e = Some (Num 0) -> UrlEntry.isExpired now e = false.
Proof. unfold UrlEntry.isExpired. now intros ->. Qed.

Lemma isExpired_number now e t :
  ttl e = Some (Num t) -> t <> 0 ->
  UrlEntry.isExpired now e = (now >? createdAt e + t).
Proof.
  unfold UrlEntry.isExpired. intros -> Ht. simpl.
  destruct (Z.eqb_spec t 0); [contradiction|reflexivity].
Qed.

Lemma isExpired_true_inv now e :
  UrlEntry.isExpired now e = true ->
  exists t, ttl e = Some (Num t) /\ t <> 0 /\ now > createdAt e + t.
Proof.
  unfold UrlEntry.isExpired. destruct (ttl e) as [[|t]|]; simpl; try discriminate.
  destruct (Z.eqb_spec t 0); simpl; [discriminate|].
  intros H. exists t. repeat split; [assumption|]. now apply Z.gtb_gt.
Qed.

Lemma isExpired_later now now' e :
  now <= now' -> UrlEntry.isExpired now e = true ->
  UrlEntry.isExpired now' e = true.
Proof.
  intros Hle H. apply isExpired_true_inv in H as [t [Ht [Hne Hgt]]].
  rewrite (isExpired_number _ _ _ Ht Hne). apply Z.gtb_gt. lia.
Qed.

Lemma isExpired_earlier now now' e :
  now <= now' -> UrlEntry.isExpired now' e = false ->
  UrlEntry.isExpired now e = false.
Proof.
  intros Hle H. destruct (UrlEntry.isExpired now e) eqn:E; [|reflexivity].
  apply (isExpired_later _ _ _ Hle) in E. congruence.
Qed.

(** The expiry predicate reads [createdAt] and [ttl] only. *)
Lemma isExpired_ext now e e' :
  createdAt e' = createdAt e -> ttl e' = ttl e ->
  UrlEntry.isExpired now e' = UrlEntry.isExpired now e.
Proof. unfold UrlEntry.isExpired. now intros -> ->. Qed.

Lemma isExpired_updateStats now t r ua e :
  UrlEntry.isExpired now (UrlEntry.updateStats t r ua e)
  = UrlEntry.isExpired now e.
Proof. reflexivity. Qed.

(** ** Handlers: what each does to the object store *)

Section ServerFacts.
Variable isWebUri : string -> bool.
Variable toDataURL : string -> option string.

Local Abbreviation shorten := (Server.shorten isWebUri toDataURL).
Local Abbreviation handle := (Run.handle isWebUri toDataURL).
Local Abbreviation run := (Run.run isWebUri toDataURL).
Local Abbreviation hits := (Run.hits isWebUri toDataURL).

Lemma lookup_Some k st a e :
  Server.lookup k st = Some (a, e) <->
  Map.get k (urlDatabase st) = Some a /\ heap st !! a = Some e.
Proof.
  unfold Server.lookup.
  destruct (Map.get k (urlDatabase st)) as [a'|]; [|split; [discriminate|intros [? _]; discriminate]].
  destruct (heap st !! a') as [e'|] eqn:E.
  - split; [intros [= -> ->]; auto | intros [[= ->] H]; congruence].
  - split; [discriminate | intros [[= ->] H]; congruence].
Qed.

Lemma lookup_None_of_get k st :
  Map.get k (urlDatabase st) = None -> Server.lookup k st = None.
Proof. unfold Server.lookup. now intros ->. Qed.

Lemma cleanup_fold_snd now (l : list (JsVal * UrlEntry)) acc :
  snd (fold_left
         (fun (acc : bool * Table) ke =>
            if UrlEntry.isExpired now (snd ke)
            then (true, Map.delete (fst ke) (snd acc)) else acc)
         l acc)
  = fold_left
      (fun (db : Table) ke =>
         if UrlEntry.isExpired now (snd ke) then Map.delete (fst ke) db else db)
      l (snd acc).
Proof.
  revert acc. induction l as [|ke l IH]; intros acc; simpl; [reflexivity|].
  rewrite IH. now destruct (UrlEntry.isExpired now (snd ke)).
Qed.

Lemma cleanup_heap now st :
  heap (snd (Server.cleanupExpiredUrls now st)) = heap st.
Proof.
  unfold Server.cleanupExpiredUrls.
  now destruct (fold_left _ _ _) as [hasChanges db].
Qed.

Lemma cleanup_urlDatabase now st :
  urlDatabase (snd (Server.cleanupExpiredUrls now st))
  = fold_left
      (fun (db : Table) ke =>
         if UrlEntry.isExpired now (snd ke) then Map.delete (fst ke) db else db)
      (Server.entries st) (urlDatabase st).
Proof.
  unfold Server.cleanupExpiredUrls.
  pose proof (cleanup_fold_snd now (Server.entries st) (false, urlDatabase st)) as H.
  cbn [snd] in H. rewrite <- H.
  now destruct (fold_left _ _ _) as [hasChanges db].
Qed.

(** The two events that can file an entry leave the state alone or
    install the entry they constructed. *)
Lemma handle_shorten now random req st :
  handle now (EvShorten random req) st = st
  \/ exists p,
       Server.construct now random req = Normal p
       /\ Server.begin isWebUri now random req st = Suspended p
       /\ handle now (EvShorten random req) st = Server.install toDataURL p st.
Proof.
  cbn [Run.handle]. unfold Server.begin.
  destruct (negb _); [now left|].
  destruct (Server.check_customSlug _ _) as [[r|]|]; [now left| |now left].
  destruct (Server.find_existing _ _ _) as [[k0 e0]|]; [now left|].
  destruct (Server.construct now random req) as [p|]; [|now left].
  right. now exists p.
Qed.

Lemma handle_install now began random req st :
  handle now (EvInstall began random req) st = st
  \/ exists p,
       Server.construct began random req = Normal p
       /\ handle now (EvInstall began random req) st
          = Server.install toDataURL p st.
Proof.
  cbn [Run.handle].
  destruct (Server.construct began random req) as [p|]; [|now left].
  right. now exists p.
Qed.

(** What the state is after a shorten request does not depend on the
    clock reading of its answer. *)
Lemma snd_shorten now later random req st :
  snd (shorten now later random req st) = handle now (EvShorten random req) st.
Proof.
  unfold Server.shorten. cbn [Run.handle].
  now destruct (Server.begin isWebUri now random req st).
Qed.

(** Every handler leaves an allocated object in place; the only change it
    can make to it is one [updateStats], made exactly by a successful
    redirect to that object. *)
Lemma handle_object now ev st a e :
  heap st !! a = Some e ->
  (Run.is_hit a now ev st = false /\ heap (handle now ev st) !! a = Some e)
  \/ (Run.is_hit a now ev st = true /\
      exists r ua,
        heap (handle now ev st) !! a = Some (UrlEntry.updateStats now r ua e)).
Proof.
  intros Ha. destruct ev as [random req|began random req|req|id| |].
  - left. split; [reflexivity|].
    destruct (handle_shorten now random req st) as [->|(p & _ & _ & ->)];
      [assumption|now apply lookup_app_l_Some].
  - left. split; [reflexivity|].
    destruct (handle_install now began random req st) as [->|(p & _ & ->)];
      [assumption|now apply lookup_app_l_Some].
  - simpl. unfold Server.redirect.
    destruct (Server.lookup (param_shortId req) st) as [[a' e']|] eqn:L; simpl.
    + apply lookup_Some in L as [_ La'].
      destruct (UrlEntry.isExpired now e') eqn:X; simpl.
      * left. rewrite andb_false_r. auto.
      * rewrite andb_true_r. destruct (Nat.eqb_spec a' a) as [->|Hne].
        -- right. split; [reflexivity|].
           assert (e' = e) as -> by congruence.
           eexists _, _. apply list_lookup_insert_eq.
           now apply lookup_lt_Some in Ha.
        -- left. split; [reflexivity|]. now rewrite list_lookup_insert_ne.
    + left. auto.
  - left. split; [reflexivity|]. simpl. unfold Server.stats.
    now destruct (Server.lookup id st) as [[? ?]|].
  - left. auto.
  - left. split; [reflexivity|]. simpl. now rewrite cleanup_heap.
Qed.

Lemma run_app t1 t2 st : run (t1 ++ t2)%list st = run t2 (run t1 st).
Proof. unfold Run.run. apply fold_left_app. Qed.

Lemma run_cons now ev t st : run ((now, ev) :: t) st = run t (handle now ev st).
Proof. reflexivity. Qed.

(** Along any run, an object keeps the fields fixed at its creation, and
    its [accessCount] grows by the number of successful redirects to it. *)
Lemma run_object t : forall st a e,
  heap st !! a = Some e ->
  exists e',
    heap (run t st) !! a = Some e'
    /\ longUrl e' = longUrl e /\ shortId e' = shortId e
    /\ createdAt e' = createdAt e /\ ttl e' = ttl e /\ qrCode e' = qrCode e
    /\ accessCount e' = accessCount e + hits a t st.
Proof.
  induction t as [|[now ev] t IH]; intros st a e Ha.
  - exists e. simpl. repeat split; try assumption. lia.
  - rewrite run_cons. cbn [Run.hits].
    destruct (handle_object now ev st a e Ha) as [[-> H]|[-> [r [ua H]]]].
    + destruct (IH _ _ _ H) as [e' (H1 & H2 & H3 & H4 & H5 & H6 & H7)].
      exists e'. repeat split; assumption.
    + destruct (IH _ _ _ H) as [e' (H1 & H2 & H3 & H4 & H5 & H6 & H7)].
      exists e'. repeat split; try assumption. rewrite H7. simpl. lia.
Qed.

Lemma hits_nonneg t : forall a st, 0 <= hits a t st.
Proof.
  induction t as [|[now ev] t IH]; intros a st; simpl; [lia|].
  specialize (IH a (handle now ev st)).
  destruct (Run.is_hit a now ev st); lia.
Qed.

End ServerFacts.

(** ** The table as a list of entries *)

Lemma entries_In k e st :
  In (k, e) (Server.entries st) <->
  exists a, In (k, a) (urlDatabase st) /\ heap st !! a = Some e.
Proof.
  unfold Server.entries. rewrite in_flat_map. split.
  - intros [[k' a] [I H]]. simpl in H.
    destruct (heap st !! a) as [e'|] eqn:E; [|contradiction].
    destruct H as [[= <- <-]|[]]. now exists a.
  - intros [a [I H]]. exists (k, a). split; [assumption|].
    simpl. rewrite H. now left.
Qed.

Lemma lookup_entries k a e st :
  Server.lookup k st = Some (a, e) -> In (k, e) (Server.entries st).
Proof.
  intros L. apply lookup_Some in L as [Lk La].
  apply entries_In. exists a. split; [now apply Map_get_In|assumption].
Qed.

Lemma entries_lookup k e st :
  Map.wf (urlDatabase st) -> In (k, e) (Server.entries st) ->
  exists a, Server.lookup k st = Some (a, e).
Proof.
  intros Hwf I. apply entries_In in I as [a [I H]]. exists a.
  apply lookup_Some. split; [now apply Map_In_get|assumption].
Qed.

Lemma entries_key k e st :
  In (k, e) (Server.entries st) -> Map.has k (urlDatabase st) = true.
Proof.
  intros I. apply entries_In in I as [a [I _]].
  apply Map_has_true. apply in_map_iff. now exists (k, a).
Qed.

(** ** The duplicate check of [shorten] *)

Lemma find_existing_Some now url l k e :
  Server.find_existing now url l = Some (k, e) ->
  In (k, e) l /\ longUrl e = url /\ UrlEntry.isExpired now e = false.
Proof.
  unfold Server.find_existing. intros H. apply find_some in H as [I H].
  simpl in H. apply andb_true_iff in H as [H1 H2].
  apply String.eqb_eq in H1. apply negb_true_iff in H2. auto.
Qed.

Lemma find_existing_None now url l :
  Server.find_existing now url l = None ->
  forall k e, In (k, e) l -> longUrl e = url -> UrlEntry.isExpired now e = true.
Proof.
  unfold Server.find_existing. intros H k e I Hu.
  pose proof (find_none _ _ H _ I) as Hf. simpl in Hf.
  rewrite Hu, String.eqb_refl in Hf. simpl in Hf.
  now apply negb_false_iff in Hf.
Qed.

Lemma find_existing_exists now url l k e :
  In (k, e) l -> longUrl e = url -> UrlEntry.isExpired now e = false ->
  exists k0 e0, Server.find_existing now url l = Some (k0, e0).
Proof.
  intros I Hu Hl.
  destruct (Server.find_existing now url l) as [[k0 e0]|] eqn:F; [eauto|].
  pose proof (find_existing_None _ _ _ F _ _ I Hu). congruence.
Qed.

(** The first live match stays the first live match for as long as it
    lives: the entries before it were expired already. *)
Lemma find_existing_later now now' url l k e :
  now <= now' ->
  Server.find_existing now url l = Some (k, e) ->
  UrlEntry.isExpired now' e = false ->
  Server.find_existing now' url l = Some (k, e).
Proof.
  intros Hle. unfold Server.find_existing.
  induction l as [|[k1 e1] l IH]; simpl; [discriminate|].
  destruct (String.eqb (longUrl e1) url); simpl.
  - destruct (UrlEntry.isExpired now e1) eqn:X; simpl.
    + rewrite (isExpired_later now now' e1 Hle X). simpl. exact IH.
    + intros [= -> ->] ->. reflexivity.
  - exact IH.
Qed.

Lemma or_idem a b : JsVal.or a (JsVal.or a b) = JsVal.or a b.
Proof. unfold JsVal.or. now destruct (JsVal.truthy a). Qed.

Section ShortenFacts.
Variable isWebUri : string -> bool.
Variable toDataURL : string -> option string.

Local Abbreviation shorten := (Server.shorten isWebUri toDataURL).

(** What [construct] returns when nothing throws. *)
Lemma construct_Normal now random req p :
  Server.construct now random req = Normal p ->
  let id := JsVal.or (body_customSlug req) (JString (generateShortId random)) in
  exists parsed text,
    Server.parsed_ttl req = Normal parsed
    /\ JsVal.toString id = Normal text
    /\ p = {| pending_shortId := id;
              pending_longUrl := body_longUrl req;
              pending_urlEntry :=
                UrlEntry.new (body_longUrl req) id now parsed
                  (body_customSlug req);
              pending_fullUrl :=
                req_protocol req ++ "://" ++ req_host req ++ "/" ++ text |}.
Proof.
  unfold Server.construct.
  destruct (Server.parsed_ttl req) as [parsed|]; [|discriminate].
  destruct (JsVal.toString _) as [text|]; [|discriminate].
  intros [= <-]. now exists parsed, text.
Qed.

(** The fields of the entry a request files. *)
Lemma created_fields now random req p :
  Server.construct now random req = Normal p ->
  let e := Server.created toDataURL p in
  shortId e = pending_shortId p
  /\ pending_shortId p
     = JsVal.or (body_customSlug req) (JString (generateShortId random))
  /\ longUrl e = body_longUrl req /\ pending_longUrl p = body_longUrl req
  /\ createdAt e = now
  /\ Server.parsed_ttl req = Normal (ttl e)
  /\ accessCount e = 0 /\ lastAccessed e = None
  /\ referrers e = [] /\ browserStats e = []
  /\ exists text,
       JsVal.toString (pending_shortId p) = Normal text
       /\ qrCode e
          = toDataURL (req_protocol req ++ "://" ++ req_host req ++ "/" ++ text).
Proof.
  intros C. destruct (construct_Normal _ _ _ _ C) as (parsed & text & P & T & ->).
  cbn. rewrite or_idem. repeat split; try assumption. now exists text.
Qed.

(** A request that passed the slug checks has an identifier that converts
    to a string: the slug itself converted when it was matched against the
    pattern, and the generated identifier is a string. *)
Lemma accepted_toString random req st :
  Server.accepted isWebUri req st ->
  exists text,
    JsVal.toString
      (JsVal.or (body_customSlug req) (JString (generateShortId random)))
    = Normal text.
Proof.
  intros [_ Hc]. unfold Server.check_customSlug, JsVal.or in *.
  destruct (JsVal.truthy (body_customSlug req)); [|now eexists].
  unfold isValidCustomSlug in Hc.
  destruct (JsVal.toString (body_customSlug req)) as [text|];
    [now exists text|discriminate].
Qed.

Lemma construct_accepted now random req st parsed :
  Server.accepted isWebUri req st ->
  Server.parsed_ttl req = Normal parsed ->
  exists p, Server.construct now random req = Normal p
            /\ ttl (Server.created toDataURL p) = parsed.
Proof.
  intros Hacc Hp. destruct (accepted_toString random req st Hacc) as [text T].
  unfold Server.construct. rewrite Hp, T. eexists. split; reflexivity.
Qed.

Lemma begin_hit now random req st k e :
  Server.accepted isWebUri req st ->
  Server.find_existing now (body_longUrl req) (Server.entries st) = Some (k, e) ->
  Server.begin isWebUri now random req st
  = Answered (Json 200 (EntryBody k (body_longUrl req)
                          (UrlEntry.getStats now e))).
Proof.
  intros [Hurl Hslug] F. unfold Server.begin.
  now rewrite Hurl, Hslug, F.
Qed.

Lemma begin_miss now random req st :
  Server.accepted isWebUri req st ->
  Server.find_existing now (body_longUrl req) (Server.entries st) = None ->
  Server.begin isWebUri now random req st
  = match Server.construct now random req with
    | Normal p => Suspended p
    | Throw => Answered (Json 500 internal_error)
    end.
Proof.
  intros [Hurl Hslug] F. unfold Server.begin.
  now rewrite Hurl, Hslug, F.
Qed.

Lemma shorten_hit now later random req st k e :
  Server.accepted isWebUri req st ->
  Server.find_existing now (body_longUrl req) (Server.entries st) = Some (k, e) ->
  shorten now later random req st
  = (Json 200 (EntryBody k (body_longUrl req) (UrlEntry.getStats now e)), st).
Proof.
  intros Hacc F. unfold Server.shorten.
  now rewrite (begin_hit now random req st k e Hacc F).
Qed.

Lemma shorten_miss now later random req st p :
  Server.accepted isWebUri req st ->
  Server.find_existing now (body_longUrl req) (Server.entries st) = None ->
  Server.construct now random req = Normal p ->
  shorten now later random req st
  = (Json 200 (EntryBody (pending_shortId p) (body_longUrl req)
                 (UrlEntry.getStats later (Server.created toDataURL p))),
     Server.install toDataURL p st).
Proof.
  intros Hacc F C. unfold Server.shorten.
  rewrite (begin_miss now random req st Hacc F), C.
  unfold Server.respond.
  destruct (created_fields now random req p C) as (_ & _ & _ & -> & _).
  reflexivity.
Qed.

(** A request whose [ttl] or identifier cannot be converted is answered
    500, and nothing is filed. *)
Lemma shorten_throws now later random req st :
  Server.accepted isWebUri req st ->
  Server.find_existing now (body_longUrl req) (Server.entries st) = None ->
  Server.construct now random req = Throw ->
  shorten now later random req st = (Json 500 internal_error, st).
Proof.
  intros Hacc F C. unfold Server.shorten.
  now rewrite (begin_miss now random req st Hacc F), C.
Qed.

(** Whatever the request, [shorten] either leaves the state alone or
    allocates one entry and binds one key to it. *)
Lemma shorten_state now later random req st :
  snd (shorten now later random req st) = st
  \/ exists p,
       Server.construct now random req = Normal p
       /\ snd (shorten now later random req st)
          = {| heap := (heap st ++ [Server.created toDataURL p])%list;
               urlDatabase :=
                 Map.set (pending_shortId p) (length (heap st))
                   (urlDatabase st) |}.
Proof.
  rewrite (snd_shorten isWebUri toDataURL).
  destruct (handle_shorten isWebUri toDataURL now random req st)
    as [->|(p & C & _ & ->)]; [now left|].
  right. now exists p.
Qed.

End ShortenFacts.

(** ** Objects and maps rebuilt from lists of entries *)

Section ObjFacts.
Context {V : Type}.
Implicit Types (o m : list (string * V)) (k : string) (v : V).

Lemma Map_get_app m m' k :
  Map.get k (m ++ m')%list
  = match Map.get k m with Some v => Some v | None => Map.get k m' end.
Proof.
  induction m as [|[k0 v0] m IH]; simpl; [reflexivity|].
  now destruct (String.eqb k k0).
Qed.

Lemma Map_keys_app m m' :
  Map.keys (m ++ m')%list = (Map.keys m ++ Map.keys m')%list.
Proof. unfold Map.keys. apply List.map_app. Qed.

Lemma Map_set_fresh m k v :
  Map.has k m = false -> Map.set k v m = (m ++ [(k, v)])%list.
Proof.
  unfold Map.has. induction m as [|[k0 v0] m IH]; simpl; [reflexivity|].
  destruct (String.eqb k k0); [discriminate|]. intros H. now rewrite IH.
Qed.

Lemma insert_index_get i o k k' v :
  Map.get k o = None ->
  Map.get k' (Obj.insert_index i k v o)
  = if String.eqb k' k then Some v else Map.get k' o.
Proof.
  induction o as [|[k0 v0] o IH]; simpl; [reflexivity|].
  destruct (String.eqb_spec k k0) as [->|Hne]; [discriminate|]. intros Hnone.
  destruct (Obj.array_index k0) as [j|]; [destruct (j <? i)%N|]; simpl;
    try reflexivity.
  rewrite (IH Hnone).
  destruct (String.eqb_spec k' k0) as [->|Hne']; [|reflexivity].
  destruct (String.eqb_spec k0 k); [congruence|reflexivity].
Qed.

Lemma insert_index_keys i o k v x :
  In x (Map.keys (Obj.insert_index i k v o)) <-> x = k \/ In x (Map.keys o).
Proof.
  induction o as [|[k0 v0] o IH]; simpl; [intuition|].
  destruct (Obj.array_index k0) as [j|]; [destruct (j <? i)%N|]; simpl;
    [|intuition..].
  unfold Map.keys in IH. rewrite IH. intuition.
Qed.

Lemma insert_index_wf i o k v :
  Map.wf o -> ~ In k (Map.keys o) -> Map.wf (Obj.insert_index i k v o).
Proof.
  unfold Map.wf. induction o as [|[k0 v0] o IH]; simpl; intros Hnd Hk.
  - repeat constructor. simpl. tauto.
  - assert (G : List.NoDup (k :: k0 :: Map.keys o)) by now constructor.
    destruct (Obj.array_index k0) as [j|]; [destruct (j <? i)%N|]; simpl;
      try exact G.
    inversion Hnd as [|? ? Hnot Hnd']; subst. constructor.
    + intros I. apply (insert_index_keys i o k v k0) in I as [->|I]; tauto.
    + apply IH; tauto.
Qed.

Lemma Obj_get_set o k k' v :
  Obj.get k' (Obj.set k v o)
  = if String.eqb k' k then Some v else Obj.get k' o.
Proof.
  unfold Obj.get, Obj.set. destruct (Map.has k o) eqn:Hhas.
  - destruct (String.eqb_spec k' k) as [->|Hne];
      [apply Map_get_set_eq | now apply Map_get_set_ne].
  - assert (Hnone : Map.get k o = None).
    { unfold Map.has in Hhas. now destruct (Map.get k o). }
    destruct (Obj.array_index k) as [i|]; [now apply insert_index_get|].
    rewrite Map_get_app. simpl.
    destruct (String.eqb_spec k' k) as [->|Hne]; [now rewrite Hnone|].
    now destruct (Map.get k' o).
Qed.

Lemma Obj_wf_set o k v : Map.wf o -> Map.wf (Obj.set k v o).
Proof.
  intros Hwf. unfold Obj.set. destruct (Map.has k o) eqn:Hhas.
  - now apply Map_wf_set.
  - apply Map_has_false in Hhas.
    destruct (Obj.array_index k) as [i|]; [now apply insert_index_wf|].
    rewrite <- (Map_set_fresh o k v) by now apply Map_has_false.
    now apply Map_wf_set.
Qed.

Lemma fromEntries_snoc m k v :
  Obj.fromEntries (m ++ [(k, v)])%list = Obj.set k v (Obj.fromEntries m).
Proof. unfold Obj.fromEntries. now rewrite fold_left_app. Qed.

Lemma of_entries_snoc m k v :
  Map.of_entries (m ++ [(k, v)])%list = Map.set k v (Map.of_entries m).
Proof. unfold Map.of_entries. now rewrite fold_left_app. Qed.

Lemma wf_snoc m k v :
  Map.wf (m ++ [(k, v)])%list -> Map.wf m /\ Map.get k m = None.
Proof.
  unfold Map.wf. rewrite Map_keys_app. simpl. intros H. split.
  - now apply NoDup_app_remove_r in H.
  - apply Map_get_None. intros I.
    apply NoDup_remove_2 in H. apply H. rewrite app_nil_r. exact I.
Qed.

Lemma get_snoc m k k' v :
  Map.get k m = None ->
  Map.get k' (m ++ [(k, v)])%list
  = if String.eqb k' k then Some v else Map.get k' m.
Proof.
  intros Hnone. rewrite Map_get_app. simpl.
  destruct (String.eqb_spec k' k) as [->|Hne]; [now rewrite Hnone|].
  now destruct (Map.get k' m).
Qed.

Lemma fromEntries_wf m : Map.wf (Obj.fromEntries m).
Proof.
  induction m as [|[k v] m IH] using rev_ind; [constructor|].
  rewrite fromEntries_snoc. now apply Obj_wf_set.
Qed.

Lemma of_entries_wf m : Map.wf (Map.of_entries m).
Proof.
  induction m as [|[k v] m IH] using rev_ind; [constructor|].
  rewrite of_entries_snoc. now apply Map_wf_set.
Qed.

Lemma fromEntries_get m k :
  Map.wf m -> Obj.get k (Obj.fromEntries m) = Map.get k m.
Proof.
  induction m as [|[k1 v1] m IH] using rev_ind; [reflexivity|].
  intros Hwf. apply wf_snoc in Hwf as [Hwf Hnone].
  rewrite fromEntries_snoc, Obj_get_set, (get_snoc _ _ _ _ Hnone).
  now rewrite IH.
Qed.

Lemma of_entries_get m k :
  Map.wf m -> Map.get k (Map.of_entries m) = Map.get k m.
Proof.
  induction m as [|[k1 v1] m IH] using rev_ind; [reflexivity|].
  intros Hwf. apply wf_snoc in Hwf as [Hwf Hnone].
  rewrite of_entries_snoc, (get_snoc _ _ _ _ Hnone).
  destruct (String.eqb_spec k k1) as [->|Hne];
    [apply Map_get_set_eq | rewrite Map_get_set_ne by assumption; now apply IH].
Qed.

Lemma of_entries_id m : Map.wf m -> Map.of_entries m = m.
Proof.
  induction m as [|[k1 v1] m IH] using rev_ind; [reflexivity|].
  intros Hwf. apply wf_snoc in Hwf as [Hwf Hnone].
  rewrite of_entries_snoc, IH by assumption.
  apply Map_set_fresh. unfold Map.has. now rewrite Hnone.
Qed.

(** Without array-index keys the object lists its properties in the
    order the map listed them. *)
Lemma fromEntries_id m :
  Map.wf m -> (forall k, In k (Map.keys m) -> Obj.array_index k = None) ->
  Obj.fromEntries m = m.
Proof.
  induction m as [|[k1 v1] m IH] using rev_ind; [reflexivity|].
  intros Hwf Hidx. apply wf_snoc in Hwf as [Hwf Hnone].
  rewrite fromEntries_snoc, IH; [|assumption|].
  - unfold Obj.set, Map.has. rewrite Hnone, (Hidx k1); [reflexivity|].
    rewrite Map_keys_app. apply in_or_app. right. now left.
  - intros k I. apply Hidx. rewrite Map_keys_app. apply in_or_app. now left.
Qed.

End ObjFacts.

Lemma as_counts_json (o : list (string * Z)) :
  UrlEntry.as_counts
    (List.map (fun kv => (fst kv, JNumber (Num (snd kv)))) o) = Some o.
Proof.
  induction o as [|[k v] o IH]; simpl; [reflexivity|]. now rewrite IH.
Qed.

Lemma as_map_json_counts (m : JsMap Z) :
  UrlEntry.as_map (UrlEntry.json_counts m)
  = Some (Map.of_entries (Obj.fromEntries m)).
Proof.
  unfold UrlEntry.as_map, UrlEntry.json_counts, Obj.entries.
  now rewrite as_counts_json.
Qed.

Lemma as_nullable_number t :
  UrlEntry.as_nullable UrlEntry.as_number (UrlEntry.json_number t) = Some t.
Proof. now destruct t. Qed.

Lemma as_nullable_time t :
  UrlEntry.as_nullable UrlEntry.as_integer (UrlEntry.json_time t) = Some t.
Proof. now destruct t. Qed.

Lemma as_nullable_string s :
  UrlEntry.as_nullable UrlEntry.as_string (UrlEntry.json_string s) = Some s.
Proof. now destruct s. Qed.

(** What [fromJSON] rebuilds from the object [toJSON] wrote. *)
Lemma fromJSON_toJSON e :
  UrlEntry.fromJSON (UrlEntry.toJSON e)
  = Some {| longUrl := longUrl e;
            shortId := shortId e;
            createdAt := createdAt e;
            ttl := ttl e;
            accessCount := accessCount e;
            lastAccessed := lastAccessed e;
            referrers := Map.of_entries (Obj.fromEntries (referrers e));
            browserStats := Map.of_entries (Obj.fromEntries (browserStats e));
            qrCode := qrCode e |}.
Proof.
  unfold UrlEntry.fromJSON.
  change (UrlEntry.prop "longUrl" (UrlEntry.toJSON e)) with (JString (longUrl e)).
  change (UrlEntry.prop "shortId" (UrlEntry.toJSON e)) with (shortId e).
  change (UrlEntry.prop "createdAt" (UrlEntry.toJSON e))
    with (JNumber (Num (createdAt e))).
  change (UrlEntry.prop "ttl" (UrlEntry.toJSON e))
    with (UrlEntry.json_number (ttl e)).
  change (UrlEntry.prop "customSlug" (UrlEntry.toJSON e)) with JUndefined.
  change (UrlEntry.prop "accessCount" (UrlEntry.toJSON e))
    with (JNumber (Num (accessCount e))).
  change (UrlEntry.prop "lastAccessed" (UrlEntry.toJSON e))
    with (UrlEntry.json_time (lastAccessed e)).
  change (UrlEntry.prop "referrers" (UrlEntry.toJSON e))
    with (UrlEntry.json_counts (referrers e)).
  change (UrlEntry.prop "browserStats" (UrlEntry.toJSON e))
    with (UrlEntry.json_counts (browserStats e)).
  change (UrlEntry.prop "qrCode" (UrlEntry.toJSON e))
    with (UrlEntry.json_string (qrCode e)).
  rewrite as_nullable_number, as_nullable_time, as_nullable_string.
  rewrite !as_map_json_counts. reflexivity.
Qed.

(** ** The clean-up loop as a filter *)

Lemma filter_filter_and {A} (P Q : A -> bool) (l : list A) :
  List.filter P (List.filter Q l) = List.filter (fun x => Q x && P x) l.
Proof.
  induction l as [|x l IH]; simpl; [reflexivity|].
  destruct (Q x); simpl; [destruct (P x)|]; now rewrite IH.
Qed.

Lemma filter_all {A} (P : A -> bool) (l : list A) :
  (forall x, In x l -> P x = true) -> List.filter P l = l.
Proof.
  induction l as [|x l IH]; simpl; intros H; [reflexivity|].
  rewrite (H x) by now left. rewrite IH; [reflexivity|]. intros y I. apply H. now right.
Qed.

Lemma Map_get_filter {K} {same : KeyEq K} {V} (P : K * V -> bool) (m : list (K * V)) k :
  Map.wf m ->
  Map.get k (List.filter P m)
  = match Map.get k m with
    | Some v => if P (k, v) then Some v else None
    | None => None
    end.
Proof.
  unfold Map.wf. induction m as [|[k0 v0] m IH]; simpl; [reflexivity|].
  intros Hnd. inversion Hnd as [|? ? Hnot Hnd']; subst.
  destruct (same_value_spec k k0) as [->|Hne].
  - destruct (P (k0, v0)); simpl; [now rewrite same_value_refl|].
    apply Map_get_None. intros I. apply Hnot.
    unfold Map.keys in I. apply in_map_iff in I as [x [E I]].
    apply filter_In in I as [I _]. apply in_map_iff. now exists x.
  - destruct (P (k0, v0)); simpl; [|now apply IH].
    destruct (same_value_spec k k0); [contradiction|now apply IH].
Qed.

Lemma Map_wf_filter {K} {same : KeyEq K} {V} (P : K * V -> bool) (m : list (K * V)) :
  Map.wf m -> Map.wf (List.filter P m).
Proof.
  unfold Map.wf, Map.keys. induction m as [|[k0 v0] m IH]; simpl; [trivial|].
  intros Hnd. inversion Hnd as [|? ? Hnot Hnd']; subst.
  destruct (P (k0, v0)); simpl; [|now apply IH].
  constructor; [|now apply IH].
  intros I. apply Hnot. apply in_map_iff in I as [x [E I]].
  apply filter_In in I as [I _]. apply in_map_iff. now exists x.
Qed.

Lemma cleanup_fold now st (l : Table) : forall acc : Table,
  fold_left
    (fun (db : Table) ke =>
       if UrlEntry.isExpired now (snd ke) then Map.delete (fst ke) db else db)
    (List.flat_map
       (fun ka => match heap st !! (snd ka) with
                  | Some e => [(fst ka, e)]
                  | None => []
                  end) l)
    acc
  = List.filter (fun kv => negb (expired_under now st l (fst kv))) acc.
Proof.
  induction l as [|[k a] l IH]; intros acc; simpl.
  - symmetry. now apply filter_all.
  - rewrite fold_left_app, IH. unfold Server.keeps at 1. simpl.
    destruct (heap st !! a) as [e|]; simpl.
    + destruct (UrlEntry.isExpired now e); simpl.
      * unfold Map.delete. rewrite filter_filter_and.
        apply filter_ext. intros [k' a']. simpl.
        rewrite andb_true_r, negb_orb. reflexivity.
      * apply filter_ext. intros [k' a']. simpl. now rewrite andb_false_r.
    + apply filter_ext. intros [k' a']. simpl. now rewrite andb_false_r.
Qed.

Lemma expired_under_wf now st k a :
  Map.wf (urlDatabase st) -> In (k, a) (urlDatabase st) ->
  expired_under now st (urlDatabase st) k = negb (Server.keeps now st (k, a)).
Proof.
  intros Hwf I. unfold expired_under.
  destruct (Server.keeps now st (k, a)) eqn:K; simpl.
  - apply not_true_is_false. intros H.
    apply existsb_exists in H as [[k' a'] [I' H]]. simpl in H.
    apply andb_true_iff in H as [E N]. apply JsVal_eqb_eq in E. subst k'.
    assert (a' = a) as ->.
    { apply (Map_In_get _ _ _ Hwf) in I, I'. congruence. }
    rewrite K in N. discriminate.
  - apply existsb_exists. exists (k, a). split; [assumption|].
    cbn [fst]. now rewrite JsVal_eqb_refl, K.
Qed.

Lemma cleanup_filter now st :
  Map.wf (urlDatabase st) ->
  urlDatabase (snd (Server.cleanupExpiredUrls now st))
  = List.filter (Server.keeps now st) (urlDatabase st).
Proof.
  intros Hwf. rewrite cleanup_urlDatabase. unfold Server.entries.
  rewrite cleanup_fold. apply filter_ext_in. intros [k a] I. simpl.
  rewrite (expired_under_wf now st k a Hwf I). now rewrite negb_involutive.
Qed.

Lemma cleanup_hasChanges now st :
  fst (Server.cleanupExpiredUrls now st)
  = existsb (fun ke => UrlEntry.isExpired now (snd ke)) (Server.entries st).
Proof.
  unfold Server.cleanupExpiredUrls.
  assert (G : forall (l : list (JsVal * UrlEntry)) (acc : bool * Table),
             fst (fold_left
                    (fun (acc : bool * Table) ke =>
                       if UrlEntry.isExpired now (snd ke)
                       then (true, Map.delete (fst ke) (snd acc)) else acc)
                    l acc)
             = fst acc || existsb (fun ke => UrlEntry.isExpired now (snd ke)) l).
  { induction l as [|ke l IH]; intros acc; simpl; [now rewrite orb_false_r|].
    rewrite IH. destruct (UrlEntry.isExpired now (snd ke)); simpl;
      [now rewrite orb_true_r|reflexivity]. }
  specialize (G (Server.entries st) (false, urlDatabase st)).
  now destruct (fold_left _ _ _) as [hasChanges db].
Qed.

(** ** Invariants of the state *)

Lemma Map_In_set {K} {same : KeyEq K} {V} (m : list (K * V)) k v k' v' :
  In (k', v') (Map.set k v m) -> (k' = k /\ v' = v) \/ In (k', v') m.
Proof.
  induction m as [|[k0 v0] m IH]; simpl.
  - intros [[= <- <-]|[]]. now left.
  - destruct (same_value k k0); simpl.
    + intros [[= <- <-]|I]; [now left|right; now right].
    + intros [E|I]; [right; now left|].
      destruct (IH I) as [H|H]; [now left|right; now right].
Qed.

Lemma Map_set_split {K} {same : KeyEq K} {V} (m : list (K * V)) k v :
  exists l1 l2,
    Map.set k v m = (l1 ++ (k, v) :: l2)%list /\ forall x, In x l1 -> In x m.
Proof.
  induction m as [|[k0 v0] m IH]; simpl.
  - exists [], []. split; [reflexivity|intros x []].
  - destruct (same_value k k0).
    + exists [], m. split; [reflexivity|intros x []].
    + destruct IH as (l1 & l2 & E & Hin).
      exists ((k0, v0) :: l1), l2. split; [now rewrite E|].
      intros x [<-|I]; [now left|right; now apply Hin].
Qed.

Lemma or_string_idem c g :
  UrlEntry.or_string c (UrlEntry.or_string c g) = UrlEntry.or_string c g.
Proof. destruct c as [s|]; simpl; [now destruct (JsString.truthy s)|reflexivity]. Qed.

Section Invariants.
Variable isWebUri : string -> bool.
Variable toDataURL : string -> option string.

Local Abbreviation shorten := (Server.shorten isWebUri toDataURL).
Local Abbreviation handle := (Run.handle isWebUri toDataURL).
Local Abbreviation run := (Run.run isWebUri toDataURL).

Lemma State_wf_empty : State_wf empty_state.
Proof.
  split; [constructor|]. split; [|split].
  - intros k a [].
  - intros k a e [].
  - intros a e H. cbn [heap empty_state] in H. now destruct a.
Qed.

Lemma install_State_wf t random req p st :
  Server.construct t random req = Normal p ->
  State_wf st -> State_wf (Server.install toDataURL p st).
Proof.
  intros C H. pose proof H as (Hwf & Halloc & Hkeys & Hmaps).
  destruct (created_fields toDataURL t random req p C)
    as (Hid & _ & _ & _ & _ & _ & _ & _ & Hr & Hb & _).
  unfold Server.install. split; [|split; [|split]].
  - now apply Map_wf_set.
  - intros k a I. cbn [heap urlDatabase] in *. rewrite length_app. simpl.
    apply Map_In_set in I as [[_ ->]|I]; [lia|].
    apply Halloc in I. lia.
  - intros k a e I Ha. cbn [heap urlDatabase] in *.
    apply Map_In_set in I as [[-> ->]|I].
    + rewrite list_lookup_middle in Ha by reflexivity. injection Ha as <-.
      exact Hid.
    + rewrite lookup_app_l in Ha by now apply (Halloc k).
      now apply (Hkeys k a).
  - intros a e Ha. cbn [heap] in Ha.
    apply lookup_app_Some in Ha as [Ha|[_ Ha]]; [now apply (Hmaps a)|].
    destruct (a - length (heap st))%nat; simpl in Ha; [|discriminate].
    injection Ha as <-. rewrite Hr, Hb. split; constructor.
Qed.

Lemma shorten_State_wf now later random req st :
  State_wf st -> State_wf (snd (shorten now later random req st)).
Proof.
  intros H. rewrite (snd_shorten isWebUri toDataURL).
  destruct (handle_shorten isWebUri toDataURL now random req st)
    as [->|(p & C & _ & ->)]; [exact H|].
  now apply (install_State_wf now random req).
Qed.

Lemma redirect_State_wf now req st :
  State_wf st -> State_wf (snd (Server.redirect now req st)).
Proof.
  intros H. pose proof H as (Hwf & Halloc & Hkeys & Hmaps).
  unfold Server.redirect.
  destruct (Server.lookup (param_shortId req) st) as [[a e]|] eqn:L;
    [|exact H].
  apply lookup_Some in L as [Lk La].
  destruct (UrlEntry.isExpired now e); cbn [snd].
  - split; [|split; [|split]].
    + now apply Map_wf_delete.
    + intros k a' I. apply Map_In_delete in I as [I _]. now apply (Halloc k).
    + intros k a' e' I. apply Map_In_delete in I as [I _]. now apply (Hkeys k).
    + exact Hmaps.
  - split; [exact Hwf|]. split; [|split].
    + intros k a' I. cbn [heap urlDatabase] in *. rewrite length_insert.
      now apply (Halloc k).
    + intros k a' e' I Ha'. cbn [heap urlDatabase] in *.
      destruct (Nat.eq_dec a a') as [<-|Hne].
      * rewrite list_lookup_insert_eq in Ha' by now apply lookup_lt_Some in La.
        injection Ha' as <-. cbn [UrlEntry.updateStats shortId].
        now apply (Hkeys k a).
      * rewrite list_lookup_insert_ne in Ha' by assumption. now apply (Hkeys k a').
    + intros a' e' Ha'. cbn [heap] in Ha'.
      destruct (Nat.eq_dec a a') as [<-|Hne].
      * rewrite list_lookup_insert_eq in Ha' by now apply lookup_lt_Some in La.
        injection Ha' as <-. cbn [UrlEntry.updateStats referrers browserStats].
        destruct (Hmaps a e La). split; now apply Map_wf_set.
      * rewrite list_lookup_insert_ne in Ha' by assumption. now apply (Hmaps a').
Qed.

Lemma cleanup_State_wf now st :
  State_wf st -> State_wf (snd (Server.cleanupExpiredUrls now st)).
Proof.
  intros (Hwf & Halloc & Hkeys & Hmaps).
  pose proof (cleanup_heap now st) as Hh.
  pose proof (cleanup_filter now st Hwf) as Hdb.
  split; [|split; [|split]].
  - rewrite Hdb. now apply Map_wf_filter.
  - intros k a I. rewrite Hdb in I. apply filter_In in I as [I _].
    rewrite Hh. now apply (Halloc k).
  - intros k a e I. rewrite Hdb in I. apply filter_In in I as [I _].
    rewrite Hh. now apply (Hkeys k).
  - intros a e. rewrite Hh. apply Hmaps.
Qed.

Lemma handle_State_wf now ev st : State_wf st -> State_wf (handle now ev st).
Proof.
  intros H. destruct ev as [random req|began random req|req|id| |].
  - destruct (handle_shorten isWebUri toDataURL now random req st)
      as [->|(p & C & _ & ->)]; [exact H|].
    now apply (install_State_wf now random req).
  - destruct (handle_install isWebUri toDataURL now began random req st)
      as [->|(p & C & ->)]; [exact H|].
    now apply (install_State_wf began random req).
  - now apply redirect_State_wf.
  - simpl. unfold Server.stats. now destruct (Server.lookup id st) as [[? ?]|].
  - exact H.
  - now apply cleanup_State_wf.
Qed.

(** The table after an entry is installed. *)
Lemma lookup_install p st k :
  Server.lookup k (Server.install toDataURL p st)
  = if JsVal.eqb k (pending_shortId p)
    then Some (length (heap st), Server.created toDataURL p)
    else match Server.lookup k st with
         | Some (a, e) => if (a <? length (heap st))%nat then Some (a, e) else None
         | None =>
             match Map.get k (urlDatabase st) with
             | Some a =>
                 if (a =? length (heap st))%nat
                 then Some (a, Server.created toDataURL p) else None
             | None => None
             end
         end.
Proof.
  unfold Server.lookup, Server.install. cbn [heap urlDatabase].
  destruct (JsVal.eqb_spec k (pending_shortId p)) as [->|Hne].
  - rewrite Map_get_set_eq. now rewrite list_lookup_middle.
  - rewrite Map_get_set_ne by assumption.
    destruct (Map.get k (urlDatabase st)) as [a|]; [|reflexivity].
    destruct (heap st !! a) as [e|] eqn:Ha.
    + pose proof (lookup_lt_Some _ _ _ Ha) as Hlt.
      rewrite lookup_app_l by assumption. rewrite Ha.
      now apply Nat.ltb_lt in Hlt as ->.
    + apply lookup_ge_None in Ha.
      rewrite lookup_app_r by assumption.
      destruct (Nat.eqb_spec a (length (heap st))) as [->|Hn].
      * now rewrite Nat.sub_diag.
      * destruct (a - length (heap st))%nat eqn:D; [lia|reflexivity].
Qed.

(** What an event can do to the entry filed under a key: remove the key,
    leave the same object under it (with a count that is not lower), or,
    when an entry is filed under an identifier equal to the key, put the
    new entry in its place. *)
Lemma handle_binding now ev st k a e :
  Server.lookup k st = Some (a, e) ->
  Server.lookup k (handle now ev st) = None
  \/ (exists e', Server.lookup k (handle now ev st) = Some (a, e')
                 /\ accessCount e <= accessCount e')
  \/ (exists t random req p,
        (ev = EvShorten random req /\ t = now \/ ev = EvInstall t random req)
        /\ Server.construct t random req = Normal p
        /\ pending_shortId p = k
        /\ Server.lookup k (handle now ev st)
           = Some (length (heap st), Server.created toDataURL p)).
Proof.
  intros L. pose proof L as L0. apply lookup_Some in L as [Lk La].
  assert (Hinst : forall t random req p,
             (ev = EvShorten random req /\ t = now \/ ev = EvInstall t random req) ->
             Server.construct t random req = Normal p ->
             handle now ev st = Server.install toDataURL p st ->
             (exists e', Server.lookup k (handle now ev st) = Some (a, e')
                         /\ accessCount e <= accessCount e')
             \/ (exists t random req p,
                   (ev = EvShorten random req /\ t = now
                    \/ ev = EvInstall t random req)
                   /\ Server.construct t random req = Normal p
                   /\ pending_shortId p = k
                   /\ Server.lookup k (handle now ev st)
                      = Some (length (heap st), Server.created toDataURL p))).
  { intros t random req p Hev C E. rewrite E, lookup_install.
    destruct (JsVal.eqb_spec k (pending_shortId p)) as [->|Hne].
    - right. exists t, random, req, p. repeat split; assumption.
    - left. rewrite L0. apply lookup_lt_Some in La.
      apply Nat.ltb_lt in La as ->. exists e. split; [reflexivity|lia]. }
  destruct ev as [random req|began random req|req|id| |].
  - destruct (handle_shorten isWebUri toDataURL now random req st)
      as [E|(p & C & _ & E)].
    + right. left. rewrite E. exists e. split; [assumption|lia].
    + right. apply (Hinst now random req p); auto.
  - destruct (handle_install isWebUri toDataURL now began random req st)
      as [E|(p & C & E)].
    + right. left. rewrite E. exists e. split; [assumption|lia].
    + right. apply (Hinst began random req p); auto.
  - clear Hinst. simpl. unfold Server.redirect.
    destruct (Server.lookup (param_shortId req) st) as [[a0 e0]|] eqn:L1;
      [|right; left; exists e; split; [assumption|lia]].
    destruct (UrlEntry.isExpired now e0) eqn:X; cbn [snd].
    + destruct (JsVal.eqb_spec k (JString (param_shortId req))) as [->|Hk].
      * left. apply lookup_None_of_get. apply Map_get_delete_eq.
      * right. left. exists e. split; [|lia].
        apply lookup_Some. cbn [heap urlDatabase].
        now rewrite Map_get_delete_ne.
    + right. left. apply lookup_Some in L1 as [_ La0].
      destruct (Nat.eq_dec a0 a) as [->|Hne].
      * assert (e0 = e) as -> by congruence.
        eexists. split.
        -- apply lookup_Some. cbn [heap urlDatabase]. split; [assumption|].
           apply list_lookup_insert_eq. now apply lookup_lt_Some in La.
        -- cbn [UrlEntry.updateStats accessCount]. lia.
      * exists e. split; [|lia]. apply lookup_Some. cbn [heap urlDatabase].
        split; [assumption|]. now rewrite list_lookup_insert_ne.
  - right. left. exists e. simpl. unfold Server.stats.
    destruct (Server.lookup id st) as [[? ?]|]; cbn [snd]; (split; [assumption|lia]).
  - right. left. exists e. split; [assumption|lia].
  - clear Hinst.
    destruct (Map.get k (urlDatabase (handle now EvCleanup st))) as [a'|] eqn:G;
      [|left; now apply lookup_None_of_get].
    right. left. exists e. split; [|lia].
    apply lookup_Some. simpl in G |- *. rewrite cleanup_heap.
    split; [|assumption]. rewrite G. f_equal.
    rewrite cleanup_urlDatabase in G. revert G.
    generalize (Server.entries st). intros l.
    assert (Hgen : forall db : Table,
               (Map.get k db = Some a \/ Map.get k db = None) ->
               Map.get k
                 (fold_left
                    (fun (db : Table) ke =>
                       if UrlEntry.isExpired now (snd ke)
                       then Map.delete (fst ke) db else db) l db) = Some a' ->
               a' = a).
    { induction l as [|[k1 e1] l IH]; intros db Hdb; simpl.
      - destruct Hdb; congruence.
      - apply IH. destruct (UrlEntry.isExpired now e1); [|exact Hdb].
        cbn [fst]. destruct (JsVal.eqb_spec k k1) as [->|Hk];
          [right; apply Map_get_delete_eq|].
        now rewrite Map_get_delete_ne. }
    apply Hgen. now left.
Qed.

(** Every state the server reaches from an empty table is well-formed. *)
Lemma run_State_wf trace : forall st, State_wf st -> State_wf (run trace st).
Proof.
  induction trace as [|[now ev] trace IH]; intros st H; [exact H|].
  apply IH. now apply handle_State_wf.
Qed.

Lemma reachable_State_wf trace : State_wf (run trace empty_state).
Proof. apply run_State_wf, State_wf_empty. Qed.

(** *** Shortening the same URL twice *)

Lemma find_first {A} (P : A -> bool) (l1 l2 : list A) (x : A) :
  (forall y, In y l1 -> P y = false) -> P x = true ->
  List.find P (l1 ++ x :: l2)%list = Some x.
Proof.
  intros Hl1 Hx. induction l1 as [|y l1 IH]; simpl; [now rewrite Hx|].
  rewrite (Hl1 y) by now left. apply IH. intros z I. apply Hl1. now right.
Qed.

(** The generated identifier always converts to a string, so without a
    custom slug only the [ttl] can make [construct] throw. *)
Lemma construct_without_slug now random req :
  JsVal.truthy (body_customSlug req) = false ->
  Server.parsed_ttl req <> Throw ->
  exists p, Server.construct now random req = Normal p
            /\ pending_shortId p = JString (generateShortId random).
Proof.
  intros Hs Hp. unfold Server.construct, JsVal.or. rewrite Hs.
  destruct (Server.parsed_ttl req) as [parsed|]; [|contradiction].
  cbn [JsVal.toString]. eexists. split; reflexivity.
Qed.

(** After an entry for [url] has been installed in a table whose live
    entries all have another [longUrl], the duplicate check finds it for
    as long as it lives. *)
Lemma find_existing_installed now now' p st :
  addresses_allocated st -> now <= now' ->
  Server.find_existing now (pending_longUrl p) (Server.entries st) = None ->
  longUrl (Server.created toDataURL p) = pending_longUrl p ->
  UrlEntry.isExpired now' (Server.created toDataURL p) = false ->
  Server.find_existing now' (pending_longUrl p)
    (Server.entries (Server.install toDataURL p st))
  = Some (pending_shortId p, Server.created toDataURL p).
Proof.
  intros Halloc Hle F Hu Hlive.
  destruct (Map_set_split (urlDatabase st) (pending_shortId p) (length (heap st)))
    as (l1 & l2 & E & Hin).
  unfold Server.find_existing, Server.entries, Server.install.
  cbn [urlDatabase heap].
  rewrite E, flat_map_app. cbn [List.flat_map snd fst].
  rewrite list_lookup_middle by reflexivity. cbn [app].
  apply find_first.
  - intros [k e] I. apply in_flat_map in I as [[k1 a1] [I1 I2]].
    cbn [fst snd] in I2. apply Hin in I1.
    rewrite lookup_app_l in I2 by now apply (Halloc k1).
    destruct (heap st !! a1) as [e1|] eqn:Ha1; [|contradiction].
    destruct I2 as [[= <- <-]|[]]. cbn [snd].
    destruct (String.eqb_spec (longUrl e1) (pending_longUrl p)) as [Hu1|Hu1];
      [|reflexivity].
    assert (X : UrlEntry.isExpired now e1 = true).
    { apply (find_existing_None _ _ _ F k1 e1); [|assumption].
      apply entries_In. now exists a1. }
    now rewrite (isExpired_later now now' e1 Hle X).
  - cbn [snd]. rewrite Hlive, Hu. now rewrite String.eqb_refl.
Qed.

(** X14. A valid request without custom slug, whose [ttl] can be parsed,
    is answered with the key of an entry, found or created; when nothing
    else happens in between, the same request made again at a later time
    at which that entry still lives is answered with the same key,
    whatever bytes the generator draws. The statistics of a found entry
    are those of the clock reading of the search, the statistics of a
    created entry those of the reading made for the answer. *)
Lemma shorten_twice_same_id
    now later now' later' random random' req st :
  addresses_allocated st ->
  Server.isValidUrl isWebUri (body_longUrl req) = true ->
  JsVal.truthy (body_customSlug req) = false ->
  Server.parsed_ttl req <> Throw ->
  now <= now' ->
  exists id e t,
    t = match Server.find_existing now (body_longUrl req) (Server.entries st)
        with
        | Some _ => now
        | None => later
        end
    /\ fst (shorten now later random req st)
       = Json 200 (EntryBody id (body_longUrl req) (UrlEntry.getStats t e))
    /\ (UrlEntry.isExpired now' e = false ->
        fst (shorten now' later' random' req
               (snd (shorten now later random req st)))
        = Json 200 (EntryBody id (body_longUrl req) (UrlEntry.getStats now' e))).
Proof.
  intros Halloc Hurl Hslug Hparse Hle.
  assert (Hacc : forall s, Server.accepted isWebUri req s).
  { intros s. split; [assumption|].
    unfold Server.check_customSlug. now rewrite Hslug. }
  destruct (Server.find_existing now (body_longUrl req) (Server.entries st))
    as [[k0 e0]|] eqn:F.
  - exists k0, e0, now. split; [reflexivity|].
    rewrite (shorten_hit isWebUri toDataURL now later random req st k0 e0 (Hacc st) F).
    split; [reflexivity|]. intros Hlive. cbn [snd].
    rewrite (shorten_hit isWebUri toDataURL now' later' random' req st k0 e0 (Hacc st));
      [reflexivity|].
    now apply (find_existing_later now now').
  - destruct (construct_without_slug now random req Hslug Hparse) as (p & C & Hid).
    rewrite (shorten_miss isWebUri toDataURL now later random req st p (Hacc st) F C).
    cbn [fst snd].
    exists (pending_shortId p), (Server.created toDataURL p), later.
    split; [reflexivity|]. split; [reflexivity|]. intros Hlive.
    destruct (created_fields toDataURL now random req p C)
      as (_ & _ & Hu & Hpu & _).
    rewrite (shorten_hit isWebUri toDataURL now' later' random' req
               (Server.install toDataURL p st) (pending_shortId p)
               (Server.created toDataURL p) (Hacc _)); [reflexivity|].
    rewrite <- Hpu. apply (find_existing_installed now now'); try assumption.
    + now rewrite Hpu.
    + now rewrite Hpu.
Qed.

End Invariants.

(** ** The claims *)

Section Claims.
Variable isWebUri : string -> bool.
Variable toDataURL : string -> option string.

Local Abbreviation shorten := (Server.shorten isWebUri toDataURL).
Local Abbreviation handle := (Run.handle isWebUri toDataURL).
Local Abbreviation run := (Run.run isWebUri toDataURL).
Local Abbreviation hits := (Run.hits isWebUri toDataURL).

(** One successful redirect, seen from the table. *)
Lemma redirect_live now req st a e :
  Server.lookup (param_shortId req) st = Some (a, e) ->
  UrlEntry.isExpired now e = false ->
  exists e',
    Server.redirect now req st
    = (Redirect (longUrl e),
       {| heap := <[a := e']> (heap st); urlDatabase := urlDatabase st |})
    /\ Server.lookup (param_shortId req) (snd (Server.redirect now req st))
       = Some (a, e')
    /\ e' = UrlEntry.updateStats now
              (UrlEntry.or_string (header_Referrer req) "Direct")
              (UrlEntry.or_string (header_UserAgent req) "Unknown") e.
Proof.
  intros L Hlive. unfold Server.redirect. rewrite L, Hlive.
  eexists. split; [reflexivity|]. split; [|reflexivity]. cbn [snd].
  apply lookup_Some in L as [Lk La]. apply lookup_Some.
  cbn [heap urlDatabase]. split; [assumption|].
  apply list_lookup_insert_eq. now apply lookup_lt_Some in La.
Qed.

Lemma visits_count l : forall st (k : string) a e,
  Server.lookup k st = Some (a, e) ->
  List.Forall (fun v => param_shortId (snd v) = k
                        /\ UrlEntry.isExpired (fst v) e = false) l ->
  exists e',
    Server.lookup k (run (Run.visits l) st) = Some (a, e')
    /\ accessCount e' = accessCount e + Z.of_nat (length l)
    /\ lastAccessed e' = Run.last_time l (lastAccessed e).
Proof.
  induction l as [|[now req] l IH]; intros st k a e L Hall.
  - exists e. simpl. repeat split; [assumption|lia].
  - apply List.Forall_cons_iff in Hall as [[Hk Hlive] Hall'].
    simpl in Hk, Hlive. subst k.
    destruct (redirect_live now req st a e L Hlive) as [e1 [R [L1 E1]]].
    destruct (IH (snd (Server.redirect now req st)) (param_shortId req) a e1 L1)
      as [e' [L' [Hc Ht]]].
    { subst e1. eapply List.Forall_impl; [|exact Hall']. intros v [? ?]. auto. }
    exists e'. split; [exact L'|]. subst e1. split.
    + rewrite Hc. cbn [UrlEntry.updateStats accessCount length]. lia.
    + exact Ht.
Qed.

(** C1. When the table holds a live entry with the requested [longUrl],
    a valid request without custom slug (absent, or any falsy value) is
    answered with the key of such an entry (the first in table order) and
    that entry's statistics, and the state (table and entries) is left as
    it was. That key is the entry's own [shortId] in a consistent table,
    and the key of the given entry when only one live entry has this
    [longUrl]. Asking again at a later time at which the entry still lives
    gives the same key. *)
Theorem shorten_dedup now later random req st k a e :
  Server.isValidUrl isWebUri (body_longUrl req) = true ->
  JsVal.truthy (body_customSlug req) = false ->
  Server.lookup k st = Some (a, e) ->
  longUrl e = body_longUrl req ->
  UrlEntry.isExpired now e = false ->
  exists k0 e0,
    In (k0, e0) (Server.entries st)
    /\ longUrl e0 = body_longUrl req
    /\ UrlEntry.isExpired now e0 = false
    /\ shorten now later random req st
       = (Json 200 (EntryBody k0 (body_longUrl req) (UrlEntry.getStats now e0)),
          st)
    /\ (keys_consistent st -> shortId e0 = k0)
    /\ ((forall k' e', In (k', e') (Server.entries st) ->
                       longUrl e' = body_longUrl req ->
                       UrlEntry.isExpired now e' = false -> k' = k) ->
        k0 = k)
    /\ (forall now' later' random',
          now <= now' -> UrlEntry.isExpired now' e0 = false ->
          shorten now' later' random' req (snd (shorten now later random req st))
          = (Json 200 (EntryBody k0 (body_longUrl req)
                         (UrlEntry.getStats now' e0)), st))
    /\ Server.find_existing now (body_longUrl req) (Server.entries st)
       = Some (k0, e0).
Proof.
  intros Hurl Hslug L Hu Hlive.
  assert (Hacc : Server.accepted isWebUri req st).
  { split; [assumption|]. unfold Server.check_customSlug. now rewrite Hslug. }
  destruct (find_existing_exists now (body_longUrl req) (Server.entries st) k e)
    as [k0 [e0 F]]; [now apply (lookup_entries k a)|assumption|assumption|].
  destruct (find_existing_Some _ _ _ _ _ F) as [I [Hu0 Hl0]].
  pose proof (shorten_hit isWebUri toDataURL now later random req st k0 e0 Hacc F)
    as Hit.
  exists k0, e0. repeat split; try assumption.
  - intros Hc. apply entries_In in I as [a0 [I Ha0]]. now apply (Hc k0 a0).
  - intros Huniq. now apply (Huniq k0 e0).
  - intros now' later' random' Hle Hl'. rewrite Hit. cbn [snd].
    apply shorten_hit; [assumption|].
    now apply (find_existing_later now now').
Qed.



(** A string that passes the pattern is not empty. *)
Lemma valid_slug_truthy (slug : string) :
  isValidCustomSlug slug = Normal true -> JsVal.truthy slug = true.
Proof.
  unfold isValidCustomSlug, slug_pattern. cbn [JsVal.toString JsVal.truthy].
  intros [= H]. now apply andb_true_iff in H.
Qed.

(** C3. A valid request with a well-formed custom slug that is not a key
    of the table, made while the table holds a live entry with the same
    [longUrl], is answered with the key and statistics of such an entry
    (the first in table order); the state is left as it was, so nothing is
    filed under the requested slug. *)
Theorem shorten_dedup_over_slug now later random req st (slug : string) k a e :
  Server.isValidUrl isWebUri (body_longUrl req) = true ->
  body_customSlug req = slug ->
  isValidCustomSlug slug = Normal true ->
  Map.has (JString slug) (urlDatabase st) = false ->
  Server.lookup k st = Some (a, e) ->
  longUrl e = body_longUrl req ->
  UrlEntry.isExpired now e = false ->
  exists k0 e0,
    In (k0, e0) (Server.entries st)
    /\ longUrl e0 = body_longUrl req
    /\ UrlEntry.isExpired now e0 = false
    /\ shorten now later random req st
       = (Json 200 (EntryBody k0 (body_longUrl req) (UrlEntry.getStats now e0)),
          st)
    /\ k0 <> slug
    /\ Server.lookup slug (snd (shorten now later random req st)) = None
    /\ (keys_consistent st -> shortId e0 = k0)
    /\ ((forall k' e', In (k', e') (Server.entries st) ->
                       longUrl e' = body_longUrl req ->
                       UrlEntry.isExpired now e' = false -> k' = k) ->
        k0 = k)
    /\ Server.find_existing now (body_longUrl req) (Server.entries st)
       = Some (k0, e0).
Proof.
  intros Hurl Hslug Hvalid Hfree L Hu Hlive.
  assert (Hacc : Server.accepted isWebUri req st).
  { split; [assumption|]. rewrite Hslug. unfold Server.check_customSlug.
    now rewrite (valid_slug_truthy slug Hvalid), Hvalid, Hfree. }
  destruct (find_existing_exists now (body_longUrl req) (Server.entries st) k e)
    as [k0 [e0 F]]; [now apply (lookup_entries k a)|assumption|assumption|].
  destruct (find_existing_Some _ _ _ _ _ F) as [I [Hu0 Hl0]].
  pose proof (shorten_hit isWebUri toDataURL now later random req st k0 e0 Hacc F)
    as Hit.
  exists k0, e0. repeat split; try assumption.
  - intros ->. apply entries_key in I. congruence.
  - rewrite Hit. cbn [snd]. apply lookup_None_of_get.
    unfold Map.has in Hfree. now destruct (Map.get (JString slug) (urlDatabase st)).
  - intros Hc. apply entries_In in I as [a0 [I Ha0]]. now apply (Hc k0 a0).
  - intros Huniq. now apply (Huniq k0 e0).
Qed.

(** C4. For an entry whose [ttl] is a positive integer, [isExpired] holds
    exactly when [now > createdAt + ttl]; an entry with no [ttl] is never
    expired; no run of the server changes the [createdAt] or the [ttl] of
    an entry, so an entry found expired at one time is found expired at
    every later time, whatever happened to the server in between. *)
Theorem isExpired_exact_and_monotone :
  (forall e now t,
      ttl e = Some (Num t) -> 0 < t ->
      (UrlEntry.isExpired now e = true <-> now > createdAt e + t))
  /\ (forall e now, ttl e = None -> UrlEntry.isExpired now e = false)
  /\ (forall trace st a e,
        heap st !! a = Some e ->
        exists e', heap (run trace st) !! a = Some e'
                   /\ createdAt e' = createdAt e /\ ttl e' = ttl e)
  /\ (forall trace st a e now now',
        heap st !! a = Some e -> now <= now' ->
        UrlEntry.isExpired now e = true ->
        exists e', heap (run trace st) !! a = Some e'
                   /\ UrlEntry.isExpired now' e' = true).
Proof.
  split; [|split; [|split]].
  - intros e now t Ht Hpos.
    rewrite (isExpired_number now e t Ht) by lia. apply Z.gtb_gt.
  - intros e now. apply isExpired_no_ttl.
  - intros trace st a e Ha.
    destruct (run_object isWebUri toDataURL trace st a e Ha)
      as [e' (H1 & _ & _ & H4 & H5 & _)].
    now exists e'.
  - intros trace st a e now now' Ha Hle Hexp.
    destruct (run_object isWebUri toDataURL trace st a e Ha)
      as [e' (H1 & _ & _ & H4 & H5 & _)].
    exists e'. split; [assumption|].
    rewrite (isExpired_ext now' e e' H4 H5).
    now apply (isExpired_later now now').
Qed.

(** C5. A redirect request for a key whose entry is expired answers 404
    "URL has expired" and removes the key from the table; the entry object
    itself is not touched (no access is recorded on it) and no other key is
    affected. A statistics request for the same key made afterwards answers
    404 "URL not found". *)
Theorem redirect_expired_deletes now req st a e :
  Server.lookup (param_shortId req) st = Some (a, e) ->
  UrlEntry.isExpired now e = true ->
  let st' := snd (Server.redirect now req st) in
  Server.redirect now req st
  = (Send 404 "URL has expired",
     {| heap := heap st;
        urlDatabase := Map.delete (JString (param_shortId req)) (urlDatabase st) |})
  /\ Server.lookup (param_shortId req) st' = None
  /\ (forall now',
        Server.stats now' (param_shortId req) st'
        = (Json 404 (ErrorBody "URL not found"), st'))
  /\ heap st' = heap st
  /\ (forall k' : JsVal, k' <> param_shortId req ->
                 Server.lookup k' st' = Server.lookup k' st).
Proof.
  intros L Hexp st'.
  assert (R : Server.redirect now req st
              = (Send 404 "URL has expired",
                 {| heap := heap st;
                    urlDatabase := Map.delete (JString (param_shortId req)) (urlDatabase st) |})).
  { unfold Server.redirect. now rewrite L, Hexp. }
  assert (Hnone : Server.lookup (param_shortId req) st' = None).
  { subst st'. rewrite R. apply lookup_None_of_get. apply Map_get_delete_eq. }
  split; [exact R|]. split; [exact Hnone|]. split; [|split].
  - intros now'. unfold Server.stats. now rewrite Hnone.
  - subst st'. now rewrite R.
  - intros k' Hne. subst st'. rewrite R. unfold Server.lookup. cbn [snd heap urlDatabase].
    now rewrite Map_get_delete_ne.
Qed.

(** C6. On a table with distinct keys, the clean-up removes the keys whose
    entry is expired at [now] and nothing else: the remaining bindings are
    those of the live entries, in their order, each bound to the same
    object, and no object is modified. It reports a change exactly when
    some entry was expired. *)
Theorem cleanup_removes_exactly_expired now st :
  Map.wf (urlDatabase st) ->
  let st' := snd (Server.cleanupExpiredUrls now st) in
  heap st' = heap st
  /\ urlDatabase st' = List.filter (Server.keeps now st) (urlDatabase st)
  /\ (forall k,
        Server.lookup k st'
        = match Server.lookup k st with
          | Some (a, e) =>
              if UrlEntry.isExpired now e then None else Some (a, e)
          | None => None
          end)
  /\ (forall k a e,
        Server.lookup k st = Some (a, e) -> UrlEntry.isExpired now e = true ->
        Map.has k (urlDatabase st') = false)
  /\ (forall k a e,
        Server.lookup k st = Some (a, e) -> UrlEntry.isExpired now e = false ->
        Server.lookup k st' = Some (a, e))
  /\ (forall k, Map.has k (urlDatabase st') = true ->
                Map.has k (urlDatabase st) = true)
  /\ (fst (Server.cleanupExpiredUrls now st) = true <->
      exists k e, In (k, e) (Server.entries st)
                  /\ UrlEntry.isExpired now e = true)
  /\ Map.wf (urlDatabase st').
Proof.
  intros Hwf st'.
  assert (Hheap : heap st' = heap st) by apply cleanup_heap.
  assert (Hdb : urlDatabase st' = List.filter (Server.keeps now st) (urlDatabase st))
    by now apply cleanup_filter.
  assert (Hget : forall k,
             Map.get k (urlDatabase st')
             = match Map.get k (urlDatabase st) with
               | Some a => if Server.keeps now st (k, a) then Some a else None
               | None => None
               end).
  { intros k. rewrite Hdb. now apply Map_get_filter. }
  assert (Hlookup : forall k,
             Server.lookup k st'
             = match Server.lookup k st with
               | Some (a, e) =>
                   if UrlEntry.isExpired now e then None else Some (a, e)
               | None => None
               end).
  { intros k. unfold Server.lookup. rewrite Hget, Hheap.
    destruct (Map.get k (urlDatabase st)) as [a|]; [|reflexivity].
    unfold Server.keeps. simpl.
    destruct (heap st !! a) as [e|] eqn:Ha; simpl.
    - destruct (UrlEntry.isExpired now e); simpl; [reflexivity|now rewrite Ha].
    - now rewrite Ha. }
  repeat split; try assumption.
  - intros k a e L Hexp. apply lookup_Some in L as [Lk La].
    unfold Map.has. rewrite Hget, Lk. unfold Server.keeps. simpl.
    now rewrite La, Hexp.
  - intros k a e L Hlive. now rewrite Hlookup, L, Hlive.
  - intros k. unfold Map.has. rewrite Hget.
    now destruct (Map.get k (urlDatabase st)).
  - rewrite cleanup_hasChanges. intros H.
    apply existsb_exists in H as [[k e] [I H]]. now exists k, e.
  - rewrite cleanup_hasChanges. intros [k [e [I H]]].
    apply existsb_exists. now exists (k, e).
  - rewrite Hdb. now apply Map_wf_filter.
Qed.

(** C7. Along any run of the server, the [accessCount] of an entry is its
    initial value plus the number of successful redirects to it: no event
    lowers or resets it. A successful redirect adds one and sets
    [lastAccessed] to the time of the request, so after N successful
    redirects in a row the count is the initial value plus N. A new entry
    starts at 0. *)
Theorem accessCount_counts_redirects :
  (forall trace st a e,
      heap st !! a = Some e ->
      exists e',
        heap (run trace st) !! a = Some e'
        /\ accessCount e' = accessCount e + hits a trace st
        /\ accessCount e <= accessCount e')
  /\ (forall now req st a e,
        Server.lookup (param_shortId req) st = Some (a, e) ->
        UrlEntry.isExpired now e = false ->
        exists e',
          fst (Server.redirect now req st) = Redirect (longUrl e)
          /\ Server.lookup (param_shortId req) (snd (Server.redirect now req st))
             = Some (a, e')
          /\ accessCount e' = accessCount e + 1
          /\ lastAccessed e' = Some now)
  /\ (forall l st (k : string) a e,
        Server.lookup k st = Some (a, e) ->
        List.Forall (fun v => param_shortId (snd v) = k
                              /\ UrlEntry.isExpired (fst v) e = false) l ->
        exists e',
          Server.lookup k (run (Run.visits l) st) = Some (a, e')
          /\ accessCount e' = accessCount e + Z.of_nat (length l)
          /\ lastAccessed e' = Run.last_time l (lastAccessed e))
  /\ (forall now random req p,
        Server.construct now random req = Normal p ->
        accessCount (Server.created toDataURL p) = 0
        /\ lastAccessed (Server.created toDataURL p) = None).
Proof.
  split; [|split; [|split]].
  - intros trace st a e Ha.
    destruct (run_object isWebUri toDataURL trace st a e Ha)
      as [e' (H1 & _ & _ & _ & _ & _ & H7)].
    exists e'. repeat split; [assumption..|].
    pose proof (hits_nonneg isWebUri toDataURL trace a st). lia.
  - intros now req st a e L Hlive.
    destruct (redirect_live now req st a e L Hlive) as [e' [R [L' E']]].
    exists e'. subst e'. split; [now rewrite R|]. split; [exact L'|]. now split.
  - intros l st k a e. apply visits_count.
  - intros now random req p C.
    destruct (created_fields toDataURL now random req p C)
      as (_ & _ & _ & _ & _ & _ & Hc & Hl & _).
    now split.
Qed.

(** C8. The browser label is the first of "Firefox", "Chrome", "Safari",
    "Edge" that occurs in the user-agent string (case-sensitive substring),
    and "Other" when none does. A redirect without a user-agent header
    classifies the literal "Unknown", so it counts under "Other"; a redirect
    without a referrer counts under "Direct". *)
Theorem browser_classification :
  (forall ua,
      (JsString.substring_of "Firefox" ua ->
       UrlEntry.getBrowserFromUserAgent ua = "Firefox")
      /\ (~ JsString.substring_of "Firefox" ua ->
          JsString.substring_of "Chrome" ua ->
          UrlEntry.getBrowserFromUserAgent ua = "Chrome")
      /\ (~ JsString.substring_of "Firefox" ua ->
          ~ JsString.substring_of "Chrome" ua ->
          JsString.substring_of "Safari" ua ->
          UrlEntry.getBrowserFromUserAgent ua = "Safari")
      /\ (~ JsString.substring_of "Firefox" ua ->
          ~ JsString.substring_of "Chrome" ua ->
          ~ JsString.substring_of "Safari" ua ->
          JsString.substring_of "Edge" ua ->
          UrlEntry.getBrowserFromUserAgent ua = "Edge")
      /\ (~ JsString.substring_of "Firefox" ua ->
          ~ JsString.substring_of "Chrome" ua ->
          ~ JsString.substring_of "Safari" ua ->
          ~ JsString.substring_of "Edge" ua ->
          UrlEntry.getBrowserFromUserAgent ua = "Other"))
  /\ UrlEntry.getBrowserFromUserAgent "Unknown" = "Other"
  /\ (forall now req st a e,
        Server.lookup (param_shortId req) st = Some (a, e) ->
        UrlEntry.isExpired now e = false ->
        exists e',
          Server.redirect now req st
          = (Redirect (longUrl e),
             {| heap := <[a := e']> (heap st); urlDatabase := urlDatabase st |})
          /\ Server.lookup (param_shortId req) (snd (Server.redirect now req st))
             = Some (a, e')
          /\ (header_UserAgent req = None ->
              Map.get "Other" (browserStats e')
              = Some (UrlEntry.or_number (Map.get "Other" (browserStats e)) 0 + 1)
              /\ forall b, b <> "Other" ->
                   Map.get b (browserStats e') = Map.get b (browserStats e))
          /\ (header_Referrer req = None ->
              Map.get "Direct" (referrers e')
              = Some (UrlEntry.or_number (Map.get "Direct" (referrers e)) 0 + 1)
              /\ forall r, r <> "Direct" ->
                   Map.get r (referrers e') = Map.get r (referrers e))).
Proof.
  split; [|split; [reflexivity|]].
  - intros ua. unfold UrlEntry.getBrowserFromUserAgent.
    repeat split; intros; 
      repeat match goal with
             | H : JsString.substring_of _ _ |- _ =>
                 apply includes_spec in H; rewrite H
             | H : ~ JsString.substring_of _ _ |- _ =>
                 apply includes_false in H; rewrite H
             end; reflexivity.
  - intros now req st a e L Hlive.
    unfold Server.redirect. rewrite L, Hlive.
    eexists. split; [reflexivity|]. cbn [snd].
    apply lookup_Some in L as [Lk La].
    split; [|split].
    + apply lookup_Some. cbn [heap urlDatabase]. split; [assumption|].
      apply list_lookup_insert_eq. now apply lookup_lt_Some in La.
    + intros ->. cbn [UrlEntry.or_string UrlEntry.updateStats browserStats].
      change (UrlEntry.getBrowserFromUserAgent "Unknown") with "Other".
      split; [apply Map_get_set_eq|].
      intros b Hb. now apply Map_get_set_ne.
    + intros ->. cbn [UrlEntry.or_string UrlEntry.updateStats referrers].
      split; [apply Map_get_set_eq|].
      intros r Hr. now apply Map_get_set_ne.
Qed.

(** The rebuilt map lists an array-index key first: same counts, another
    insertion order. *)
Example fromJSON_toJSON_order :
  exists e',
    UrlEntry.fromJSON (UrlEntry.toJSON Demo.numbered) = Some e'
    /\ referrers Demo.numbered = [("Direct", 2); ("7", 1)]
    /\ referrers e' = [("7", 1); ("Direct", 2)].
Proof. eexists. repeat split. Qed.

(** C9. For an entry whose two maps have distinct keys, [fromJSON] applied
    to what [toJSON] returns succeeds and rebuilds an entry with the same
    [longUrl], [shortId], [createdAt], [ttl], [accessCount], [lastAccessed]
    and [qrCode], and with maps holding the same count under every key.
    [toJSON] writes no [customSlug] property, so the constructor falls back
    on the stored [shortId]. The rebuilt entry is the original one, maps in
    the same order, when no key of the maps is an array index. *)
Theorem fromJSON_toJSON_roundtrip e :
  Map.wf (referrers e) -> Map.wf (browserStats e) ->
  exists e',
    UrlEntry.fromJSON (UrlEntry.toJSON e) = Some e'
    /\ longUrl e' = longUrl e
    /\ shortId e' = shortId e
    /\ createdAt e' = createdAt e
    /\ ttl e' = ttl e
    /\ accessCount e' = accessCount e
    /\ lastAccessed e' = lastAccessed e
    /\ qrCode e' = qrCode e
    /\ Map.equiv (referrers e') (referrers e)
    /\ Map.equiv (browserStats e') (browserStats e)
    /\ Map.wf (referrers e') /\ Map.wf (browserStats e')
    /\ UrlEntry.prop "customSlug" (UrlEntry.toJSON e) = JUndefined
    /\ shortId e'
       = JsVal.or (UrlEntry.prop "customSlug" (UrlEntry.toJSON e)) (shortId e)
    /\ ((forall k, In k (Map.keys (referrers e)) -> Obj.array_index k = None) ->
        (forall k, In k (Map.keys (browserStats e)) -> Obj.array_index k = None) ->
        e' = e).
Proof.
  intros Hr Hb. eexists. split; [apply fromJSON_toJSON|]. cbn [longUrl shortId createdAt ttl accessCount lastAccessed qrCode referrers browserStats].
  repeat split.
  - intros k. rewrite of_entries_get by apply fromEntries_wf.
    now apply fromEntries_get.
  - intros k. rewrite of_entries_get by apply fromEntries_wf.
    now apply fromEntries_get.
  - apply of_entries_wf.
  - apply of_entries_wf.
  - intros Hir Hib.
    rewrite (fromEntries_id (referrers e)), (fromEntries_id (browserStats e))
      by assumption.
    rewrite !of_entries_id by assumption. now destruct e.
Qed.

(** C10. A request whose [ttl] field is the number 0, or a string that
    [parseInt] reads as [NaN], and that leads to the creation of an entry,
    creates one that is never expired: [isExpired] answers [false] for
    every entry whose stored [ttl] is [null], [NaN] or 0, and answers
    [true] only for entries whose [ttl] is a non-zero number. *)
Theorem falsy_ttl_never_expires :
  (forall now later random req st,
      (body_ttl req = JNumber (Num 0)
       \/ exists s, body_ttl req = JString s
                    /\ JsNumber.parseInt_string s = NaN) ->
      Server.accepted isWebUri req st ->
      Server.find_existing now (body_longUrl req) (Server.entries st) = None ->
      exists id e,
        shorten now later random req st
        = (Json 200 (EntryBody id (body_longUrl req)
                       (UrlEntry.getStats later e)),
           {| heap := (heap st ++ [e])%list;
              urlDatabase := Map.set id (length (heap st)) (urlDatabase st) |})
        /\ Server.lookup id (snd (shorten now later random req st))
           = Some (length (heap st), e)
        /\ (ttl e = None \/ ttl e = Some NaN)
        /\ forall now', UrlEntry.isExpired now' e = false)
  /\ (forall now later random req st a e,
        (body_ttl req = JNumber (Num 0)
         \/ exists s, body_ttl req = JString s
                      /\ JsNumber.parseInt_string s = NaN) ->
        heap st !! a = None ->
        heap (snd (shorten now later random req st)) !! a = Some e ->
        forall now', UrlEntry.isExpired now' e = false)
  /\ (forall e now,
        ttl e = None \/ ttl e = Some NaN \/ ttl e = Some (Num 0) ->
        UrlEntry.isExpired now e = false)
  /\ (forall e now,
        UrlEntry.isExpired now e = true ->
        exists t, ttl e = Some (Num t) /\ t <> 0).
Proof.
  assert (Httl : forall req,
             (body_ttl req = JNumber (Num 0)
              \/ exists s, body_ttl req = JString s
                           /\ JsNumber.parseInt_string s = NaN) ->
             Server.parsed_ttl req = Normal None
             \/ Server.parsed_ttl req = Normal (Some NaN)).
  { intros req [H|[s [H P]]]; unfold Server.parsed_ttl; rewrite H.
    - now left.
    - cbn [JsVal.truthy]. destruct (JsString.truthy s); [right|now left].
      unfold JsVal.parseInt. cbn [JsVal.toString]. now rewrite P. }
  assert (Hnever : forall e, ttl e = None \/ ttl e = Some NaN ->
                             forall now', UrlEntry.isExpired now' e = false).
  { intros e [H|H] now'; [now apply isExpired_no_ttl|now apply isExpired_NaN]. }
  assert (Hcreated : forall now random req p,
             (body_ttl req = JNumber (Num 0)
              \/ exists s, body_ttl req = JString s
                           /\ JsNumber.parseInt_string s = NaN) ->
             Server.construct now random req = Normal p ->
             ttl (Server.created toDataURL p) = None
             \/ ttl (Server.created toDataURL p) = Some NaN).
  { intros now random req p Hreq C.
    destruct (created_fields toDataURL now random req p C)
      as (_ & _ & _ & _ & _ & Hp & _).
    destruct (Httl req Hreq) as [E|E]; rewrite E in Hp; injection Hp as Hp;
      [left|right]; symmetry; exact Hp. }
  split; [|split; [|split]].
  - intros now later random req st Hreq Hacc F.
    assert (exists parsed, Server.parsed_ttl req = Normal parsed) as [parsed Hp].
    { destruct (Httl req Hreq) as [E|E]; rewrite E; eauto. }
    destruct (construct_accepted isWebUri toDataURL now random req st parsed Hacc Hp)
      as (p & C & _).
    exists (pending_shortId p), (Server.created toDataURL p).
    rewrite (shorten_miss isWebUri toDataURL now later random req st p Hacc F C).
    cbn [snd]. split; [reflexivity|].
    split; [|split; [now apply (Hcreated now random req)
                    |apply Hnever; now apply (Hcreated now random req)]].
    rewrite (lookup_install toDataURL). now rewrite JsVal_eqb_refl.
  - intros now later random req st a e Hreq Hnone Hsome.
    destruct (shorten_state isWebUri toDataURL now later random req st)
      as [E|(p & C & E)]; rewrite E in Hsome; [congruence|].
    cbn [heap] in Hsome.
    apply lookup_ge_None in Hnone.
    rewrite lookup_app_r in Hsome by assumption.
    destruct (a - length (heap st))%nat; simpl in Hsome; [|discriminate].
    injection Hsome as <-. apply Hnever. now apply (Hcreated now random req).
  - intros e now [H|[H|H]];
      [now apply isExpired_no_ttl|now apply isExpired_NaN|now apply isExpired_zero].
  - intros e now H. apply isExpired_true_inv in H as [t [Ht [Hne _]]]. eauto.
Qed.

End Claims.

(** ** The claims on sample runs *)

Lemma Demo_state_wf : Map.wf (urlDatabase Demo.state).
Proof. repeat constructor; simpl; intuition discriminate. Qed.

(** At time 1200 the entry "promo" (created at 1000, 500 ms to live) is
    live, and it is the only entry with its [longUrl]: asking for that
    [longUrl] again answers "promo" and changes nothing. *)
Lemma shorten_dedup_witness :
  exists e0,
    Server.shorten Demo.isWebUri Demo.toDataURL 1200 1210 Demo.random2
      Demo.sale_again Demo.state
    = (Json 200 (EntryBody "promo" "https://example.com/sale"
                   (UrlEntry.getStats 1200 e0)), Demo.state)
    /\ shortId e0 = JString "promo".
Proof.
  destruct (shorten_dedup Demo.isWebUri Demo.toDataURL 1200 1210 Demo.random2
              Demo.sale_again Demo.state "promo" 0%nat Demo.promo
              eq_refl eq_refl eq_refl eq_refl eq_refl)
    as (k0 & e0 & I & _ & _ & H & _ & Hk & _).
  assert (E : k0 = JString "promo").
  { apply Hk. intros k' e' [[= <- <-]|[[= <- <-]|[]]] Hu _;
      [reflexivity|discriminate Hu]. }
  subst k0. exists e0. split; [exact H|].
  destruct I as [[= <-]|[[=]|[]]]. reflexivity.
Defined.


(** At time 1200 the slug "deal" is free and "promo" is live with the
    requested [longUrl]: the answer is "promo", and "deal" stays free. *)
Lemma shorten_dedup_over_slug_witness :
  exists k0 e0,
    Server.shorten Demo.isWebUri Demo.toDataURL 1200 1210 Demo.random2
      Demo.sale_as_deal Demo.state
    = (Json 200 (EntryBody k0 "https://example.com/sale"
                   (UrlEntry.getStats 1200 e0)), Demo.state)
    /\ k0 = JString "promo"
    /\ Server.lookup "deal"
         (snd (Server.shorten Demo.isWebUri Demo.toDataURL 1200 1210 Demo.random2
                 Demo.sale_as_deal Demo.state)) = None.
Proof.
  destruct (shorten_dedup_over_slug Demo.isWebUri Demo.toDataURL 1200 1210
              Demo.random2 Demo.sale_as_deal Demo.state "deal" "promo" 0%nat
              Demo.promo eq_refl eq_refl eq_refl eq_refl eq_refl eq_refl eq_refl)
    as (k0 & e0 & _ & _ & _ & H & _ & Hfree & _ & Hk).
  exists k0, e0. split; [exact H|]. split; [|exact Hfree].
  apply Hk. intros k' e' [[= <- <-]|[[= <- <-]|[]]] Hu _;
    [reflexivity|discriminate Hu].
Defined.

(** "promo" found expired at time 2000 and live at 1200; after any run
    from the sample state it is still expired at 2000 and later. *)
Lemma isExpired_exact_and_monotone_witness :
  (UrlEntry.isExpired 2000 Demo.promo = true <-> 2000 > 1000 + 500)
  /\ (UrlEntry.isExpired 1200 Demo.promo = true <-> 1200 > 1000 + 500)
  /\ UrlEntry.isExpired 2000 Demo.docs = false
  /\ exists e',
       heap (Run.run Demo.isWebUri Demo.toDataURL
               [(1200, EvRedirect Demo.get_promo); (1300, EvHealth)]
               Demo.state) !! 0%nat = Some e'
       /\ UrlEntry.isExpired 2500 e' = true.
Proof.
  destruct (isExpired_exact_and_monotone Demo.isWebUri Demo.toDataURL)
    as (Hexact & Hnone & _ & Hmono).
  split; [apply (Hexact Demo.promo 2000 500); [reflexivity|lia]|].
  split; [apply (Hexact Demo.promo 1200 500); [reflexivity|lia]|].
  split; [apply Hnone; reflexivity|].
  apply (Hmono _ Demo.state 0%nat Demo.promo 2000 2500); [reflexivity|lia|reflexivity].
Defined.

(** A redirect to "promo" at time 2000 removes it; statistics for "promo"
    then answer 404, and the other entry is still there. *)
Lemma redirect_expired_deletes_witness :
  Server.redirect 2000 Demo.get_promo Demo.state
  = (Send 404 "URL has expired",
     {| heap := heap Demo.state; urlDatabase := [(JString "3fa9007c", 1%nat)] |})
  /\ Server.stats 2100 "promo" (snd (Server.redirect 2000 Demo.get_promo Demo.state))
     = (Json 404 (ErrorBody "URL not found"),
        snd (Server.redirect 2000 Demo.get_promo Demo.state))
  /\ Server.lookup "3fa9007c" (snd (Server.redirect 2000 Demo.get_promo Demo.state))
     = Some (1%nat, Demo.docs).
Proof.
  destruct (redirect_expired_deletes 2000 Demo.get_promo Demo.state 0%nat
              Demo.promo eq_refl eq_refl)
    as (R & _ & S & _ & F).
  split; [exact R|]. split; [apply S|].
  rewrite (F "3fa9007c"); [reflexivity|discriminate].
Defined.

(** The clean-up at time 2000 removes "promo" and keeps the other entry
    as it is. *)
Lemma cleanup_removes_exactly_expired_witness :
  urlDatabase (snd (Server.cleanupExpiredUrls 2000 Demo.state))
  = [(JString "3fa9007c", 1%nat)]
  /\ heap (snd (Server.cleanupExpiredUrls 2000 Demo.state)) = heap Demo.state
  /\ Server.lookup "3fa9007c" (snd (Server.cleanupExpiredUrls 2000 Demo.state))
     = Some (1%nat, Demo.docs)
  /\ Map.has (JString "promo") (urlDatabase (snd (Server.cleanupExpiredUrls 2000 Demo.state)))
     = false.
Proof.
  destruct (cleanup_removes_exactly_expired 2000 Demo.state Demo_state_wf)
    as (Hheap & Hdb & _ & Hgone & Hkept & _).
  split; [rewrite Hdb; reflexivity|]. split; [exact Hheap|].
  split; [apply Hkept; reflexivity|].
  apply (Hgone "promo" 0%nat Demo.promo); reflexivity.
Defined.

(** Three redirects to "promo" while it lives bring its count from 3 to
    6 and leave the time of the last one. *)
Lemma accessCount_counts_redirects_witness :
  exists e',
    Server.lookup "promo"
      (Run.run Demo.isWebUri Demo.toDataURL
         (Run.visits [(1200, Demo.get_promo); (1300, Demo.get_promo);
                      (1400, Demo.get_promo)])
         Demo.state) = Some (0%nat, e')
    /\ accessCount e' = 3 + 3
    /\ lastAccessed e' = Some 1400.
Proof.
  destruct (accessCount_counts_redirects Demo.isWebUri Demo.toDataURL)
    as (_ & _ & Hn & _).
  apply (Hn [(1200, Demo.get_promo); (1300, Demo.get_promo);
             (1400, Demo.get_promo)] Demo.state "promo" 0%nat Demo.promo);
    [reflexivity|].
  repeat constructor.
Defined.

(** A redirect without headers counts under "Other" and "Direct". *)
Lemma browser_classification_witness :
  UrlEntry.getBrowserFromUserAgent
    "Mozilla/5.0 (X11; Linux x86_64) AppleWebKit/537.36 Chrome/120.0 Safari/537.36 Edg/120.0"
  = "Chrome"
  /\ exists e',
       Server.lookup "promo" (snd (Server.redirect 1200 Demo.get_promo Demo.state))
       = Some (0%nat, e')
       /\ Map.get "Other" (browserStats e') = Some 3
       /\ Map.get "Direct" (referrers e') = Some 3.
Proof.
  destruct (browser_classification) as (Hua & _ & Hred).
  split.
  - apply (Hua _); [apply includes_false; reflexivity|apply includes_spec; reflexivity].
  - destruct (Hred 1200 Demo.get_promo Demo.state 0%nat Demo.promo
                eq_refl eq_refl) as (e' & _ & L & Hb & Hr).
    exists e'. split; [exact L|].
    split; [apply (Hb eq_refl)|apply (Hr eq_refl)].
Defined.

(** The sample entry "promo" survives the round trip unchanged. *)
Lemma fromJSON_toJSON_roundtrip_witness :
  UrlEntry.fromJSON (UrlEntry.toJSON Demo.promo) = Some Demo.promo.
Proof.
  destruct (fromJSON_toJSON_roundtrip Demo.promo)
    as (e' & H & _ & _ & _ & _ & _ & _ & _ & _ & _ & _ & _ & _ & _ & Hid).
  - repeat constructor; simpl; intuition discriminate.
  - repeat constructor; simpl; intuition discriminate.
  - rewrite H. f_equal. apply Hid.
    + intros k [<-|[<-|[]]]; reflexivity.
    + intros k [<-|[<-|[]]]; reflexivity.
Defined.

(** Requests with [ttl] 0 and with [ttl] "soon" create entries that are
    not expired at any time. *)
Lemma falsy_ttl_never_expires_witness :
  (exists id e,
      Server.lookup id
        (snd (Server.shorten Demo.isWebUri Demo.toDataURL 1200 1210 Demo.random2
                (Demo.blog_ttl (JNumber (Num 0))) Demo.state))
      = Some (2%nat, e)
      /\ forall now', UrlEntry.isExpired now' e = false)
  /\ (exists id e,
        Server.lookup id
          (snd (Server.shorten Demo.isWebUri Demo.toDataURL 1200 1210 Demo.random2
                  (Demo.blog_ttl (JString "soon")) Demo.state))
        = Some (2%nat, e)
        /\ ttl e = Some NaN
        /\ forall now', UrlEntry.isExpired now' e = false).
Proof.
  destruct (falsy_ttl_never_expires Demo.isWebUri Demo.toDataURL)
    as (Hcreate & _).
  split.
  - destruct (Hcreate 1200 1210 Demo.random2 (Demo.blog_ttl (JNumber (Num 0)))
                Demo.state (or_introl eq_refl) (conj eq_refl eq_refl) eq_refl)
      as (id & e & _ & L & _ & Hnever).
    now exists id, e.
  - destruct (Hcreate 1200 1210 Demo.random2 (Demo.blog_ttl (JString "soon"))
                Demo.state
                (or_intror (ex_intro _ "soon" (conj eq_refl eq_refl)))
                (conj eq_refl eq_refl) eq_refl)
      as (id & e & S & L & _ & Hnever).
    exists id, e. split; [exact L|]. split; [|exact Hnever].
    pose proof (f_equal (fun p => heap (snd p) !! 2%nat) S) as S'.
    vm_compute in S'. injection S' as <-. reflexivity.
Defined.

(** * Further properties of the handlers *)

(** ** Generated identifiers *)

Lemma hex_byte_shape b :
  exists c1 c2,
    hex_byte b = String c1 (String c2 EmptyString)
    /\ is_lower_hex c1 = true /\ is_lower_hex c2 = true.
Proof.
  exists (hex_digit (Byte.to_N b / 16)), (hex_digit (Byte.to_N b mod 16)).
  split; [reflexivity|]. destruct b; split; reflexivity.
Qed.

Lemma lower_hex_slug_char c : is_lower_hex c = true -> slug_char c = true.
Proof.
  destruct c as [[] [] [] [] [] [] [] []]; vm_compute; congruence.
Qed.

(** X1. Whatever bytes are drawn, [generateShortId] returns eight
    characters, each one of [0-9a-f]; the result is never empty and passes
    [isValidCustomSlug], so generated identifiers and custom slugs share one
    alphabet. *)
Theorem generateShortId_format random :
  String.length (generateShortId random) = 8%nat
  /\ JsString.all_chars is_lower_hex (generateShortId random) = true
  /\ JsString.truthy (generateShortId random) = true
  /\ isValidCustomSlug (generateShortId random) = Normal true.
Proof.
  destruct random as [[[b0 b1] b2] b3]. unfold generateShortId.
  destruct (hex_byte_shape b0) as (c0 & d0 & -> & Hc0 & Hd0).
  destruct (hex_byte_shape b1) as (c1 & d1 & -> & Hc1 & Hd1).
  destruct (hex_byte_shape b2) as (c2 & d2 & -> & Hc2 & Hd2).
  destruct (hex_byte_shape b3) as (c3 & d3 & -> & Hc3 & Hd3).
  unfold isValidCustomSlug, slug_pattern. simpl.
  rewrite Hc0, Hd0, Hc1, Hd1, Hc2, Hd2, Hc3, Hd3.
  rewrite !lower_hex_slug_char by assumption. repeat split.
Qed.

(** ** What [shorten] refuses, and what it creates *)

Section ShortenMore.
Variable isWebUri : string -> bool.
Variable toDataURL : string -> option string.

Local Abbreviation shorten := (Server.shorten isWebUri toDataURL).

(** X2. A request whose [longUrl] the validator refuses is answered 400
    "Invalid URL format" whatever its slug; with a valid [longUrl], a
    truthy custom slug whose text holds a character outside the class is
    answered 400 "Invalid custom slug format", even if that slug is a key
    of the table or a live duplicate exists. Both leave the state as it
    was. An empty custom slug, like any falsy one, is treated as no slug
    at all. *)
Theorem shorten_invalid_rejected now later random req st :
  (Server.isValidUrl isWebUri (body_longUrl req) = false ->
   shorten now later random req st
   = (Json 400 (ErrorBody "Invalid URL format"), st))
  /\ (forall slug : JsVal,
        Server.isValidUrl isWebUri (body_longUrl req) = true ->
        body_customSlug req = slug ->
        JsVal.truthy slug = true ->
        isValidCustomSlug slug = Normal false ->
        shorten now later random req st
        = (Json 400 (ErrorBody "Invalid custom slug format"), st))
  /\ (JsVal.truthy (body_customSlug req) = false ->
      shorten now later random req st
      = shorten now later random (without_slug req) st).
Proof.
  split; [|split].
  - intros H. unfold Server.shorten, Server.begin. now rewrite H.
  - intros slug Hurl Hslug T Hbad.
    unfold Server.shorten, Server.begin, Server.check_customSlug.
    now rewrite Hurl, Hslug, T, Hbad.
  - intros Hslug.
    unfold Server.shorten, Server.begin, Server.check_customSlug,
      Server.construct, Server.parsed_ttl, UrlEntry.new, JsVal.or, without_slug.
    cbn [body_longUrl body_ttl body_customSlug req_protocol req_host
         JsVal.truthy].
    now rewrite Hslug.
Qed.

(** The entries of the table after a key has been bound to a new
    object. *)
Lemma lookup_after_create st (id : JsVal) e k :
  Server.lookup k
    {| heap := (heap st ++ [e])%list;
       urlDatabase := Map.set id (length (heap st)) (urlDatabase st) |}
  = if JsVal.eqb k id then Some (length (heap st), e)
    else match Server.lookup k st with
         | Some ae => Some ae
         | None =>
             match Map.get k (urlDatabase st) with
             | Some a => if Nat.eqb a (length (heap st))
                         then Some (a, e) else None
             | None => None
             end
         end.
Proof.
  unfold Server.lookup. cbn [heap urlDatabase].
  destruct (JsVal.eqb_spec k id) as [->|Hne].
  - rewrite Map_get_set_eq. now rewrite list_lookup_middle.
  - rewrite Map_get_set_ne by assumption.
    destruct (Map.get k (urlDatabase st)) as [a|]; [|reflexivity].
    destruct (heap st !! a) as [e0|] eqn:Ha.
    + now rewrite (lookup_app_l_Some _ _ _ _ Ha).
    + apply lookup_ge_None in Ha. rewrite lookup_app_r by assumption.
      destruct (Nat.eqb_spec a (length (heap st))) as [->|Hna].
      * now rewrite Nat.sub_diag.
      * destruct (a - length (heap st))%nat eqn:D; [lia|]. simpl.
        now destruct n.
Qed.

(** No entry of the table with the requested [longUrl] is live: the
    duplicate check finds nothing. *)
Lemma no_live_duplicate now url st :
  (forall k e, In (k, e) (Server.entries st) ->
               longUrl e = url -> UrlEntry.isExpired now e = true) ->
  Server.find_existing now url (Server.entries st) = None.
Proof.
  intros Hdead.
  destruct (Server.find_existing now url (Server.entries st))
    as [[k e]|] eqn:F; [|reflexivity].
  apply find_existing_Some in F as (I & Hu & Hl).
  rewrite (Hdead k e I Hu) in Hl. discriminate.
Qed.

(** X3. A request that passes validation while no live entry holds its
    [longUrl] (entries with that [longUrl] may exist, all expired), and
    that no other request overlaps, is answered 500, with nothing filed,
    when its [ttl] cannot be converted to a string. Otherwise it creates
    an entry: the answer carries the custom slug if a truthy one was given
    and the generated identifier otherwise, with the statistics of the
    entry at the clock reading of the answer; the entry is filed under
    that identifier with the same [shortId], the requested [longUrl],
    creation time [now], no access recorded and the QR code of its short
    link, in which the identifier appears as text; a statistics request
    for an identifier that is a string finds it; and every other key keeps
    the entry it had. (Slugs that are numbers beyond the safe integers are
    left out.) *)
Theorem shorten_creates now later random req st :
  Server.accepted isWebUri req st ->
  (forall k e, In (k, e) (Server.entries st) ->
               longUrl e = body_longUrl req ->
               UrlEntry.isExpired now e = true) ->
  (Server.parsed_ttl req = Throw ->
   shorten now later random req st = (Json 500 internal_error, st))
  /\ (Server.parsed_ttl req <> Throw ->
      JsVal.safe (body_customSlug req) = true ->
      exists id e text,
        id = JsVal.or (body_customSlug req) (JString (generateShortId random))
        /\ (JsVal.truthy (body_customSlug req) = true ->
            id = body_customSlug req)
        /\ (JsVal.truthy (body_customSlug req) = false ->
            id = JString (generateShortId random))
        /\ JsVal.toString id = Normal text
        /\ fst (shorten now later random req st)
           = Json 200 (EntryBody id (body_longUrl req)
                         (UrlEntry.getStats later e))
        /\ Server.lookup id (snd (shorten now later random req st))
           = Some (length (heap st), e)
        /\ shortId e = id /\ longUrl e = body_longUrl req
        /\ createdAt e = now /\ accessCount e = 0 /\ lastAccessed e = None
        /\ referrers e = [] /\ browserStats e = []
        /\ qrCode e
           = toDataURL (req_protocol req ++ "://" ++ req_host req ++ "/"
                        ++ text)
        /\ (forall now' (s : string),
              id = JString s ->
              Server.stats now' s (snd (shorten now later random req st))
              = (Json 200 (EntryBody id (body_longUrl req)
                             (UrlEntry.getStats now' e)),
                 snd (shorten now later random req st)))
        /\ (forall k a e0,
              k <> id -> Server.lookup k st = Some (a, e0) ->
              Server.lookup k (snd (shorten now later random req st))
              = Some (a, e0))).
Proof.
  intros Hacc Hdead.
  pose proof (no_live_duplicate now (body_longUrl req) st Hdead) as F.
  split.
  - intros Hp. apply shorten_throws; [assumption..|].
    unfold Server.construct. now rewrite Hp.
  - intros Hp _.
    destruct (Server.parsed_ttl req) as [parsed|] eqn:P; [|contradiction].
    destruct (construct_accepted isWebUri toDataURL now random req st parsed
                Hacc P) as (p & C & _).
    destruct (created_fields toDataURL now random req p C)
      as (Hid & Hp_id & Hu & _ & Hc & _ & Hn & Hl & Hr & Hb & text & T & Hq).
    rewrite (shorten_miss isWebUri toDataURL now later random req st p Hacc F C).
    cbn [fst snd].
    assert (L : Server.lookup (pending_shortId p) (Server.install toDataURL p st)
                = Some (length (heap st), Server.created toDataURL p)).
    { rewrite (lookup_install toDataURL). now rewrite JsVal_eqb_refl. }
    exists (pending_shortId p), (Server.created toDataURL p), text.
    repeat split; try assumption.
    + rewrite Hp_id. unfold JsVal.or. now intros ->.
    + rewrite Hp_id. unfold JsVal.or. now intros ->.
    + intros now' s Hs. unfold Server.stats. rewrite <- Hs, L.
      now rewrite Hid, Hu.
    + intros k a e0 Hk Le. rewrite (lookup_install toDataURL).
      destruct (JsVal.eqb_spec k (pending_shortId p)); [contradiction|].
      rewrite Le. apply lookup_Some in Le as [_ Le].
      apply lookup_lt_Some in Le. now apply Nat.ltb_lt in Le as ->.
Qed.

End ShortenMore.

(** ** Numbers through [parseInt] *)

Lemma digit_char_value d :
  (d < 10)%N -> JsNumber.radix_digit 10 (JsVal.digit_char d) = Some (Z.of_N d).
Proof.
  intros H. rewrite <- (N2Nat.id d) in *.
  assert (Hn : (N.to_nat d < 10)%nat) by lia.
  generalize dependent (N.to_nat d). clear d. intros n _ Hn.
  do 10 (destruct n as [|n]; [reflexivity|]). lia.
Qed.

Lemma digit_char_is_digit d : (d < 10)%N -> Obj.is_digit (JsVal.digit_char d) = true.
Proof.
  intros H. rewrite <- (N2Nat.id d) in *.
  assert (Hn : (N.to_nat d < 10)%nat) by lia.
  generalize dependent (N.to_nat d). clear d. intros n _ Hn.
  do 10 (destruct n as [|n]; [reflexivity|]). lia.
Qed.

Lemma size_nat_bound p : (N.pos p < 2 ^ N.of_nat (Pos.size_nat p))%N.
Proof.
  induction p as [p IH|p IH|]; cbn [Pos.size_nat].
  - rewrite Nat2N.inj_succ, N.pow_succ_r'.
    change (N.pos p~1) with (2 * N.pos p + 1)%N.
    generalize dependent (2 ^ N.of_nat (Pos.size_nat p))%N.
    generalize (N.pos p). intros; lia.
  - rewrite Nat2N.inj_succ, N.pow_succ_r'.
    change (N.pos p~0) with (2 * N.pos p)%N.
    generalize dependent (2 ^ N.of_nat (Pos.size_nat p))%N.
    generalize (N.pos p). intros; lia.
  - reflexivity.
Qed.

(** Reading back the digits written for [n] continues from the value read
    so far, shifted. *)
Lemma read_digits_digits fuel : forall n acc seen p,
  (0 < n)%N -> (n < 2 ^ N.of_nat fuel)%N ->
  exists k,
    JsNumber.read_digits 10 (JsVal.digits fuel n acc) seen p
    = JsNumber.read_digits 10 acc true (p * 10 ^ k + Z.of_N n) /\ 0 <= k.
Proof.
  induction fuel as [|fuel IH]; intros n acc seen p Hpos Hlt.
  - simpl in Hlt. lia.
  - cbn [JsVal.digits].
    assert (Hd : (n mod 10 < 10)%N) by (apply N.mod_lt; lia).
    destruct (N.eqb_spec (n / 10) 0) as [Hq|Hq].
    + exists 1. split; [|lia]. cbn [JsNumber.read_digits].
      rewrite (digit_char_value _ Hd).
      assert (Hn : n = (n mod 10)%N).
      { rewrite (N.div_mod n 10) at 1 by lia. rewrite Hq. lia. }
      f_equal. rewrite Z.pow_1_r. rewrite Hn at 2. reflexivity.
    + destruct (IH (n / 10)%N (String (JsVal.digit_char (n mod 10)) acc) seen p)
        as [k [E Hk]].
      * now apply N.neq_0_lt_0.
      * rewrite Nat2N.inj_succ, N.pow_succ_r' in Hlt.
        apply N.Div0.div_lt_upper_bound.
        generalize dependent (2 ^ N.of_nat fuel)%N. intros; lia.
      * exists (k + 1). split; [|lia]. rewrite E.
        cbn [JsNumber.read_digits]. rewrite (digit_char_value _ Hd).
        f_equal. rewrite Z.pow_add_r, Z.pow_1_r by lia.
        assert (Hn : Z.of_N n = 10 * Z.of_N (n / 10) + Z.of_N (n mod 10)).
        { rewrite (N.div_mod n 10) at 1 by lia. lia. }
        rewrite Hn. generalize (10 ^ k). intros; ring.
Qed.

Lemma digits_all_digit fuel : forall n acc,
  JsString.all_chars Obj.is_digit acc = true ->
  JsString.all_chars Obj.is_digit (JsVal.digits fuel n acc) = true.
Proof.
  induction fuel as [|fuel IH]; intros n acc Hacc; [exact Hacc|].
  cbn [JsVal.digits].
  assert (Hd : (n mod 10 < 10)%N) by (apply N.mod_lt; lia).
  assert (H : JsString.all_chars Obj.is_digit
                (String (JsVal.digit_char (n mod 10)) acc) = true).
  { simpl. now rewrite (digit_char_is_digit _ Hd). }
  destruct (n / 10 =? 0)%N; [exact H|now apply IH].
Qed.

Lemma digits_not_empty fuel n acc :
  (0 < fuel)%nat -> JsVal.digits fuel n acc <> EmptyString.
Proof.
  assert (G : forall f m s, s <> EmptyString -> JsVal.digits f m s <> EmptyString).
  { induction f as [|f IHf]; intros m s Hs; [exact Hs|]. cbn [JsVal.digits].
    destruct (m / 10 =? 0)%N; [discriminate|]. apply IHf. discriminate. }
  destruct fuel as [|fuel]; [lia|]. intros _. cbn [JsVal.digits].
  destruct (n / 10 =? 0)%N; [discriminate|]. apply G. discriminate.
Qed.

Lemma is_digit_cases c :
  Obj.is_digit c = true ->
  In c ["0"; "1"; "2"; "3"; "4"; "5"; "6"; "7"; "8"; "9"]%char.
Proof.
  destruct c as [[] [] [] [] [] [] [] []]; intros H;
    try discriminate H; simpl;
    repeat (first [left; reflexivity | right]).
Qed.

(** An integer up to [2^53] in magnitude is a double. *)
Lemma to_double_safe z : JsNumber.safe z = true -> JsNumber.to_double z = z.
Proof.
  unfold JsNumber.safe, JsNumber.to_double. intros H. apply Z.leb_le in H.
  destruct (Z.leb_spec (Z.log2 (Z.abs z) - 52) 0) as [_|Hd]; [reflexivity|].
  assert (Hpos : 0 < Z.abs z).
  { destruct (Z.eq_dec (Z.abs z) 0) as [E|E]; [|lia].
    rewrite E in Hd. simpl in Hd. lia. }
  assert (Hlow : 2 ^ 53 <= Z.abs z) by (apply Z.log2_le_pow2; lia).
  change (2 ^ 53) with 9007199254740992 in Hlow.
  assert (Hz : z = 9007199254740992 \/ z = - 9007199254740992) by lia.
  destruct Hz as [-> | ->]; reflexivity.
Qed.

(** On a string of decimal digits, with or without a minus sign,
    [parseInt] skips nothing and reads in base ten. *)
Lemma parseInt_digit_string s :
  s <> EmptyString -> JsString.all_chars Obj.is_digit s = true ->
  JsNumber.parseInt_string s
  = match JsNumber.read_digits 10 s false 0 with
    | Some v => Num (JsNumber.to_double v)
    | None => NaN
    end
  /\ JsNumber.parseInt_string (String "-" s)
     = match JsNumber.read_digits 10 s false 0 with
       | Some v => Num (- JsNumber.to_double v)
       | None => NaN
       end.
Proof.
  intros Hne Hall. destruct s as [|c1 r]; [congruence|]. clear Hne.
  simpl in Hall. apply andb_true_iff in Hall as [H1 Hr].
  assert (G : forall o : option Z,
             match o with
             | Some v => Num (1 * JsNumber.to_double v) | None => NaN
             end
             = match o with
               | Some v => Num (JsNumber.to_double v) | None => NaN
               end
             /\ match o with
                | Some v => Num (-1 * JsNumber.to_double v) | None => NaN
                end
                = match o with
                  | Some v => Num (- JsNumber.to_double v) | None => NaN
                  end).
  { intros [v|]; split; try reflexivity; f_equal; lia. }
  apply is_digit_cases in H1.
  destruct H1 as [<-|H1].
  - destruct r as [|c2 r]; [split; reflexivity|].
    simpl in Hr. apply andb_true_iff in Hr as [H2 _].
    apply is_digit_cases in H2.
    repeat (destruct H2 as [<-|H2];
            [unfold JsNumber.parseInt_string;
             cbn -[JsNumber.read_digits JsNumber.to_double Z.mul]; apply G|]).
    destruct H2.
  - repeat (destruct H1 as [<-|H1];
            [unfold JsNumber.parseInt_string;
             cbn -[JsNumber.read_digits JsNumber.to_double Z.mul]; apply G|]).
    destruct H1.
Qed.

Lemma safe_neg p : JsNumber.safe (Z.neg p) = JsNumber.safe (Z.pos p).
Proof. unfold JsNumber.safe. cbn [Z.abs]. reflexivity. Qed.

(** The numeral written for a safe integer is read back as that
    integer. *)
Lemma parseInt_numeral (p : positive) :
  JsNumber.safe (Z.pos p) = true ->
  JsNumber.parseInt_string (JsVal.digits (Pos.size_nat p) (N.pos p) "")
  = Num (Z.pos p)
  /\ JsNumber.parseInt_string
       (String "-" (JsVal.digits (Pos.size_nat p) (N.pos p) ""))
     = Num (Z.neg p).
Proof.
  intros Hs.
  destruct (parseInt_digit_string (JsVal.digits (Pos.size_nat p) (N.pos p) ""))
    as [E1 E2].
  - apply digits_not_empty. destruct p; simpl; lia.
  - now apply digits_all_digit.
  - destruct (read_digits_digits (Pos.size_nat p) (N.pos p) "" false 0)
      as [k [R _]]; [lia|apply size_nat_bound|].
    rewrite R in E1, E2.
    change (JsNumber.read_digits 10 "" true (0 * 10 ^ k + Z.of_N (N.pos p)))
      with (Some (Z.pos p)) in E1, E2.
    cbv beta iota in E1, E2.
    rewrite (to_double_safe _ Hs) in E1, E2. now split.
Qed.

(** [parseInt] gives back every safe integer passed as a number. *)
Lemma parseInt_Number z :
  JsNumber.safe z = true -> JsVal.parseInt (JNumber (Num z)) = Normal (Num z).
Proof.
  intros Hsafe. destruct z as [|p|p]; [reflexivity| |];
    unfold JsVal.parseInt; cbn [JsVal.toString JsVal.Number_toString].
  - now rewrite (proj1 (parseInt_numeral p Hsafe)).
  - rewrite safe_neg in Hsafe. now rewrite (proj2 (parseInt_numeral p Hsafe)).
Qed.

Lemma read_decimal s : forall seen q,
  JsString.all_chars Obj.is_digit s = true ->
  s <> EmptyString \/ seen = true ->
  JsNumber.read_digits 10 s seen (Z.of_N q)
  = Some (Z.of_N (Obj.decimal_value s q)).
Proof.
  induction s as [|c s IH]; intros seen q Hall Hs.
  - destruct Hs as [Hs| ->]; [congruence|reflexivity].
  - simpl in Hall. apply andb_true_iff in Hall as [Hc Hall].
    cbn [JsNumber.read_digits Obj.decimal_value].
    assert (Hd : JsNumber.radix_digit 10 c = Some (Z.of_N (N_of_ascii c - 48))).
    { apply is_digit_cases in Hc.
      repeat (destruct Hc as [<-|Hc]; [reflexivity|]). destruct Hc. }
    rewrite Hd.
    replace (Z.of_N q * 10 + Z.of_N (N_of_ascii c - 48))
      with (Z.of_N (q * 10 + (N_of_ascii c - 48))) by lia.
    apply IH; [assumption|now right].
Qed.

(** ** Time-to-live, from the request to the redirect *)

Section TtlMore.
Variable isWebUri : string -> bool.
Variable toDataURL : string -> option string.

Local Abbreviation shorten := (Server.shorten isWebUri toDataURL).

(** X4. When a request that no other request overlaps creates an entry
    and its [ttl] is a non-zero safe integer [t], sent as a number or as a
    string of decimal digits, the entry stores exactly [t]: it is expired
    at the times later than [now + t] and only then, which is also what
    the answer reports at its own clock reading. When the identifier is a
    string, a redirect to it up to [now + t] goes to the [longUrl]; a
    later one answers 404 "URL has expired" and removes the identifier.
    With a negative [t] the entry is expired from the moment it is
    created. *)
Theorem shorten_ttl_expiry now later random req st t :
  Server.accepted isWebUri req st ->
  (forall k e, In (k, e) (Server.entries st) ->
               longUrl e = body_longUrl req ->
               UrlEntry.isExpired now e = true) ->
  t <> 0 ->
  JsNumber.safe t = true -> JsNumber.safe (now + t) = true ->
  (body_ttl req = JNumber (Num t)
   \/ exists s, body_ttl req = JString s /\ s <> EmptyString
                /\ JsString.all_chars Obj.is_digit s = true
                /\ Z.of_N (Obj.decimal_value s 0) = t) ->
  let st' := snd (shorten now later random req st) in
  let id := JsVal.or (body_customSlug req) (JString (generateShortId random)) in
  exists e,
    Server.lookup id st' = Some (length (heap st), e)
    /\ ttl e = Some (Num t) /\ createdAt e = now
    /\ (forall now', UrlEntry.isExpired now' e = (now' >? now + t))
    /\ (exists stats,
          fst (shorten now later random req st)
          = Json 200 (EntryBody id (body_longUrl req) stats)
          /\ stats_ttl stats = Some (Num t)
          /\ stats_isExpired stats = (later >? now + t))
    /\ (t < 0 -> UrlEntry.isExpired now e = true)
    /\ (forall now' (s : string) ref ua,
          id = JString s -> now' <= now + t ->
          fst (Server.redirect now'
                 {| param_shortId := s; header_Referrer := ref;
                    header_UserAgent := ua |} st')
          = Redirect (body_longUrl req))
    /\ (forall now' (s : string) ref ua,
          id = JString s -> now + t < now' ->
          Server.redirect now'
            {| param_shortId := s; header_Referrer := ref;
               header_UserAgent := ua |} st'
          = (Send 404 "URL has expired",
             {| heap := heap st';
                urlDatabase := Map.delete id (urlDatabase st') |})).
Proof.
  intros Hacc Hdead Ht Hsafe _ Hreq st' id.
  pose proof (no_live_duplicate now (body_longUrl req) st Hdead) as F.
  assert (P : Server.parsed_ttl req = Normal (Some (Num t))).
  { unfold Server.parsed_ttl.
    destruct Hreq as [-> | (s & -> & Hne & Hall & Hv)].
    - rewrite (parseInt_Number t Hsafe). cbn [JsVal.truthy JsNumber.truthy].
      destruct (Z.eqb_spec t 0); [contradiction|reflexivity].
    - cbn [JsVal.truthy]. destruct s as [|c s]; [congruence|].
      cbn [JsString.truthy]. unfold JsVal.parseInt. cbn [JsVal.toString].
      destruct (parseInt_digit_string (String c s)) as [-> _];
        [discriminate|assumption|].
      pose proof (read_decimal (String c s) false 0%N Hall (or_introl Hne)) as R.
      change (Z.of_N 0) with 0 in R. rewrite R, Hv.
      now rewrite (to_double_safe t Hsafe). }
  destruct (construct_accepted isWebUri toDataURL now random req st _ Hacc P)
    as (p & C & Httl).
  destruct (created_fields toDataURL now random req p C)
    as (_ & Hp_id & Hu & _ & Hc & _).
  fold id in Hp_id.
  pose proof (shorten_miss isWebUri toDataURL now later random req st p Hacc F C)
    as M.
  rewrite Hp_id in M.
  set (e := Server.created toDataURL p) in *.
  assert (L : Server.lookup id st' = Some (length (heap st), e)).
  { subst st'. rewrite M. cbn [snd]. rewrite (lookup_install toDataURL).
    now rewrite Hp_id, JsVal_eqb_refl. }
  assert (Hexp : forall now', UrlEntry.isExpired now' e = (now' >? now + t)).
  { intros now'. rewrite (isExpired_number now' e t Httl Ht). now rewrite Hc. }
  exists e. split; [exact L|]. split; [exact Httl|]. split; [exact Hc|].
  split; [exact Hexp|]. split; [|split; [|split]].
  - eexists. rewrite M. cbn [fst]. split; [reflexivity|].
    cbn [UrlEntry.getStats stats_ttl stats_isExpired]. now split.
  - intros Hneg. rewrite Hexp. apply Z.gtb_gt. lia.
  - intros now' s ref ua Hs Hle. unfold Server.redirect. cbn [param_shortId].
    rewrite <- Hs, L, Hexp.
    destruct (Z.gtb_spec now' (now + t)) as [Hgt|_]; [lia|].
    cbn [fst UrlEntry.updateStats longUrl]. now rewrite Hu.
  - intros now' s ref ua Hs Hlt. unfold Server.redirect. cbn [param_shortId].
    rewrite <- Hs, L, Hexp.
    destruct (Z.gtb_spec now' (now + t)) as [_|Hle]; [reflexivity|lia].
Qed.

End TtlMore.

(** ** Object identity along runs *)

Lemma distinct_key_of_address {K} {same : KeyEq K} {V} (l : list (K * V)) k k' a :
  List.NoDup (List.map snd l) -> In (k, a) l -> In (k', a) l -> k = k'.
Proof.
  induction l as [|[k0 a0] l IH]; simpl; [intros _ []|].
  intros Hnd. inversion Hnd as [|? ? Hnot Hnd']; subst.
  assert (Hin : forall x, In (x, a0) l -> In a0 (List.map snd l)).
  { intros x I. apply in_map_iff. now exists (x, a0). }
  intros [E|I] [E'|I'].
  - congruence.
  - injection E as -> ->. exfalso. apply Hnot. now apply (Hin k').
  - injection E' as -> ->. exfalso. apply Hnot. now apply (Hin k).
  - now apply IH.
Qed.

Lemma Map_set_values {K} {same : KeyEq K} {V} (m : list (K * V)) k v x :
  In x (List.map snd (Map.set k v m)) -> x = v \/ In x (List.map snd m).
Proof.
  intros I. apply in_map_iff in I as [[k' v'] [E I]]. simpl in E. subst v'.
  apply Map_In_set in I as [[_ ->]|I]; [now left|right].
  apply in_map_iff. now exists (k', x).
Qed.

Lemma Map_set_distinct {K} {same : KeyEq K} {V} (m : list (K * V)) k v :
  List.NoDup (List.map snd m) -> ~ In v (List.map snd m) ->
  List.NoDup (List.map snd (Map.set k v m)).
Proof.
  induction m as [|[k0 v0] m IH]; simpl; intros Hnd Hv.
  - repeat constructor. intros [].
  - inversion Hnd as [|? ? Hnot Hnd']; subst.
    destruct (same_value k k0); simpl.
    + constructor; [|assumption]. intros I. apply Hv. now right.
    + constructor.
      * intros I. apply Map_set_values in I as [->|I]; [|contradiction].
        apply Hv. now left.
      * apply IH; [assumption|]. intros I. apply Hv. now right.
Qed.

Lemma filter_distinct {K} {same : KeyEq K} {V} (P : K * V -> bool) (m : list (K * V)) :
  List.NoDup (List.map snd m) -> List.NoDup (List.map snd (List.filter P m)).
Proof.
  induction m as [|[k0 v0] m IH]; simpl; [trivial|].
  intros Hnd. inversion Hnd as [|? ? Hnot Hnd']; subst.
  destruct (P (k0, v0)); simpl; [|now apply IH].
  constructor; [|now apply IH].
  intros I. apply Hnot. apply in_map_iff in I as [x [E I]].
  apply filter_In in I as [I _]. apply in_map_iff. now exists x.
Qed.

Section Identity.
Variable isWebUri : string -> bool.
Variable toDataURL : string -> option string.

Local Abbreviation shorten := (Server.shorten isWebUri toDataURL).
Local Abbreviation handle := (Run.handle isWebUri toDataURL).
Local Abbreviation run := (Run.run isWebUri toDataURL).

Lemma handle_addresses_distinct now ev st :
  State_wf st -> addresses_distinct st -> addresses_distinct (handle now ev st).
Proof.
  intros (Hwf & Halloc & _) Hd. unfold addresses_distinct in *.
  assert (Hinst : forall p,
             List.NoDup
               (List.map snd (urlDatabase (Server.install toDataURL p st)))).
  { intros p. unfold Server.install. cbn [urlDatabase].
    apply Map_set_distinct; [exact Hd|].
    intros I. apply in_map_iff in I as [[k a] [E I]]. simpl in E. subst a.
    apply Halloc in I. lia. }
  destruct ev as [random req|began random req|req|id| |]; simpl.
  - destruct (Server.begin isWebUri now random req st); [exact Hd|apply Hinst].
  - destruct (Server.construct began random req); [apply Hinst|exact Hd].
  - unfold Server.redirect.
    destruct (Server.lookup (param_shortId req) st) as [[a e]|]; [|exact Hd].
    destruct (UrlEntry.isExpired now e); cbn [snd urlDatabase]; [|exact Hd].
    now apply filter_distinct.
  - unfold Server.stats. now destruct (Server.lookup id st) as [[? ?]|].
  - exact Hd.
  - rewrite (cleanup_filter now st Hwf). now apply filter_distinct.
Qed.

Lemma run_addresses_distinct trace : forall st,
  State_wf st -> addresses_distinct st -> addresses_distinct (run trace st).
Proof.
  induction trace as [|[now ev] trace IH]; intros st Hwf Hd; [exact Hd|].
  apply IH; [now apply handle_State_wf|now apply handle_addresses_distinct].
Qed.

(** X5. Every state the server reaches from an empty table, whatever the
    requests, random draws and clock readings, is well-formed: the keys of
    the table are distinct, each is bound to an entry whose [shortId] is
    that key, the two maps of every entry have distinct keys, and distinct
    keys are bound to distinct entries. *)
Theorem reachable_state_invariants trace :
  let st := run trace empty_state in
  Map.wf (urlDatabase st)
  /\ (forall k, Map.has k (urlDatabase st) = true ->
                exists a e, Server.lookup k st = Some (a, e) /\ shortId e = k)
  /\ (forall a e, heap st !! a = Some e ->
                  Map.wf (referrers e) /\ Map.wf (browserStats e))
  /\ addresses_distinct st.
Proof.
  intros st.
  pose proof (run_State_wf isWebUri toDataURL trace empty_state State_wf_empty)
    as Hst. fold st in Hst.
  pose proof Hst as (Hwf & Halloc & Hkeys & Hmaps).
  split; [exact Hwf|]. split; [|split; [exact Hmaps|]].
  - intros k Hk. unfold Map.has in Hk.
    destruct (Map.get k (urlDatabase st)) as [a|] eqn:G; [|discriminate].
    pose proof (Map_get_In _ _ _ G) as I.
    destruct (lookup_lt_is_Some_2 (heap st) a (Halloc k a I)) as [e He].
    exists a, e. split; [now apply lookup_Some|now apply (Hkeys k a)].
  - apply run_addresses_distinct; [apply State_wf_empty|constructor].
Qed.

(** X6. A redirect request for a key that is not in the table answers 404
    "URL not found" and changes nothing. Whatever a redirect request does
    to its own key (an access recorded, or the key removed because the
    entry is expired), every other key of a table whose keys are bound to
    distinct entries keeps its entry unchanged. *)
Theorem redirect_other_keys now req st :
  addresses_distinct st ->
  (Server.lookup (param_shortId req) st = None ->
   Server.redirect now req st = (Send 404 "URL not found", st))
  /\ (forall k : JsVal, k <> param_shortId req ->
                Server.lookup k (snd (Server.redirect now req st))
                = Server.lookup k st).
Proof.
  intros Hd. split; [intros L; unfold Server.redirect; now rewrite L|].
  intros k Hk. unfold Server.redirect.
  destruct (Server.lookup (param_shortId req) st) as [[a e]|] eqn:L;
    [|reflexivity].
  apply lookup_Some in L as [Lk La].
  destruct (UrlEntry.isExpired now e); cbn [snd]; unfold Server.lookup;
    cbn [heap urlDatabase].
  - now rewrite Map_get_delete_ne.
  - destruct (Map.get k (urlDatabase st)) as [a'|] eqn:G; [|reflexivity].
    rewrite list_lookup_insert_ne; [reflexivity|].
    intros <-. apply Hk.
    apply (distinct_key_of_address (urlDatabase st) k
             (JString (param_shortId req)) a Hd);
      now apply Map_get_In.
Qed.

End Identity.

(** ** Health report and clean-up *)

Lemma filter_split_length {A} (P : A -> bool) (l : list A) :
  (length (List.filter P l) + length (List.filter (fun x => negb (P x)) l)
   = length l)%nat.
Proof.
  induction l as [|x l IH]; simpl; [reflexivity|].
  destruct (P x); simpl; lia.
Qed.

Lemma values_length st :
  addresses_allocated st ->
  length (Server.values st) = length (urlDatabase st).
Proof.
  unfold Server.values, Server.entries, addresses_allocated.
  rewrite length_map. generalize (urlDatabase st) as l.
  induction l as [|[k a] l IH]; intros Halloc; [reflexivity|].
  cbn [List.flat_map snd fst].
  destruct (lookup_lt_is_Some_2 (heap st) a (Halloc k a (or_introl eq_refl)))
    as [e ->].
  simpl. f_equal. apply IH. intros k' a' I. apply (Halloc k'). now right.
Qed.

(** X7. In a state whose table holds allocated entries only, the health
    report counts every key exactly once: [totalUrls] is the number of keys
    and equals [activeUrls + expiredUrls]; [expiredUrls] is 0 exactly when
    no entry of the table is expired at the time of the request. The
    request changes nothing. *)
Theorem health_counts now st :
  addresses_allocated st ->
  exists active expired,
    Server.health now st
    = (Json 200 (HealthBody "healthy" (length (urlDatabase st)) active expired),
       st)
    /\ (active + expired = length (urlDatabase st))%nat
    /\ (expired = 0%nat <->
        forall k e, In (k, e) (Server.entries st) ->
                    UrlEntry.isExpired now e = false).
Proof.
  intros Halloc. unfold Server.health.
  eexists _, _. split; [reflexivity|]. split.
  - rewrite <- (values_length st Halloc).
    rewrite Nat.add_comm.
    apply (filter_split_length (fun url => UrlEntry.isExpired now url)).
  - split.
    + intros H0 k e I.
      destruct (UrlEntry.isExpired now e) eqn:X; [|reflexivity].
      assert (In e (List.filter (fun url => UrlEntry.isExpired now url)
                      (Server.values st))).
      { apply filter_In. split; [|exact X].
        unfold Server.values. apply in_map_iff. now exists (k, e). }
      destruct (List.filter _ (Server.values st)); [contradiction|discriminate].
    + intros Hlive.
      destruct (List.filter (fun url => UrlEntry.isExpired now url)
                  (Server.values st)) as [|e l] eqn:F; [reflexivity|].
      assert (I : In e (List.filter (fun url => UrlEntry.isExpired now url)
                          (Server.values st))) by (rewrite F; now left).
      apply filter_In in I as [I X].
      unfold Server.values in I. apply in_map_iff in I as [[k e'] [E I]].
      simpl in E. subst e'. rewrite (Hlive k e I) in X. discriminate.
Qed.

Lemma cleanup_state now st :
  Map.wf (urlDatabase st) ->
  snd (Server.cleanupExpiredUrls now st)
  = {| heap := heap st;
       urlDatabase := List.filter (Server.keeps now st) (urlDatabase st) |}.
Proof.
  intros Hwf.
  pose proof (cleanup_heap now st) as Hh.
  pose proof (cleanup_filter now st Hwf) as Hdb.
  destruct (snd (Server.cleanupExpiredUrls now st)) as [h db].
  cbn [heap urlDatabase] in *. now subst.
Qed.

Lemma keeps_later now now' st ka :
  now <= now' -> Server.keeps now' st ka = true -> Server.keeps now st ka = true.
Proof.
  unfold Server.keeps. intros Hle.
  destruct (heap st !! (snd ka)) as [e|]; [|reflexivity].
  rewrite !negb_true_iff. now apply isExpired_earlier.
Qed.

(** X8. On a table with distinct keys: a clean-up that finds no expired
    entry reports no change and returns the state as it was; a clean-up
    run again at the same time finds nothing to remove; and a clean-up at
    a later time gives the same state whether or not an earlier clean-up
    ran before it. *)
Theorem cleanup_idempotent now now' st :
  Map.wf (urlDatabase st) -> now <= now' ->
  let st1 := snd (Server.cleanupExpiredUrls now st) in
  ((forall k e, In (k, e) (Server.entries st) ->
                UrlEntry.isExpired now e = false) ->
   Server.cleanupExpiredUrls now st = (false, st))
  /\ Server.cleanupExpiredUrls now st1 = (false, st1)
  /\ snd (Server.cleanupExpiredUrls now' st1)
     = snd (Server.cleanupExpiredUrls now' st).
Proof.
  intros Hwf Hle st1.
  assert (Hnone : forall s,
             Map.wf (urlDatabase s) ->
             (forall k e, In (k, e) (Server.entries s) ->
                          UrlEntry.isExpired now e = false) ->
             Server.cleanupExpiredUrls now s = (false, s)).
  { intros s Hs Hlive.
    rewrite (surjective_pairing (Server.cleanupExpiredUrls now s)).
    f_equal.
    - rewrite cleanup_hasChanges. apply not_true_is_false. intros H.
      apply existsb_exists in H as [[k e] [I X]]. simpl in X.
      rewrite (Hlive k e I) in X. discriminate.
    - rewrite (cleanup_state now s Hs). rewrite filter_all; [now destruct s|].
      intros [k a] I. unfold Server.keeps. cbn [snd].
      destruct (heap s !! a) as [e|] eqn:Ha; [|reflexivity].
      rewrite (Hlive k e); [reflexivity|]. apply entries_In. now exists a. }
  assert (E1 : st1 = {| heap := heap st;
                        urlDatabase := List.filter (Server.keeps now st)
                                         (urlDatabase st) |})
    by now apply cleanup_state.
  split; [now apply Hnone|]. split.
  - apply Hnone.
    + rewrite E1. cbn [urlDatabase]. now apply Map_wf_filter.
    + intros k e I. apply entries_In in I as [a [I Ha]].
      rewrite E1 in I, Ha. cbn [urlDatabase heap] in I, Ha.
      apply filter_In in I as [_ K]. unfold Server.keeps in K. cbn [snd] in K.
      rewrite Ha in K. now apply negb_true_iff in K.
  - rewrite (cleanup_state now' st Hwf), (cleanup_state now' st1);
      [|rewrite E1; cbn [urlDatabase]; now apply Map_wf_filter].
    rewrite E1. cbn [heap urlDatabase]. f_equal.
    rewrite filter_filter_and. apply filter_ext. intros ka.
    change (Server.keeps now'
              {| heap := heap st;
                 urlDatabase := List.filter (Server.keeps now st) (urlDatabase st) |}
              ka)
      with (Server.keeps now' st ka).
    destruct (Server.keeps now' st ka) eqn:K; [|apply andb_false_r].
    now rewrite (keeps_later now now' st ka Hle K).
Qed.

(** ** Identifiers that collide, slugs that come free *)



Section Collisions.
Variable isWebUri : string -> bool.
Variable toDataURL : string -> option string.

Local Abbreviation shorten := (Server.shorten isWebUri toDataURL).

(** X9. When a request without custom slug, whose [ttl] can be parsed and
    which no other request overlaps, creates an entry and the identifier
    generated for it is already a key of the table, the new entry takes
    the place of the one under that key, even if that one is live: the
    table keeps its keys and their order, statistics for the identifier
    now describe the new entry, and the replaced entry, left as it was in
    the object store, can no longer be reached through any key. *)
Theorem shorten_collision_overwrites now later random req st a_old e_old :
  Server.isValidUrl isWebUri (body_longUrl req) = true ->
  JsVal.truthy (body_customSlug req) = false ->
  Server.parsed_ttl req <> Throw ->
  (forall k e, In (k, e) (Server.entries st) ->
               longUrl e = body_longUrl req ->
               UrlEntry.isExpired now e = true) ->
  addresses_allocated st -> addresses_distinct st ->
  Server.lookup (generateShortId random) st = Some (a_old, e_old) ->
  let id := generateShortId random in
  let st' := snd (shorten now later random req st) in
  exists e,
    fst (shorten now later random req st)
    = Json 200 (EntryBody id (body_longUrl req) (UrlEntry.getStats later e))
    /\ Map.keys (urlDatabase st') = Map.keys (urlDatabase st)
    /\ Server.lookup id st' = Some (length (heap st), e)
    /\ longUrl e = body_longUrl req /\ accessCount e = 0
    /\ createdAt e = now
    /\ (forall now',
          fst (Server.stats now' id st')
          = Json 200 (EntryBody id (body_longUrl req)
                        (UrlEntry.getStats now' e)))
    /\ heap st' !! a_old = Some e_old
    /\ (forall k a e', Server.lookup k st' = Some (a, e') -> a <> a_old).
Proof.
  intros Hurl Hslug Hparse Hdead Halloc Hd L id st'.
  assert (Hacc : Server.accepted isWebUri req st).
  { split; [assumption|]. unfold Server.check_customSlug. now rewrite Hslug. }
  destruct (construct_without_slug now random req Hslug Hparse) as (p & C & Hp).
  fold id in Hp.
  pose proof (shorten_miss isWebUri toDataURL now later random req st p Hacc
                (no_live_duplicate now _ st Hdead) C) as M.
  destruct (created_fields toDataURL now random req p C)
    as (Hid & _ & Hu & _ & Hc & _ & Hn & _).
  rewrite Hp in Hid, M.
  set (e := Server.created toDataURL p) in *.
  apply lookup_Some in L as [Lk La]. fold id in Lk.
  assert (Hlt : (a_old < length (heap st))%nat) by now apply lookup_lt_Some in La.
  assert (E : st' = Server.install toDataURL p st)
    by (subst st'; now rewrite M).
  assert (Lnew : Server.lookup id st' = Some (length (heap st), e)).
  { rewrite E, (lookup_install toDataURL). now rewrite Hp, JsVal_eqb_refl. }
  exists e. rewrite M. cbn [fst]. split; [reflexivity|]. split; [|split].
  - rewrite E. unfold Server.install. cbn [urlDatabase]. rewrite Map_keys_set.
    rewrite Hp. unfold Map.has. now rewrite Lk.
  - exact Lnew.
  - split; [exact Hu|]. split; [exact Hn|]. split; [exact Hc|]. split; [|split].
    + intros now'. unfold Server.stats. rewrite Lnew. cbn [fst].
      now rewrite Hid, Hu.
    + rewrite E. unfold Server.install. cbn [heap]. now apply lookup_app_l_Some.
    + intros k a e' Lk' ->. rewrite E in Lk'.
      apply lookup_Some in Lk' as [G _]. unfold Server.install in G.
      cbn [urlDatabase] in G. rewrite Hp in G.
      destruct (JsVal.eqb_spec k id) as [->|Hk].
      * rewrite Map_get_set_eq in G. injection G as G. lia.
      * rewrite Map_get_set_ne in G by assumption. apply Hk.
        apply (distinct_key_of_address (urlDatabase st) k id a_old Hd);
          now apply Map_get_In.
Qed.


(** X17. A custom slug that is not a string, such as the number 123 or
    [true], is filed as it was sent. The entry created for it cannot be
    reached: the identifier of a redirect or statistics request is a
    string, so these requests are answered as they were before the entry
    was created, although the QR code of the entry encodes the link made
    of the text of the slug. *)
Theorem non_string_slug_unreachable now later random req st :
  addresses_allocated st ->
  Server.accepted isWebUri req st ->
  (forall k e, In (k, e) (Server.entries st) ->
               longUrl e = body_longUrl req ->
               UrlEntry.isExpired now e = true) ->
  Server.parsed_ttl req <> Throw ->
  JsVal.truthy (body_customSlug req) = true ->
  is_string (body_customSlug req) = false ->
  JsVal.safe (body_customSlug req) = true ->
  let slug := body_customSlug req in
  let st' := snd (shorten now later random req st) in
  exists e text,
    JsVal.toString slug = Normal text
    /\ fst (shorten now later random req st)
       = Json 200 (EntryBody slug (body_longUrl req)
                     (UrlEntry.getStats later e))
    /\ Server.lookup slug st' = Some (length (heap st), e)
    /\ shortId e = slug
    /\ qrCode e
       = toDataURL (req_protocol req ++ "://" ++ req_host req ++ "/" ++ text)
    /\ (forall s : string, Server.lookup s st' = Server.lookup s st)
    /\ (forall now' visit,
          fst (Server.redirect now' visit st')
          = fst (Server.redirect now' visit st))
    /\ (forall now' id,
          fst (Server.stats now' id st') = fst (Server.stats now' id st)).
Proof.
  intros Halloc Hacc Hdead Hparse Ht Hs _ slug st'.
  destruct (Server.parsed_ttl req) as [parsed|] eqn:P; [|contradiction].
  destruct (construct_accepted isWebUri toDataURL now random req st parsed
              Hacc P) as (p & C & _).
  pose proof (shorten_miss isWebUri toDataURL now later random req st p Hacc
                (no_live_duplicate now _ st Hdead) C) as M.
  destruct (created_fields toDataURL now random req p C)
    as (Hid & Hp & _ & _ & _ & _ & _ & _ & _ & _ & text & T & Hq).
  assert (Hp' : pending_shortId p = slug).
  { rewrite Hp. unfold JsVal.or. now rewrite Ht. }
  rewrite Hp' in *.
  assert (E : st' = Server.install toDataURL p st)
    by (subst st'; now rewrite M).
  assert (Hsame : forall s : string, Server.lookup s st' = Server.lookup s st).
  { intros s. rewrite E, (lookup_install toDataURL), Hp'.
    destruct (JsVal.eqb_spec (JString s) slug) as [Heq|_].
    - subst slug. rewrite <- Heq in Hs. discriminate Hs.
    - destruct (Server.lookup s st) as [[a e]|] eqn:L.
      + apply lookup_Some in L as [G Ha]. apply lookup_lt_Some in Ha.
        now apply Nat.ltb_lt in Ha as ->.
      + destruct (Map.get (JString s) (urlDatabase st)) as [a|] eqn:G;
          [|reflexivity].
        apply Map_get_In in G. apply Halloc in G.
        destruct (Nat.eqb_spec a (length (heap st))); [lia|reflexivity]. }
  exists (Server.created toDataURL p), text.
  split; [exact T|]. split; [now rewrite M|]. split.
  { rewrite E, (lookup_install toDataURL), Hp'. now rewrite JsVal_eqb_refl. }
  split; [exact Hid|]. split; [exact Hq|]. split; [exact Hsame|]. split.
  - intros now' visit. unfold Server.redirect. rewrite Hsame.
    destruct (Server.lookup (JString (param_shortId visit)) st) as [[a e]|];
      [|reflexivity].
    now destruct (UrlEntry.isExpired now' e).
  - intros now' id. unfold Server.stats. rewrite Hsame.
    now destruct (Server.lookup (JString id) st) as [[a e]|].
Qed.

End Collisions.

(** ** What the counters of an entry add up to *)

Lemma or_number_zero o :
  UrlEntry.or_number o 0 = match o with Some c => c | None => 0 end.
Proof.
  destruct o as [c|]; [|reflexivity]. simpl.
  destruct (Z.eqb_spec c 0) as [->|]; reflexivity.
Qed.

Lemma Map_total_set (m : JsMap Z) k v :
  Map_total (Map.set k v m)
  = Map_total m - match Map.get k m with Some c => c | None => 0 end + v.
Proof.
  induction m as [|[k0 c0] m IH]; simpl; [lia|].
  destruct (String.eqb k k0); simpl; [lia|]. fold (Map_total (Map.set k v m)).
  fold (Map_total m). rewrite IH. lia.
Qed.

Lemma getBrowser_label ua :
  In (UrlEntry.getBrowserFromUserAgent ua) browser_labels.
Proof.
  unfold UrlEntry.getBrowserFromUserAgent, browser_labels.
  repeat match goal with
         | |- context [if ?b then _ else _] => destruct b
         end; simpl; auto 6.
Qed.

Lemma counted_set (m : JsMap Z) k :
  (forall k' c, In (k', c) m -> 1 <= c) ->
  forall k' c,
    In (k', c) (Map.set k (UrlEntry.or_number (Map.get k m) 0 + 1) m) ->
    1 <= c.
Proof.
  intros Hm k' c I. apply Map_In_set in I as [[_ ->]|I]; [|now apply (Hm k')].
  rewrite or_number_zero. destruct (Map.get k m) as [c0|] eqn:G; [|lia].
  apply Map_get_In in G. apply Hm in G. lia.
Qed.

Lemma counted_updateStats now r ua e :
  counted e -> counted (UrlEntry.updateStats now r ua e).
Proof.
  intros (Hr & Hb & Hrp & Hbp & Hl).
  unfold counted. cbn [UrlEntry.updateStats referrers browserStats accessCount].
  split; [rewrite Map_total_set, or_number_zero; lia|].
  split; [rewrite Map_total_set, or_number_zero; lia|].
  split; [now apply counted_set|].
  split; [now apply counted_set|].
  intros k c I. apply Map_In_set in I as [[-> _]|I]; [|now apply (Hl k c)].
  apply getBrowser_label.
Qed.

Section Counters.
Variable isWebUri : string -> bool.
Variable toDataURL : string -> option string.

Local Abbreviation handle := (Run.handle isWebUri toDataURL).
Local Abbreviation run := (Run.run isWebUri toDataURL).

(** An object that appears during an event was created by it. *)
Lemma handle_new_object now ev st a e :
  heap st !! a = None -> heap (handle now ev st) !! a = Some e ->
  exists t random req p,
    Server.construct t random req = Normal p
    /\ e = Server.created toDataURL p.
Proof.
  intros Hnone Hsome.
  assert (Hinst : forall t random req p,
             Server.construct t random req = Normal p ->
             heap (Server.install toDataURL p st) !! a = Some e ->
             exists t random req p,
               Server.construct t random req = Normal p
               /\ e = Server.created toDataURL p).
  { intros t random req p C H. unfold Server.install in H. cbn [heap] in H.
    apply lookup_ge_None in Hnone.
    rewrite lookup_app_r in H by assumption.
    destruct (a - length (heap st))%nat; simpl in H; [|discriminate].
    injection H as <-. now exists t, random, req, p. }
  destruct ev as [random req|began random req|req|id| |].
  - destruct (handle_shorten isWebUri toDataURL now random req st)
      as [E|(p & C & _ & E)]; rewrite E in Hsome; [congruence|].
    now apply (Hinst now random req p).
  - destruct (handle_install isWebUri toDataURL now began random req st)
      as [E|(p & C & E)]; rewrite E in Hsome; [congruence|].
    now apply (Hinst began random req p).
  - cbn [Run.handle] in Hsome. unfold Server.redirect in Hsome.
    destruct (Server.lookup (JString (param_shortId req)) st) as [[a0 e0]|];
      [|cbn [snd] in Hsome; congruence].
    destruct (UrlEntry.isExpired now e0); cbn [snd heap] in Hsome;
      [congruence|].
    apply lookup_ge_None in Hnone. apply lookup_lt_Some in Hsome.
    rewrite length_insert in Hsome. lia.
  - cbn [Run.handle] in Hsome. unfold Server.stats in Hsome.
    destruct (Server.lookup (JString id) st) as [[? ?]|]; cbn [snd] in Hsome;
      congruence.
  - cbn [Run.handle Server.health snd] in Hsome. congruence.
  - cbn [Run.handle] in Hsome. rewrite cleanup_heap in Hsome. congruence.
Qed.

(** A property of entries that holds of new entries and is kept by
    [updateStats] holds of every object of every reachable state. *)
Lemma run_objects (P : UrlEntry -> Prop) :
  (forall t random req p,
      Server.construct t random req = Normal p ->
      P (Server.created toDataURL p)) ->
  (forall now r ua e, P e -> P (UrlEntry.updateStats now r ua e)) ->
  forall trace st,
    (forall a e, heap st !! a = Some e -> P e) ->
    forall a e, heap (run trace st) !! a = Some e -> P e.
Proof.
  intros Hnew Hupd. induction trace as [|[now ev] trace IH]; intros st Hst;
    [exact Hst|].
  rewrite run_cons. apply IH. intros a e Ha.
  destruct (heap st !! a) as [e0|] eqn:Ha0.
  - destruct (handle_object isWebUri toDataURL now ev st a e0 Ha0)
      as [[_ H]|[_ [r [ua H]]]]; rewrite H in Ha; injection Ha as <-.
    + now apply (Hst a).
    + apply Hupd. now apply (Hst a).
  - destruct (handle_new_object now ev st a e Ha0 Ha)
      as (t & random & req & p & C & ->).
    now apply (Hnew t random req).
Qed.

(** X11. In every state reached from an empty table, the referrer counts
    of an entry add up to its [accessCount], and so do its browser counts;
    every recorded count is at least one, and the browser labels recorded
    are among "Firefox", "Chrome", "Safari", "Edge" and "Other". *)
Theorem counters_add_up trace a e :
  heap (run trace empty_state) !! a = Some e ->
  Map_total (referrers e) = accessCount e
  /\ Map_total (browserStats e) = accessCount e
  /\ 0 <= accessCount e
  /\ (forall k c, Map.get k (referrers e) = Some c -> 1 <= c <= accessCount e)
  /\ (forall k c, Map.get k (browserStats e) = Some c ->
                  1 <= c <= accessCount e /\ In k browser_labels).
Proof.
  intros Ha.
  assert (Hc : counted e /\ 0 <= accessCount e).
  { apply (run_objects (fun e => counted e /\ 0 <= accessCount e))
      with (trace := trace) (st := empty_state) (a := a).
    - intros t random req p C.
      destruct (created_fields toDataURL t random req p C)
        as (_ & _ & _ & _ & _ & _ & Hn & _ & Hr & Hb & _).
      unfold counted. rewrite Hn, Hr, Hb. split; [|lia].
      repeat split; try reflexivity; intros k c [].
    - intros now r ua e0 [H0 Hpos]. split; [now apply counted_updateStats|].
      cbn [UrlEntry.updateStats accessCount]. lia.
    - intros a0 e0 H. now destruct a0.
    - exact Ha. }
  destruct Hc as [(Hr & Hb & Hrp & Hbp & Hl) Hpos].
  assert (Hle : forall (m : JsMap Z) k c,
             (forall k' c', In (k', c') m -> 1 <= c') ->
             In (k, c) m -> c <= Map_total m).
  { induction m as [|[k0 c0] m IH]; intros k c Hm [].
    - injection H as -> ->. simpl. fold (Map_total m).
      assert (0 <= Map_total m).
      { clear IH. induction m as [|[k1 c1] m IHm]; simpl; [lia|].
        fold (Map_total m).
        assert (1 <= c1) by (apply (Hm k1); right; now left).
        assert (0 <= Map_total m).
        { apply IHm. intros k' c' [E|I]; apply (Hm k'); [now left|].
          right. now right. }
        lia. }
      lia.
    - simpl. fold (Map_total m).
      assert (1 <= c0) by (apply (Hm k0); now left).
      assert (c <= Map_total m).
      { apply (IH k); [|assumption]. intros k' c' I. apply (Hm k'). now right. }
      lia. }
  split; [exact Hr|]. split; [exact Hb|]. split; [exact Hpos|]. split.
  - intros k c G. apply Map_get_In in G. split; [now apply (Hrp k)|].
    rewrite <- Hr. now apply (Hle _ k).
  - intros k c G. apply Map_get_In in G. split; [split|].
    + now apply (Hbp k).
    + rewrite <- Hb. now apply (Hle _ k).
    + now apply (Hl k c).
Qed.

End Counters.

(** ** One live entry per URL *)

Section Uniqueness.
Variable isWebUri : string -> bool.
Variable toDataURL : string -> option string.

Local Abbreviation shorten := (Server.shorten isWebUri toDataURL).
Local Abbreviation handle := (Run.handle isWebUri toDataURL).
Local Abbreviation run := (Run.run isWebUri toDataURL).

(** When a shorten request that nothing overlaps changes the state, it
    found no live duplicate. *)
Lemma handle_shorten_cases now random req st :
  handle now (EvShorten random req) st = st
  \/ exists p,
       Server.construct now random req = Normal p
       /\ Server.find_existing now (body_longUrl req) (Server.entries st) = None
       /\ handle now (EvShorten random req) st = Server.install toDataURL p st.
Proof.
  cbn [Run.handle]. unfold Server.begin.
  destruct (negb _); [now left|].
  destruct (Server.check_customSlug _ _) as [[r|]|]; [now left| |now left].
  destruct (Server.find_existing _ _ _) as [[k0 e0]|]; [now left|].
  destruct (Server.construct now random req) as [p|]; [|now left].
  right. now exists p.
Qed.

(** Where the entry under a key comes from, after an event that is not
    the second part of an overlapped request: it was under that key before
    the event, with the same [longUrl] and the same expiry, or the event
    is a [shorten] that created it under this key after finding no live
    entry with its [longUrl]. *)
Lemma handle_lookup_origin now ev st k a e :
  State_wf st -> overlapped ev = false ->
  Server.lookup k (handle now ev st) = Some (a, e) ->
  (exists e0, Server.lookup k st = Some (a, e0)
              /\ longUrl e = longUrl e0
              /\ forall t, UrlEntry.isExpired t e = UrlEntry.isExpired t e0)
  \/ (exists random req p,
        ev = EvShorten random req
        /\ Server.construct now random req = Normal p
        /\ k = pending_shortId p
        /\ Server.find_existing now (longUrl e) (Server.entries st) = None).
Proof.
  intros (Hwf & Halloc & _) Hseq L.
  assert (Hsame : forall e0, Server.lookup k st = Some (a, e0) -> e = e0 ->
            exists e1, Server.lookup k st = Some (a, e1)
                       /\ longUrl e = longUrl e1
                       /\ forall t, UrlEntry.isExpired t e = UrlEntry.isExpired t e1).
  { intros e0 H ->. now exists e0. }
  destruct ev as [random req|began random req|req|id| |];
    [|discriminate Hseq| | | |].
  - destruct (handle_shorten_cases now random req st) as [E|(p & C & F & E)];
      rewrite E in L.
    + left. now apply (Hsame e).
    + rewrite (lookup_install toDataURL) in L.
      destruct (JsVal.eqb_spec k (pending_shortId p)) as [Hk|Hk].
      * injection L as <- <-. right. exists random, req, p.
        destruct (created_fields toDataURL now random req p C)
          as (_ & _ & Hu & _).
        rewrite Hu. now repeat split.
      * destruct (Server.lookup k st) as [[a0 e0]|] eqn:L0.
        -- destruct (a0 <? length (heap st))%nat; [|discriminate].
           injection L as <- <-. left. now apply (Hsame e0).
        -- destruct (Map.get k (urlDatabase st)) as [a0|] eqn:G; [|discriminate].
           apply Map_get_In in G. apply Halloc in G.
           destruct (Nat.eqb_spec a0 (length (heap st))); [lia|discriminate].
  - left. cbn [Run.handle] in L. unfold Server.redirect in L.
    destruct (Server.lookup (JString (param_shortId req)) st)
      as [[a0 e0]|] eqn:L0; [|now apply (Hsame e)].
    destruct (UrlEntry.isExpired now e0); cbn [snd] in L.
    + apply lookup_Some in L as [G Ha]. cbn [heap urlDatabase] in G, Ha.
      destruct (JsVal.eqb_spec k (JString (param_shortId req))) as [->|Hk];
        [now rewrite Map_get_delete_eq in G|].
      rewrite Map_get_delete_ne in G by assumption.
      apply (Hsame e); [now apply lookup_Some|reflexivity].
    + apply lookup_Some in L0 as [G0 Ha0].
      apply lookup_Some in L as [G Ha]. cbn [heap urlDatabase] in G, Ha.
      destruct (Nat.eq_dec a0 a) as [->|Hne].
      * rewrite list_lookup_insert_eq in Ha by now apply lookup_lt_Some in Ha0.
        injection Ha as <-. exists e0. split; [now apply lookup_Some|].
        split; reflexivity.
      * rewrite list_lookup_insert_ne in Ha by assumption.
        apply (Hsame e); [now apply lookup_Some|reflexivity].
  - left. cbn [Run.handle] in L. unfold Server.stats in L.
    destruct (Server.lookup (JString id) st) as [[? ?]|]; now apply (Hsame e).
  - left. now apply (Hsame e).
  - left. cbn [Run.handle] in L. rewrite (cleanup_state now st Hwf) in L.
    apply lookup_Some in L as [G Ha]. cbn [heap urlDatabase] in G, Ha.
    rewrite (Map_get_filter _ _ _ Hwf) in G.
    destruct (Map.get k (urlDatabase st)) as [a0|] eqn:G0; [|discriminate].
    destruct (Server.keeps now st (k, a0)); [|discriminate].
    injection G as ->. apply (Hsame e); [now apply lookup_Some|reflexivity].
Qed.

Lemma handle_unique_live now ev st :
  State_wf st -> overlapped ev = false ->
  unique_live now st -> unique_live now (handle now ev st).
Proof.
  intros Hst Hseq U k1 a1 e1 k2 a2 e2 L1 L2 Hu H1 H2.
  assert (Hnew : forall k e k' a' e',
             (exists random req p,
                 ev = EvShorten random req
                 /\ Server.construct now random req = Normal p
                 /\ k = pending_shortId p
                 /\ Server.find_existing now (longUrl e) (Server.entries st)
                    = None) ->
             (exists e0, Server.lookup k' st = Some (a', e0)
                         /\ longUrl e' = longUrl e0
                         /\ forall t, UrlEntry.isExpired t e'
                                      = UrlEntry.isExpired t e0) ->
             longUrl e = longUrl e' -> UrlEntry.isExpired now e' = false ->
             False).
  { intros k e k' a' e' (random & req & p & _ & _ & _ & F)
      (e0 & L0 & Hu0 & Hx0) Hue Hl.
    pose proof (find_existing_None _ _ _ F k' e0 (lookup_entries _ _ _ _ L0)) as X.
    rewrite <- Hx0, Hl in X. assert (true = false); [|discriminate].
    symmetry. apply X. congruence. }
  destruct (handle_lookup_origin now ev st k1 a1 e1 Hst Hseq L1) as [O1|N1];
    destruct (handle_lookup_origin now ev st k2 a2 e2 Hst Hseq L2) as [O2|N2].
  - destruct O1 as (e01 & L01 & Hu1 & Hx1), O2 as (e02 & L02 & Hu2 & Hx2).
    apply (U k1 a1 e01 k2 a2 e02); try assumption; [congruence| |].
    + now rewrite <- Hx1.
    + now rewrite <- Hx2.
  - exfalso. apply (Hnew k2 e2 k1 a1 e1 N2 O1); [congruence|assumption].
  - exfalso. now apply (Hnew k1 e1 k2 a2 e2 N1 O2).
  - destruct N1 as (r1 & q1 & p1 & E1 & C1 & -> & _),
      N2 as (r2 & q2 & p2 & E2 & C2 & -> & _).
    rewrite E1 in E2. injection E2 as <- <-. congruence.
Qed.

Lemma unique_live_later now now' st :
  now <= now' -> unique_live now st -> unique_live now' st.
Proof.
  intros Hle U k1 a1 e1 k2 a2 e2 L1 L2 Hu H1 H2.
  apply (U k1 a1 e1 k2 a2 e2); try assumption;
    now apply (isExpired_earlier now now').
Qed.

Lemma run_unique_live trace : forall t st,
  sequential trace = true ->
  chronological t trace -> State_wf st -> unique_live t st ->
  unique_live (end_time t trace) (run trace st).
Proof.
  induction trace as [|[now ev] trace IH]; intros t st Hs Hc Hst U; [exact U|].
  destruct Hc as [Hle Hc]. rewrite run_cons.
  cbn [sequential forallb snd] in Hs. apply andb_true_iff in Hs as [Hev Hs].
  apply negb_true_iff in Hev.
  change (end_time t ((now, ev) :: trace)) with (end_time now trace).
  apply IH; [exact Hs|exact Hc|now apply handle_State_wf|].
  apply handle_unique_live; [exact Hst|exact Hev|].
  now apply (unique_live_later t now st).
Qed.

(** X12. Along a run from an empty table in which no request overlaps
    another and whose clock readings never go back, the table never holds
    two live entries with the same [longUrl]: at the time of the last
    event and at any later time, of two different keys whose entries have
    the same [longUrl], when the entry of one is live the entry of the
    other is expired. *)
Theorem live_longUrl_unique t trace now k1 a1 e1 k2 a2 e2 :
  sequential trace = true ->
  chronological t trace -> end_time t trace <= now ->
  Server.lookup k1 (run trace empty_state) = Some (a1, e1) ->
  Server.lookup k2 (run trace empty_state) = Some (a2, e2) ->
  longUrl e1 = longUrl e2 ->
  k1 <> k2 ->
  UrlEntry.isExpired now e1 = false ->
  UrlEntry.isExpired now e2 = true.
Proof.
  intros Hs Hc Hle L1 L2 Hu Hk H1.
  assert (U : unique_live now (run trace empty_state)).
  { apply (unique_live_later (end_time t trace) now _ Hle).
    apply run_unique_live; [exact Hs|exact Hc|apply State_wf_empty|].
    intros k a e k' a' e' L. discriminate L. }
  destruct (UrlEntry.isExpired now e2) eqn:H2; [reflexivity|].
  exfalso. apply Hk. now apply (U k1 a1 e1 k2 a2 e2).
Qed.

(** X16. Two shorten requests that overlap both create: when each has
    passed its checks against the same table before either has filed its
    entry, and their identifiers differ, then after both have resumed the
    table holds both entries, each under its identifier and with the
    [longUrl] of its request, and an entry without time to live never
    expires. Two overlapping requests for the same URL thus leave two
    live entries with that [longUrl]. *)
Theorem overlapping_requests_both_create
    now1 now2 random1 random2 req1 req2 st p1 p2 :
  Server.begin isWebUri now1 random1 req1 st = Suspended p1 ->
  Server.begin isWebUri now2 random2 req2 st = Suspended p2 ->
  pending_shortId p1 <> pending_shortId p2 ->
  let st' := Server.install toDataURL p2 (Server.install toDataURL p1 st) in
  let e1 := Server.created toDataURL p1 in
  let e2 := Server.created toDataURL p2 in
  (forall t, st' = handle t (EvInstall now2 random2 req2)
                     (handle now1 (EvShorten random1 req1) st))
  /\ Server.lookup (pending_shortId p1) st' = Some (length (heap st), e1)
  /\ Server.lookup (pending_shortId p2) st' = Some (S (length (heap st)), e2)
  /\ longUrl e1 = body_longUrl req1 /\ longUrl e2 = body_longUrl req2
  /\ (JsVal.truthy (body_ttl req1) = false ->
      forall t, UrlEntry.isExpired t e1 = false)
  /\ (JsVal.truthy (body_ttl req2) = false ->
      forall t, UrlEntry.isExpired t e2 = false).
Proof.
  intros B1 B2 Hne st' e1 e2.
  assert (C : forall now random req p,
             Server.begin isWebUri now random req st = Suspended p ->
             Server.construct now random req = Normal p).
  { intros now random req p. unfold Server.begin.
    destruct (negb _); [discriminate|].
    destruct (Server.check_customSlug _ _) as [[r|]|]; try discriminate.
    destruct (Server.find_existing _ _ _) as [[k0 e0]|]; [discriminate|].
    destruct (Server.construct now random req) as [p'|]; [|discriminate].
    now intros [= ->]. }
  pose proof (C _ _ _ _ B1) as C1. pose proof (C _ _ _ _ B2) as C2.
  destruct (created_fields toDataURL now1 random1 req1 p1 C1)
    as (_ & _ & Hu1 & _ & _ & Ht1 & _).
  destruct (created_fields toDataURL now2 random2 req2 p2 C2)
    as (_ & _ & Hu2 & _ & _ & Ht2 & _).
  fold e1 in Hu1, Ht1. fold e2 in Hu2, Ht2.
  assert (Hlive : forall req e,
             Server.parsed_ttl req = Normal (ttl e) ->
             JsVal.truthy (body_ttl req) = false ->
             forall t, UrlEntry.isExpired t e = false).
  { intros req e P T t. unfold Server.parsed_ttl in P. rewrite T in P.
    injection P as P. unfold UrlEntry.isExpired. now rewrite <- P. }
  split; [|split; [|split; [|split; [|split; [|split]]]]].
  - intros t. subst st'. cbn [Run.handle]. now rewrite B1, C2.
  - subst st'. rewrite (lookup_install toDataURL).
    destruct (JsVal.eqb_spec (pending_shortId p1) (pending_shortId p2))
      as [E|_]; [contradiction|].
    rewrite (lookup_install toDataURL), JsVal_eqb_refl.
    unfold Server.install at 1. cbn [heap]. rewrite length_app. cbn [length].
    destruct (Nat.ltb_spec (length (heap st)) (length (heap st) + 1)); [|lia].
    reflexivity.
  - subst st'. rewrite (lookup_install toDataURL), JsVal_eqb_refl.
    unfold Server.install at 1. cbn [heap]. rewrite length_app. cbn [length].
    now rewrite Nat.add_1_r.
  - exact Hu1.
  - exact Hu2.
  - now apply (Hlive req1).
  - now apply (Hlive req2).
Qed.

End Uniqueness.

(** ** Saving the table and loading it again *)

Section ValueMaps.
Context {A B : Type} (f : A -> B).








End ValueMaps.












Section Named.
Context {A : Type}.
Implicit Types l : list (JsVal * A).







End Named.












(** ** Statistics of expired entries *)

(** X15. The statistics handler does not look at the expiry: for a key
    whose entry has expired but is still in the table it answers 200 with
    the entry's statistics, [isExpired] being true, and leaves the table
    as it is. Once the clean-up has run, the same request is answered
    404. *)
Theorem stats_serves_expired now (k : string) st a e :
  Map.wf (urlDatabase st) ->
  Server.lookup k st = Some (a, e) ->
  UrlEntry.isExpired now e = true ->
  Server.stats now k st
  = (Json 200 (EntryBody (shortId e) (longUrl e) (UrlEntry.getStats now e)), st)
  /\ stats_isExpired (UrlEntry.getStats now e) = true
  /\ forall now',
       Server.stats now' k (snd (Server.cleanupExpiredUrls now st))
       = (Json 404 (ErrorBody "URL not found"),
          snd (Server.cleanupExpiredUrls now st)).
Proof.
  intros Hwf L Hexp. split; [|split].
  - unfold Server.stats. now rewrite L.
  - exact Hexp.
  - intros now'. unfold Server.stats.
    rewrite (lookup_None_of_get k (snd (Server.cleanupExpiredUrls now st)));
      [reflexivity|].
    rewrite cleanup_filter by assumption.
    rewrite Map_get_filter by assumption.
    apply lookup_Some in L as [G Ha]. rewrite G.
    unfold Server.keeps. cbn [snd]. now rewrite Ha, Hexp.
Qed.

(** ** The further properties on sample runs *)

Lemma Demo_State_wf : State_wf Demo.state.
Proof.
  split; [apply Demo_state_wf|]. split; [|split].
  - intros k a [[= <- <-]|[[= <- <-]|[]]]; simpl; lia.
  - intros k a e [[= <- <-]|[[= <- <-]|[]]] Hh; injection Hh as <-; reflexivity.
  - intros a e H. destruct a as [|[|a]]; simpl in H; try discriminate;
      injection H as <-; split; repeat constructor; simpl; intuition discriminate.
Qed.

Lemma Demo_addresses_distinct : addresses_distinct Demo.state.
Proof. repeat constructor; simpl; intuition discriminate. Qed.

Lemma Demo_no_blog now k e :
  In (k, e) (Server.entries Demo.state) ->
  longUrl e = "https://example.com/blog" -> UrlEntry.isExpired now e = true.
Proof. intros [[= <- <-]|[[= <- <-]|[]]] Hu; discriminate Hu. Qed.

Lemma shorten_creates_witness :
  exists e,
    Server.lookup "deadbeef"
      (snd (Server.shorten Demo.isWebUri Demo.toDataURL 1200 1210 Demo.random2
              (Demo.blog_ttl JUndefined) Demo.state))
    = Some (2%nat, e)
    /\ longUrl e = "https://example.com/blog" /\ accessCount e = 0.
Proof.
  assert (Hp : Server.parsed_ttl (Demo.blog_ttl JUndefined) <> Throw)
    by discriminate.
  destruct (proj2 (shorten_creates Demo.isWebUri Demo.toDataURL 1200 1210
                     Demo.random2 (Demo.blog_ttl JUndefined) Demo.state
                     (conj eq_refl eq_refl) (Demo_no_blog 1200))
              Hp eq_refl)
    as (id & e & text & -> & _ & _ & _ & _ & L & _ & Hu & _ & Hc & _).
  exists e. split; [exact L|]. split; [exact Hu|exact Hc].
Defined.

Lemma shorten_ttl_expiry_witness :
  exists e,
    Server.lookup "deadbeef"
      (snd (Server.shorten Demo.isWebUri Demo.toDataURL 1200 1210 Demo.random2
              (Demo.blog_ttl (JNumber (Num 60000))) Demo.state))
    = Some (2%nat, e)
    /\ ttl e = Some (Num 60000)
    /\ UrlEntry.isExpired 61200 e = false
    /\ UrlEntry.isExpired 61201 e = true.
Proof.
  assert (Hne : 60000 <> 0) by discriminate.
  destruct (shorten_ttl_expiry Demo.isWebUri Demo.toDataURL 1200 1210
              Demo.random2 (Demo.blog_ttl (JNumber (Num 60000))) Demo.state
              60000 (conj eq_refl eq_refl) (Demo_no_blog 1200) Hne
              eq_refl eq_refl (or_introl eq_refl))
    as (e & L & Httl & _ & Hexp & _).
  exists e. split; [exact L|]. split; [exact Httl|].
  split; rewrite Hexp; reflexivity.
Defined.

Lemma redirect_other_keys_witness :
  Server.lookup "3fa9007c"
    (snd (Server.redirect 1200 Demo.get_promo Demo.state))
  = Some (1%nat, Demo.docs).
Proof.
  destruct (redirect_other_keys 1200 Demo.get_promo Demo.state
              Demo_addresses_distinct) as [_ H].
  rewrite (H (JString "3fa9007c")); [reflexivity|discriminate].
Defined.

Lemma health_counts_witness :
  exists active expired,
    fst (Server.health 2000 Demo.state)
    = Json 200 (HealthBody "healthy" 2 active expired)
    /\ (active + expired = 2)%nat.
Proof.
  assert (Halloc : addresses_allocated Demo.state) by apply Demo_State_wf.
  destruct (health_counts 2000 Demo.state Halloc)
    as (active & expired & H & Hsum & _).
  exists active, expired. split; [now rewrite H|exact Hsum].
Defined.

Lemma cleanup_idempotent_witness :
  Server.cleanupExpiredUrls 2000 (snd (Server.cleanupExpiredUrls 2000 Demo.state))
  = (false, snd (Server.cleanupExpiredUrls 2000 Demo.state)).
Proof.
  apply (cleanup_idempotent 2000 2000 Demo.state Demo_state_wf (Z.le_refl 2000)).
Defined.

Lemma shorten_collision_overwrites_witness :
  UrlEntry.isExpired 1200 Demo.docs = false
  /\ exists e,
       fst (Server.shorten Demo.isWebUri Demo.toDataURL 1200 1210 Demo.random1
              Scenario.colliding Demo.state)
       = Json 200 (EntryBody "3fa9007c" "https://example.com/blog"
                     (UrlEntry.getStats 1210 e))
       /\ Server.lookup "3fa9007c"
            (snd (Server.shorten Demo.isWebUri Demo.toDataURL 1200 1210
                    Demo.random1 Scenario.colliding Demo.state))
          = Some (2%nat, e)
       /\ longUrl e = "https://example.com/blog" /\ accessCount e = 0.
Proof.
  split; [reflexivity|].
  assert (Halloc : addresses_allocated Demo.state) by apply Demo_State_wf.
  assert (Hp : Server.parsed_ttl Scenario.colliding <> Throw) by discriminate.
  destruct (shorten_collision_overwrites Demo.isWebUri Demo.toDataURL 1200
              1210 Demo.random1 Scenario.colliding Demo.state 1%nat Demo.docs
              eq_refl eq_refl Hp (Demo_no_blog 1200) Halloc
              Demo_addresses_distinct eq_refl)
    as (e & R & _ & L & Hu & Hc & _).
  exists e. split; [exact R|]. split; [exact L|]. split; [exact Hu|exact Hc].
Defined.


Lemma non_string_slug_unreachable_witness :
  exists e,
    Server.lookup (JNumber (Num 123))
      (snd (Server.shorten Demo.isWebUri Demo.toDataURL 1200 1210 Demo.random2
              Scenario.as_number_123 Scenario.text_123))
    = Some (1%nat, e)
    /\ qrCode e = Demo.toDataURL "http://localhost:3001/123"
    /\ fst (Server.redirect 1300 (Demo.visit "123" None None)
              (snd (Server.shorten Demo.isWebUri Demo.toDataURL 1200 1210
                      Demo.random2 Scenario.as_number_123 Scenario.text_123)))
       = Redirect "https://example.com/page".
Proof.
  assert (Halloc : addresses_allocated Scenario.text_123).
  { intros k a [[= <- <-]|[]]; simpl; lia. }
  assert (Hp : Server.parsed_ttl Scenario.as_number_123 <> Throw)
    by discriminate.
  assert (Hdead : forall k e', In (k, e') (Server.entries Scenario.text_123) ->
                    longUrl e' = "https://example.com/new" ->
                    UrlEntry.isExpired 1200 e' = true).
  { intros k e' [[= <- <-]|[]] Hu; discriminate Hu. }
  destruct (non_string_slug_unreachable Demo.isWebUri Demo.toDataURL 1200 1210
              Demo.random2 Scenario.as_number_123 Scenario.text_123 Halloc
              (conj eq_refl eq_refl) Hdead Hp eq_refl eq_refl eq_refl)
    as (e & text & T & _ & L & _ & Hq & _ & Hr & _).
  exists e. split; [exact L|]. split.
  - rewrite Hq. injection T as <-. reflexivity.
  - rewrite Hr. reflexivity.
Defined.

Lemma counters_add_up_witness :
  exists e,
    heap (Run.run Demo.isWebUri Demo.toDataURL Scenario.two_visits empty_state)
      !! 0%nat = Some e
    /\ accessCount e = 2
    /\ Map_total (referrers e) = 2 /\ Map_total (browserStats e) = 2.
Proof.
  eexists. split; [reflexivity|]. split; [reflexivity|].
  destruct (counters_add_up Demo.isWebUri Demo.toDataURL Scenario.two_visits
              0%nat _ eq_refl) as (Hr & Hb & _).
  split; [exact Hr|exact Hb].
Defined.

Lemma live_longUrl_unique_witness :
  exists e1 e2,
    Server.lookup "deadbeef"
      (Run.run Demo.isWebUri Demo.toDataURL Scenario.shortened_again empty_state)
    = Some (1%nat, e1)
    /\ Server.lookup "3fa9007c"
         (Run.run Demo.isWebUri Demo.toDataURL Scenario.shortened_again
            empty_state)
       = Some (0%nat, e2)
    /\ longUrl e1 = longUrl e2
    /\ UrlEntry.isExpired 2000 e1 = false
    /\ UrlEntry.isExpired 2000 e2 = true.
Proof.
  eexists _, _. repeat (split; [reflexivity|]).
  assert (Hc : chronological 0 Scenario.shortened_again).
  { repeat split; discriminate. }
  assert (Hle : end_time 0 Scenario.shortened_again <= 2000) by discriminate.
  assert (Hne : JString "deadbeef" <> JString "3fa9007c") by discriminate.
  apply (live_longUrl_unique Demo.isWebUri Demo.toDataURL 0
           Scenario.shortened_again 2000 (JString "deadbeef") 1%nat _
           (JString "3fa9007c") 0%nat _
           eq_refl Hc Hle eq_refl eq_refl eq_refl Hne eq_refl).
Defined.

Lemma overlapping_requests_both_create_witness :
  exists e1 e2,
    Server.lookup "3fa9007c"
      (Run.run Demo.isWebUri Demo.toDataURL Scenario.overlapping empty_state)
    = Some (0%nat, e1)
    /\ Server.lookup "deadbeef"
         (Run.run Demo.isWebUri Demo.toDataURL Scenario.overlapping
            empty_state)
       = Some (1%nat, e2)
    /\ longUrl e1 = "https://example.com/blog"
    /\ longUrl e2 = "https://example.com/blog"
    /\ UrlEntry.isExpired 5000 e1 = false
    /\ UrlEntry.isExpired 5000 e2 = false.
Proof.
  assert (Hne : JString "3fa9007c" <> JString "deadbeef") by discriminate.
  destruct (overlapping_requests_both_create Demo.isWebUri Demo.toDataURL
              1000 1001 Demo.random1 Demo.random2 (Demo.blog_ttl JUndefined)
              (Demo.blog_ttl JUndefined) empty_state _ _ eq_refl eq_refl Hne)
    as (Hrun & L1 & L2 & Hu1 & Hu2 & H1 & H2).
  eexists _, _.
  split; [unfold Scenario.overlapping, Run.run; cbn [fold_left fst snd];
          rewrite <- (Hrun 1002); exact L1|].
  split; [unfold Scenario.overlapping, Run.run; cbn [fold_left fst snd];
          rewrite <- (Hrun 1002); exact L2|].
  split; [exact Hu1|]. split; [exact Hu2|].
  split; [now apply H1|now apply H2].
Defined.


Lemma shorten_twice_same_id_witness :
  exists id e,
    fst (Server.shorten Demo.isWebUri Demo.toDataURL 1200 1210 Demo.random2
           (Demo.blog_ttl JUndefined) Demo.state)
    = Json 200 (EntryBody id "https://example.com/blog"
                  (UrlEntry.getStats 1210 e))
    /\ fst (Server.shorten Demo.isWebUri Demo.toDataURL 1300 1310 Demo.random1
              (Demo.blog_ttl JUndefined)
              (snd (Server.shorten Demo.isWebUri Demo.toDataURL 1200 1210
                      Demo.random2 (Demo.blog_ttl JUndefined) Demo.state)))
       = Json 200 (EntryBody id "https://example.com/blog"
                     (UrlEntry.getStats 1300 e)).
Proof.
  assert (Halloc : addresses_allocated Demo.state) by apply Demo_State_wf.
  assert (Hle : 1200 <= 1300) by discriminate.
  assert (Hp : Server.parsed_ttl (Demo.blog_ttl JUndefined) <> Throw)
    by discriminate.
  destruct (shorten_twice_same_id Demo.isWebUri Demo.toDataURL 1200 1210
              1300 1310 Demo.random2 Demo.random1 (Demo.blog_ttl JUndefined)
              Demo.state Halloc eq_refl eq_refl Hp Hle)
    as (id & e & t & Ht & H1 & H2).
  change (t = 1210) in Ht. subst t.
  exists id, e. split; [exact H1|]. apply H2.
  pose proof (f_equal (fun r => match r with
                                | Json _ (EntryBody _ _ s) => stats_ttl s
                                | _ => Some NaN
                                end) H1) as T.
  cbn in T. unfold UrlEntry.isExpired. now rewrite <- T.
Defined.

Lemma stats_serves_expired_witness :
  Server.stats 2000 "promo" Demo.state
  = (Json 200 (EntryBody "promo" "https://example.com/sale"
                 (UrlEntry.getStats 2000 Demo.promo)), Demo.state)
  /\ fst (Server.stats 2100 "promo"
            (snd (Server.cleanupExpiredUrls 2000 Demo.state)))
     = Json 404 (ErrorBody "URL not found").
Proof.
  destruct (stats_serves_expired 2000 "promo" Demo.state 0%nat Demo.promo
              Demo_state_wf eq_refl eq_refl) as (H & _ & H404).
  split; [exact H|]. now rewrite H404.
Defined.
